(** * Astron front-end behaviour layer (main.js): a shallow embedding

    The script wires eight small classes to browser events.  The embedding
    keeps the shape of the script: one mutable [World] (the DOM store, the
    window metrics and everything the script can observe or mutate), a
    state-and-exception monad [M] for method bodies, and one Rocq module per
    JavaScript class whose definitions carry the names of the methods.

    JavaScript numbers are IEEE-754 binary64 values and are modelled by
    Rocq's primitive floats, so that comparisons such as [scrollY > 100] and
    the repeated addition in the counter animation behave as in the
    browser.

    Covered: the listener of [DOMContentLoaded] and everything it calls,
    that is the eight classes, [debounce], [preloadCriticalImages],
    [handleImageErrors] and [checkReducedMotion].  Left out: the
    performance-monitoring and service-worker blocks at the end of the
    script, which only write to the console. *)

From Stdlib Require Import ZArith Floats Ascii String.
From stdpp Require Import gmap strings list.

Local Open Scope Z_scope.

(** ** JavaScript numbers *)

Module Js.

Definition number := float.

(** The number with the value of an integer (round to nearest even). *)
Definition of_Z (z : Z) : number :=
  SF2Prim (binary_normalize prec emax z 0 false).

(** The integer a number is, when it is one; [None] for NaN, the
    infinities and numbers with a fractional part. *)
Definition to_integer (x : number) : option Z :=
  match Prim2SF x with
  | S754_zero _ => Some 0
  | S754_finite s m e =>
      let n := if s then Z.neg m else Z.pos m in
      if 0 <=? e then Some (n * 2 ^ e)
      else if n mod 2 ^ (- e) =? 0 then Some (n / 2 ^ (- e))
      else None
  | S754_infinity _ | S754_nan => None
  end.

(** [Math.floor]: NaN, the infinities, both zeros and numbers that are
    already integers are returned unchanged. *)
Definition Math_floor (x : number) : number :=
  match Prim2SF x with
  | S754_finite s m e =>
      if 0 <=? e then x
      else of_Z ((if s then Z.neg m else Z.pos m) / 2 ^ (- e))
  | _ => x
  end.

(** [a > b], [a < b], [a <= b] on numbers (false when either is NaN). *)
Definition gt (a b : number) : bool := PrimFloat.ltb b a.
Definition lt (a b : number) : bool := PrimFloat.ltb a b.
Definition le (a b : number) : bool := PrimFloat.leb a b.

(** Truthiness of the value [getAttribute] returns: [null] and the empty
    string are falsy. *)
Definition truthy (v : option string) : bool :=
  match v with
  | None => false
  | Some s => if decide (s = "") then false else true
  end.

(** [s.substring(1)].  A string of the model holds its text as UTF-8
    bytes; a string of the script is a sequence of UTF-16 code units, and
    [substring(1)] drops the first unit.  That is the whole first character
    when it is written in one, two or three bytes.  A character written in
    four bytes is a surrogate pair: its high surrogate is dropped and its
    low surrogate stays, written in three bytes as any other code unit
    (an element can have such an id only if a script gave it one). *)
Fixpoint drop_bytes (n : nat) (s : string) : string :=
  match n, s with
  | S k, String _ rest => drop_bytes k rest
  | _, _ => s
  end.

Definition substring1 (s : string) : string :=
  match s with
  | EmptyString => EmptyString
  | String a rest =>
      let lead := N_of_ascii a in
      if (lead <? 192)%N then rest
      else if (lead <? 224)%N then drop_bytes 1 rest
      else if (lead <? 240)%N then drop_bytes 2 rest
      else
        match rest with
        | String _ (String b3 (String b4 rest')) =>
            String (ascii_of_N 237)
              (String (ascii_of_N (176 + N.land (N_of_ascii b3) 15))
                 (String b4 rest'))
        | _ => rest
        end
  end.

End Js.

Abbreviation number := Js.number.

(** ** The DOM store *)

(** Elements are referred to by handles; two handles are the same element
    exactly when they are equal. *)
Definition node := nat.

(** What [textContent] holds: a string, or the string conversion of a
    number assigned to it. *)
Inductive Text :=
| TextStr (s : string)
| TextNum (x : number).

(** Values of inline style properties: a literal string, or the template
    literal [translateY(${y}px)]. *)
Inductive StyleVal :=
| CssStr (s : string)
| CssTranslateY (y : number).

Record Element := mkElement {
  classList : gset string;
  attributes : gmap string string;
  textContent : Text;
  style : gmap string StyleVal;
  offsetTop : number;
  offsetHeight : number;
}.

Definition empty_element : Element :=
  mkElement ∅ ∅ (TextStr "") ∅ 0%float 0%float.

Definition with_classList (f : gset string → gset string) (e : Element) : Element :=
  mkElement (f (classList e)) (attributes e) (textContent e) (style e)
            (offsetTop e) (offsetHeight e).

Definition with_attributes (f : gmap string string → gmap string string)
    (e : Element) : Element :=
  mkElement (classList e) (f (attributes e)) (textContent e) (style e)
            (offsetTop e) (offsetHeight e).

Definition with_textContent (t : Text) (e : Element) : Element :=
  mkElement (classList e) (attributes e) t (style e)
            (offsetTop e) (offsetHeight e).

Definition with_style (f : gmap string StyleVal → gmap string StyleVal)
    (e : Element) : Element :=
  mkElement (classList e) (attributes e) (textContent e) (f (style e))
            (offsetTop e) (offsetHeight e).

(** The answers of the document to the queries the script makes.  The
    markup itself is not part of the script; these are the node lists, in
    document order, and the id table it exposes. *)
Record Document := mkDocument {
  byId : gmap string node;        (* document.getElementById *)
  documentElement : node;         (* document.documentElement *)
  body : node;                    (* document.body *)
  sel_lazy_img : list node;       (* querySelectorAll('.lazy-img') *)
  sel_fade_in_scroll : list node; (* querySelectorAll('.fade-in-scroll') *)
  sel_nav_menu_a : list node;     (* querySelectorAll('.nav-menu a') *)
  sel_stat_number : list node;    (* querySelectorAll('.stat-number') *)
  sel_a_href_hash : list node;    (* querySelectorAll('a[href^="#"]') *)
  sel_hero_img : option node;     (* querySelector('.hero-img') *)
  sel_page_loader : option node;  (* querySelector('.page-loader') *)
  sel_img : list node;            (* querySelectorAll('img') *)
}.

(** ** Instances of the classes

    The fields a constructor reads from the document and never reassigns. *)

Record LazyLoaderT := { ll_images : list node }.
Record ScrollAnimationsT := { sa_elements : list node }.
Record NavigationT := {
  navbar : option node;
  menuToggle : option node;
  navMenu : option node;
  navLinks : list node;
}.
Record StatsCounterT := { statNumbers : list node }.
Record BackToTopT := { button : option node }.
Record SmoothScrollT := { links : list node }.
Record ParallaxEffectT := { heroImg : option node }.

(** ** Event listeners *)

Inductive EventTarget :=
| OnWindow
| OnDocument
| OnNode (n : node).

(** The function objects passed to [addEventListener]; each closes over
    the instance it was created in. *)
Inductive Handler :=
| Nav_handleScroll (this : NavigationT)
| Nav_toggleMenu (this : NavigationT)
| Nav_linkClick (this : NavigationT)
| Nav_documentClick (this : NavigationT)
| Btt_handleScroll (this : BackToTopT)
| Btt_scrollToTop (this : BackToTopT)
| Smooth_handleClick (this : SmoothScrollT)
| Parallax_debounced (this : ParallaxEffectT)
| Loading_onLoad
| Img_onError (img : node).

Record Listener := mkListener {
  l_target : EventTarget;
  l_type : string;
  l_handler : Handler;
}.

(** The closure of one [updateCounter] arrow function: the element, the
    constants [target] and [increment], and the variable [current]. *)
Record CounterClosure := mkCounter {
  c_element : node;
  c_target : number;
  c_increment : number;
  c_current : number;
}.

(** A temporary [Image] whose handlers are installed and whose [src] has
    been assigned: the managed image and the source being fetched. *)
Record Preload := mkPreload {
  p_img : node;
  p_src : string;
}.

(** ** The world *)

(** The callbacks the script passes to [setTimeout]. *)
Inductive Timeout :=
| T_later (this : ParallaxEffectT)     (* the [later] closure of debounce *)
| T_fadeLoader (loader : node)
| T_removeLoader (loader : node).

Inductive LogLine :=
| Log_error (line : string)
| Log_warn (line : string)
| Log_info (line : string).

Record World := mkWorld {
  document : Document;
  dom : gmap node Element;
  scrollY : number; (* window.scrollY *)
  innerWidth : number; (* window.innerWidth *)
  innerHeight : number; (* window.innerHeight *)
  hasIntersectionObserver : bool; (* 'IntersectionObserver' in window *)
  prefersReducedMotion : bool; (* matchMedia('(prefers-reduced-motion: reduce)').matches *)
  listeners : list Listener; (* addEventListener calls, in registration order *)
  scrollTo_calls : list number; (* tops passed to window.scrollTo, latest first *)
  defaultPrevented : bool; (* of the event being dispatched *)
  preloads : list Preload; (* temporary images being fetched *)
  head_links : list string; (* hrefs of the preload links appended to the head *)
  lazy_observed : gset node; (* targets of LazyLoader's observer *)
  fade_observed : gset node; (* targets of ScrollAnimations' observer *)
  stat_observed : gset node; (* targets of StatsCounter's observer *)
  animated : gset node; (* StatsCounter's this.animated *)
  lastScrollY : number; (* Navigation's this.lastScrollY *)
  frames : list CounterClosure; (* callbacks given to requestAnimationFrame *)
  timers : list Timeout; (* pending setTimeout callbacks *)
  detached : gset node; (* elements on which remove() was called *)
  console : list LogLine; (* diagnostics, latest first *)
  started : list node; (* history: the arguments of the calls of animateCounter, in order *)
}.

Definition with_dom (f : gmap node Element → gmap node Element) (w : World) : World :=
  mkWorld (document w) (f (dom w)) (scrollY w) (innerWidth w) (innerHeight w)
    (hasIntersectionObserver w) (prefersReducedMotion w) (listeners w)
    (scrollTo_calls w) (defaultPrevented w) (preloads w) (head_links w)
    (lazy_observed w) (fade_observed w) (stat_observed w) (animated w)
    (lastScrollY w) (frames w) (timers w) (detached w) (console w) (started w).

Definition with_scrollY (v : number) (w : World) : World :=
  mkWorld (document w) (dom w) v (innerWidth w) (innerHeight w)
    (hasIntersectionObserver w) (prefersReducedMotion w) (listeners w)
    (scrollTo_calls w) (defaultPrevented w) (preloads w) (head_links w)
    (lazy_observed w) (fade_observed w) (stat_observed w) (animated w)
    (lastScrollY w) (frames w) (timers w) (detached w) (console w) (started w).

Definition with_innerWidth (v : number) (w : World) : World :=
  mkWorld (document w) (dom w) (scrollY w) v (innerHeight w)
    (hasIntersectionObserver w) (prefersReducedMotion w) (listeners w)
    (scrollTo_calls w) (defaultPrevented w) (preloads w) (head_links w)
    (lazy_observed w) (fade_observed w) (stat_observed w) (animated w)
    (lastScrollY w) (frames w) (timers w) (detached w) (console w) (started w).

Definition with_innerHeight (v : number) (w : World) : World :=
  mkWorld (document w) (dom w) (scrollY w) (innerWidth w) v
    (hasIntersectionObserver w) (prefersReducedMotion w) (listeners w)
    (scrollTo_calls w) (defaultPrevented w) (preloads w) (head_links w)
    (lazy_observed w) (fade_observed w) (stat_observed w) (animated w)
    (lastScrollY w) (frames w) (timers w) (detached w) (console w) (started w).

Definition with_listeners (f : list Listener → list Listener) (w : World) : World :=
  mkWorld (document w) (dom w) (scrollY w) (innerWidth w) (innerHeight w)
    (hasIntersectionObserver w) (prefersReducedMotion w) (f (listeners w))
    (scrollTo_calls w) (defaultPrevented w) (preloads w) (head_links w)
    (lazy_observed w) (fade_observed w) (stat_observed w) (animated w)
    (lastScrollY w) (frames w) (timers w) (detached w) (console w) (started w).

Definition with_scrollTo_calls (f : list number → list number) (w : World) : World :=
  mkWorld (document w) (dom w) (scrollY w) (innerWidth w) (innerHeight w)
    (hasIntersectionObserver w) (prefersReducedMotion w) (listeners w)
    (f (scrollTo_calls w)) (defaultPrevented w) (preloads w) (head_links w)
    (lazy_observed w) (fade_observed w) (stat_observed w) (animated w)
    (lastScrollY w) (frames w) (timers w) (detached w) (console w) (started w).

Definition with_defaultPrevented (v : bool) (w : World) : World :=
  mkWorld (document w) (dom w) (scrollY w) (innerWidth w) (innerHeight w)
    (hasIntersectionObserver w) (prefersReducedMotion w) (listeners w)
    (scrollTo_calls w) v (preloads w) (head_links w) (lazy_observed w)
    (fade_observed w) (stat_observed w) (animated w) (lastScrollY w)
    (frames w) (timers w) (detached w) (console w) (started w).

Definition with_preloads (f : list Preload → list Preload) (w : World) : World :=
  mkWorld (document w) (dom w) (scrollY w) (innerWidth w) (innerHeight w)
    (hasIntersectionObserver w) (prefersReducedMotion w) (listeners w)
    (scrollTo_calls w) (defaultPrevented w) (f (preloads w)) (head_links w)
    (lazy_observed w) (fade_observed w) (stat_observed w) (animated w)
    (lastScrollY w) (frames w) (timers w) (detached w) (console w) (started w).

Definition with_head_links (f : list string → list string) (w : World) : World :=
  mkWorld (document w) (dom w) (scrollY w) (innerWidth w) (innerHeight w)
    (hasIntersectionObserver w) (prefersReducedMotion w) (listeners w)
    (scrollTo_calls w) (defaultPrevented w) (preloads w) (f (head_links w))
    (lazy_observed w) (fade_observed w) (stat_observed w) (animated w)
    (lastScrollY w) (frames w) (timers w) (detached w) (console w) (started w).

Definition with_lazy_observed (f : gset node → gset node) (w : World) : World :=
  mkWorld (document w) (dom w) (scrollY w) (innerWidth w) (innerHeight w)
    (hasIntersectionObserver w) (prefersReducedMotion w) (listeners w)
    (scrollTo_calls w) (defaultPrevented w) (preloads w) (head_links w)
    (f (lazy_observed w)) (fade_observed w) (stat_observed w) (animated w)
    (lastScrollY w) (frames w) (timers w) (detached w) (console w) (started w).

Definition with_fade_observed (f : gset node → gset node) (w : World) : World :=
  mkWorld (document w) (dom w) (scrollY w) (innerWidth w) (innerHeight w)
    (hasIntersectionObserver w) (prefersReducedMotion w) (listeners w)
    (scrollTo_calls w) (defaultPrevented w) (preloads w) (head_links w)
    (lazy_observed w) (f (fade_observed w)) (stat_observed w) (animated w)
    (lastScrollY w) (frames w) (timers w) (detached w) (console w) (started w).

Definition with_stat_observed (f : gset node → gset node) (w : World) : World :=
  mkWorld (document w) (dom w) (scrollY w) (innerWidth w) (innerHeight w)
    (hasIntersectionObserver w) (prefersReducedMotion w) (listeners w)
    (scrollTo_calls w) (defaultPrevented w) (preloads w) (head_links w)
    (lazy_observed w) (fade_observed w) (f (stat_observed w)) (animated w)
    (lastScrollY w) (frames w) (timers w) (detached w) (console w) (started w).

Definition with_animated (f : gset node → gset node) (w : World) : World :=
  mkWorld (document w) (dom w) (scrollY w) (innerWidth w) (innerHeight w)
    (hasIntersectionObserver w) (prefersReducedMotion w) (listeners w)
    (scrollTo_calls w) (defaultPrevented w) (preloads w) (head_links w)
    (lazy_observed w) (fade_observed w) (stat_observed w) (f (animated w))
    (lastScrollY w) (frames w) (timers w) (detached w) (console w) (started w).

Definition with_lastScrollY (v : number) (w : World) : World :=
  mkWorld (document w) (dom w) (scrollY w) (innerWidth w) (innerHeight w)
    (hasIntersectionObserver w) (prefersReducedMotion w) (listeners w)
    (scrollTo_calls w) (defaultPrevented w) (preloads w) (head_links w)
    (lazy_observed w) (fade_observed w) (stat_observed w) (animated w) v
    (frames w) (timers w) (detached w) (console w) (started w).

Definition with_frames (f : list CounterClosure → list CounterClosure) (w : World) : World :=
  mkWorld (document w) (dom w) (scrollY w) (innerWidth w) (innerHeight w)
    (hasIntersectionObserver w) (prefersReducedMotion w) (listeners w)
    (scrollTo_calls w) (defaultPrevented w) (preloads w) (head_links w)
    (lazy_observed w) (fade_observed w) (stat_observed w) (animated w)
    (lastScrollY w) (f (frames w)) (timers w) (detached w) (console w)
    (started w).

Definition with_timers (f : list Timeout → list Timeout) (w : World) : World :=
  mkWorld (document w) (dom w) (scrollY w) (innerWidth w) (innerHeight w)
    (hasIntersectionObserver w) (prefersReducedMotion w) (listeners w)
    (scrollTo_calls w) (defaultPrevented w) (preloads w) (head_links w)
    (lazy_observed w) (fade_observed w) (stat_observed w) (animated w)
    (lastScrollY w) (frames w) (f (timers w)) (detached w) (console w)
    (started w).

Definition with_detached (f : gset node → gset node) (w : World) : World :=
  mkWorld (document w) (dom w) (scrollY w) (innerWidth w) (innerHeight w)
    (hasIntersectionObserver w) (prefersReducedMotion w) (listeners w)
    (scrollTo_calls w) (defaultPrevented w) (preloads w) (head_links w)
    (lazy_observed w) (fade_observed w) (stat_observed w) (animated w)
    (lastScrollY w) (frames w) (timers w) (f (detached w)) (console w)
    (started w).

Definition with_console (f : list LogLine → list LogLine) (w : World) : World :=
  mkWorld (document w) (dom w) (scrollY w) (innerWidth w) (innerHeight w)
    (hasIntersectionObserver w) (prefersReducedMotion w) (listeners w)
    (scrollTo_calls w) (defaultPrevented w) (preloads w) (head_links w)
    (lazy_observed w) (fade_observed w) (stat_observed w) (animated w)
    (lastScrollY w) (frames w) (timers w) (detached w) (f (console w))
    (started w).

Definition with_started (f : list node → list node) (w : World) : World :=
  mkWorld (document w) (dom w) (scrollY w) (innerWidth w) (innerHeight w)
    (hasIntersectionObserver w) (prefersReducedMotion w) (listeners w)
    (scrollTo_calls w) (defaultPrevented w) (preloads w) (head_links w)
    (lazy_observed w) (fade_observed w) (stat_observed w) (animated w)
    (lastScrollY w) (frames w) (timers w) (detached w) (console w)
    (f (started w)).

(** The element behind a handle. *)
Definition element (w : World) (n : node) : Element :=
  default empty_element (dom w !! n).

Definition hasClass (w : World) (n : node) (c : string) : Prop :=
  c ∈ classList (element w n).

(** ** The monad of method bodies: state, and exceptions that keep the
    state reached when they were thrown *)

Inductive exn :=
| TypeError (what : string).

Inductive result (A : Type) :=
| Ok (a : A)
| Throw (e : exn).
Arguments Ok {A} a.
Arguments Throw {A} e.

Definition M (A : Type) : Type := World → result A * World.

#[global] Instance M_ret : MRet M := λ A a w, (Ok a, w).
#[global] Instance M_bind : MBind M := λ A B f m w,
  match m w with
  | (Ok a, w') => f a w'
  | (Throw e, w') => (Throw e, w')
  end.
#[global] Instance M_throw : MThrow exn M := λ A e w, (Throw e, w).

Definition get {A} (f : World → A) : M A := λ w, (Ok (f w), w).
Definition modify (f : World → World) : M unit := λ w, (Ok tt, f w).

(** The world a computation leaves behind and whether it threw. *)
Definition exec {A} (m : M A) (w : World) : World := snd (m w).
Definition throws {A} (m : M A) (w : World) : bool :=
  match fst (m w) with Ok _ => false | Throw _ => true end.

(** Reading a property of [null] is a TypeError. *)
Definition deref (what : string) (o : option node) : M node :=
  match o with
  | Some n => mret n
  | None => mthrow (TypeError what)
  end.

(** [list.forEach(f)]: an exception in [f] ends the loop. *)
Fixpoint forEach {A} (l : list A) (f : A → M unit) : M unit :=
  match l with
  | [] => mret tt
  | x :: l' => f x ;; forEach l' f
  end.

(** *** DOM primitives *)

Definition update_element (n : node) (f : Element → Element) : M unit :=
  modify (λ w, with_dom (insert n (f (element w n))) w).

Definition classList_add (n : node) (c : string) : M unit :=
  update_element n (with_classList (λ cs, cs ∪ {[c]})).

Definition classList_remove (n : node) (c : string) : M unit :=
  update_element n (with_classList (λ cs, cs ∖ {[c]})).

Definition classList_toggle (n : node) (c : string) : M unit :=
  update_element n
    (with_classList (λ cs, if decide (c ∈ cs) then cs ∖ {[c]} else cs ∪ {[c]})).

Definition classList_contains (n : node) (c : string) : M bool :=
  get (λ w, bool_decide (c ∈ classList (element w n))).

Definition getAttribute (n : node) (a : string) : M (option string) :=
  get (λ w, attributes (element w n) !! a).

Definition setAttribute (n : node) (a v : string) : M unit :=
  update_element n (with_attributes (insert a v)).

Definition removeAttribute (n : node) (a : string) : M unit :=
  update_element n (with_attributes (delete a)).

Definition set_textContent (n : node) (t : Text) : M unit :=
  update_element n (with_textContent t).

Definition set_style (n : node) (prop : string) (v : StyleVal) : M unit :=
  update_element n (with_style (insert prop v)).

(** No element has the empty string as its id.  The table [byId] lists the
    elements by id as the script finds them when it starts; the script
    removes at most one element, the loading overlay, and only after the
    load event.  A lookup made after that removal still finds the overlay
    by its id, where the browser finds nothing; what is stated of lookups
    made after initialisation is therefore stated for ids the table does
    not hold, or for worlds in which nothing has been removed. *)
Definition getElementById (id : string) : M (option node) :=
  get (λ w, if decide (id = "") then None else byId (document w) !! id).

(** [window.scrollTo({ top, behavior: 'smooth' })]. *)
Definition window_scrollTo (top : number) : M unit :=
  modify (with_scrollTo_calls (cons top)).

(** [window.addEventListener], [document.addEventListener] and
    [element.addEventListener]: every call in the script passes a freshly
    created function, so no call is ever a duplicate of an earlier one. *)
Definition addEventListener (t : EventTarget) (type : string) (h : Handler) : M unit :=
  modify (with_listeners (λ ls, ls ++ [mkListener t type h])).

Definition preventDefault : M unit := modify (with_defaultPrevented true).

Definition console_error (line : string) : M unit :=
  modify (with_console (cons (Log_error line))).

Definition console_warn (line : string) : M unit :=
  modify (with_console (cons (Log_warn line))).

Definition console_log (line : string) : M unit :=
  modify (with_console (cons (Log_info line))).

Definition setTimeout (t : Timeout) : M unit :=
  modify (with_timers (λ ts, ts ++ [t])).

Definition requestAnimationFrame (c : CounterClosure) : M unit :=
  modify (with_frames (λ fs, fs ++ [c])).

(** ** Events *)

(** An entry of an intersection notification. *)
Record Entry := mkEntry {
  entry_target : node;
  isIntersecting : bool;
}.

(** What a listener sees of the event it is given: the target followed by
    its ancestors (empty when the target is not an element, as for a scroll
    of the document), so that [x.contains(e.target)] is membership of [x];
    and the element whose listener is running ([None] for listeners of
    the window and of the document). *)
Record Event := mkEvent {
  e_path : list node;
  e_currentTarget : option node;
}.

Definition contains (x : node) (e : Event) : bool :=
  bool_decide (x ∈ e_path e).

(** ** class LazyLoader *)

Module LazyLoader.

(** The [onload] and [onerror] callbacks of the temporary image. *)
Definition tempImg_onload (p : Preload) : M unit :=
  setAttribute (p_img p) "src" (p_src p) ;;
  classList_add (p_img p) "loaded" ;;
  removeAttribute (p_img p) "data-src".

Definition tempImg_onerror (p : Preload) : M unit :=
  console_error ("Failed to load image: " +:+ p_src p) ;;
  classList_add (p_img p) "loaded".

Definition loadImage (img : node) : M unit :=
  src ← getAttribute img "data-src";
  match src with
  | Some s =>
      if Js.truthy src
      then modify (with_preloads (λ ps, ps ++ [mkPreload img s]))
      else mret tt
  | None => mret tt
  end.

Definition loadAllImages (this : LazyLoaderT) : M unit :=
  forEach (ll_images this) loadImage.

Definition handleIntersection (entries : list Entry) : M unit :=
  forEach entries (λ entry,
    if isIntersecting entry then
      loadImage (entry_target entry) ;;
      modify (with_lazy_observed (λ s, s ∖ {[entry_target entry]}))
    else mret tt).

Definition init (this : LazyLoaderT) : M unit :=
  supported ← get hasIntersectionObserver;
  if supported : bool then
    forEach (ll_images this) (λ img,
      modify (with_lazy_observed (λ s, s ∪ {[img]})))
  else
    loadAllImages this.

Definition constructor : M LazyLoaderT :=
  images ← get (λ w, sel_lazy_img (document w));
  let this := {| ll_images := images |} in
  init this ;; mret this.

End LazyLoader.

(** ** class ScrollAnimations *)

Module ScrollAnimations.

Definition handleIntersection (entries : list Entry) : M unit :=
  forEach entries (λ entry,
    if isIntersecting entry then
      classList_add (entry_target entry) "visible"
    else mret tt).

Definition init (this : ScrollAnimationsT) : M unit :=
  supported ← get hasIntersectionObserver;
  if supported : bool then
    forEach (sa_elements this) (λ el,
      modify (with_fade_observed (λ s, s ∪ {[el]})))
  else
    forEach (sa_elements this) (λ el, classList_add el "visible").

Definition constructor : M ScrollAnimationsT :=
  elements ← get (λ w, sel_fade_in_scroll (document w));
  let this := {| sa_elements := elements |} in
  init this ;; mret this.

End ScrollAnimations.

(** ** class Navigation *)

Module Navigation.

Definition closeMenu (this : NavigationT) : M unit :=
  t ← deref "this.menuToggle" (menuToggle this);
  classList_remove t "active" ;;
  m ← deref "this.navMenu" (navMenu this);
  classList_remove m "active" ;;
  b ← get (λ w, body (document w));
  set_style b "overflow" (CssStr "").

Definition toggleMenu (this : NavigationT) : M unit :=
  t ← deref "this.menuToggle" (menuToggle this);
  classList_toggle t "active" ;;
  m ← deref "this.navMenu" (navMenu this);
  classList_toggle m "active" ;;
  m ← deref "this.navMenu" (navMenu this);
  active ← classList_contains m "active";
  b ← get (λ w, body (document w));
  if active : bool
  then set_style b "overflow" (CssStr "hidden")
  else set_style b "overflow" (CssStr "").

Definition handleScroll (this : NavigationT) : M unit :=
  currentScrollY ← get scrollY;
  (if Js.gt currentScrollY 100%float then
     n ← deref "this.navbar" (navbar this);
     classList_add n "scrolled"
   else
     n ← deref "this.navbar" (navbar this);
     classList_remove n "scrolled") ;;
  modify (with_lastScrollY currentScrollY).

(** The arrow function registered on every menu link. *)
Definition linkClick (this : NavigationT) : M unit :=
  width ← get innerWidth;
  if Js.le width 768%float then closeMenu this else mret tt.

(** The arrow function registered on the document; [&&] evaluates its
    operands left to right and stops at the first false one. *)
Definition documentClick (this : NavigationT) (e : Event) : M unit :=
  width ← get innerWidth;
  if Js.le width 768%float then
    m ← deref "this.navMenu" (navMenu this);
    if contains m e then mret tt else
    t ← deref "this.menuToggle" (menuToggle this);
    if contains t e then mret tt else
    m ← deref "this.navMenu" (navMenu this);
    active ← classList_contains m "active";
    if active : bool then closeMenu this else mret tt
  else mret tt.

Definition init (this : NavigationT) : M unit :=
  addEventListener OnWindow "scroll" (Nav_handleScroll this) ;;
  match menuToggle this with
  | Some t => addEventListener (OnNode t) "click" (Nav_toggleMenu this)
  | None => mret tt
  end ;;
  forEach (navLinks this) (λ link,
    addEventListener (OnNode link) "click" (Nav_linkClick this)) ;;
  addEventListener OnDocument "click" (Nav_documentClick this).

Definition constructor : M NavigationT :=
  nb ← getElementById "navbar";
  mt ← getElementById "menuToggle";
  nm ← getElementById "navMenu";
  ls ← get (λ w, sel_nav_menu_a (document w));
  y ← get scrollY;
  modify (with_lastScrollY y) ;;
  let this := {| navbar := nb; menuToggle := mt; navMenu := nm; navLinks := ls |} in
  init this ;; mret this.

End Navigation.

(** ** class StatsCounter

    The world's [started] is a history variable: the script has no such
    field; [animateCounter] records its argument there so that the number
    of times an element's animation was started can be stated. *)

Module StatsCounter.
Section WithParseInt.

(** The platform's [parseInt], applied to what [getAttribute] returns. *)
Variable parseInt : option string → number.

(** One call of the arrow function [updateCounter]; [c] holds the
    variables it closes over. *)
Definition updateCounter (c : CounterClosure) : M unit :=
  let current := (c_current c + c_increment c)%float in
  if Js.lt current (c_target c) then
    set_textContent (c_element c) (TextNum (Js.Math_floor current)) ;;
    requestAnimationFrame
      (mkCounter (c_element c) (c_target c) (c_increment c) current)
  else
    set_textContent (c_element c) (TextNum (c_target c)).

Definition animateCounter (element : node) : M unit :=
  modify (with_started (λ h, h ++ [element])) ;;
  attr ← getAttribute element "data-target";
  let target := parseInt attr in
  let duration := 2000%float in
  let increment := (target / (duration / 16%float))%float in
  updateCounter (mkCounter element target increment 0%float).

Definition handleIntersection (entries : list Entry) : M unit :=
  forEach entries (λ entry,
    seen ← get (λ w, bool_decide (entry_target entry ∈ animated w));
    if isIntersecting entry && negb seen then
      animateCounter (entry_target entry) ;;
      modify (with_animated (λ s, s ∪ {[entry_target entry]}))
    else mret tt).

Definition init (this : StatsCounterT) : M unit :=
  supported ← get hasIntersectionObserver;
  if supported : bool then
    forEach (statNumbers this) (λ stat,
      modify (with_stat_observed (λ s, s ∪ {[stat]})))
  else mret tt.

Definition constructor : M StatsCounterT :=
  stats ← get (λ w, sel_stat_number (document w));
  modify (with_animated (λ _, ∅)) ;;
  let this := {| statNumbers := stats |} in
  init this ;; mret this.

End WithParseInt.
End StatsCounter.

(** ** class BackToTop *)

Module BackToTop.

Definition handleScroll (this : BackToTopT) : M unit :=
  y ← get scrollY;
  if Js.gt y 500%float then
    b ← deref "this.button" (button this);
    classList_add b "visible"
  else
    b ← deref "this.button" (button this);
    classList_remove b "visible".

Definition scrollToTop (this : BackToTopT) : M unit :=
  window_scrollTo 0%float.

Definition init (this : BackToTopT) : M unit :=
  match button this with
  | None => mret tt
  | Some b =>
      addEventListener OnWindow "scroll" (Btt_handleScroll this) ;;
      addEventListener (OnNode b) "click" (Btt_scrollToTop this)
  end.

Definition constructor : M BackToTopT :=
  b ← getElementById "backToTop";
  let this := {| button := b |} in
  init this ;; mret this.

End BackToTop.

(** ** class SmoothScroll *)

Module SmoothScroll.

Definition handleClick (this : SmoothScrollT) (e : Event) : M unit :=
  link ← deref "e.currentTarget.getAttribute" (e_currentTarget e);
  href ← getAttribute link "href";
  if decide (href = Some "#") then mret tt else
  preventDefault ;;
  match href with
  | None => mthrow (TypeError "href")
  | Some h =>
      let targetId := Js.substring1 h in
      targetElement ← getElementById targetId;
      match targetElement with
      | Some t =>
          nb ← getElementById "navbar";
          n ← deref "document.getElementById('navbar')" nb;
          navbarHeight ← get (λ w, offsetHeight (element w n));
          top ← get (λ w, offsetTop (element w t));
          let targetPosition := (top - navbarHeight)%float in
          window_scrollTo targetPosition
      | None => mret tt
      end
  end.

Definition init (this : SmoothScrollT) : M unit :=
  forEach (links this) (λ link,
    addEventListener (OnNode link) "click" (Smooth_handleClick this)).

Definition constructor : M SmoothScrollT :=
  ls ← get (λ w, sel_a_href_hash (document w));
  let this := {| links := ls |} in
  init this ;; mret this.

End SmoothScroll.

(** ** function debounce and class ParallaxEffect *)

Module ParallaxEffect.

Definition is_later (t : Timeout) : bool :=
  match t with T_later _ => true | _ => false end.

(** [clearTimeout(timeout)]: the pending [later] call, if any, is
    dropped ([debounce] is called once, so there is one [timeout]). *)
Definition clearTimeout : M unit :=
  modify (with_timers (List.filter (λ t, negb (is_later t)))).

(** The arrow function handed to [debounce]. *)
Definition func (this : ParallaxEffectT) : M unit :=
  scrolled ← get scrollY;
  let parallaxSpeed := 0.5%float in
  height ← get innerHeight;
  if Js.lt scrolled height then
    hero ← deref "this.heroImg" (heroImg this);
    set_style hero "transform" (CssTranslateY (scrolled * parallaxSpeed)%float)
  else mret tt.

(** [debounce(func, 5)]: the function it returns, and the [later]
    closure run when the timer fires. *)
Definition later (this : ParallaxEffectT) : M unit :=
  clearTimeout ;; func this.

Definition executedFunction (this : ParallaxEffectT) : M unit :=
  clearTimeout ;; setTimeout (T_later this).

Definition init (this : ParallaxEffectT) : M unit :=
  match heroImg this with
  | None => mret tt
  | Some _ => addEventListener OnWindow "scroll" (Parallax_debounced this)
  end.

Definition constructor : M ParallaxEffectT :=
  hero ← get (λ w, sel_hero_img (document w));
  let this := {| heroImg := hero |} in
  init this ;; mret this.

End ParallaxEffect.

(** ** class LoadingScreen *)

Module LoadingScreen.

Definition removeLoader (loader : node) : M unit :=
  modify (with_detached (λ s, s ∪ {[loader]})).

Definition fadeLoader (loader : node) : M unit :=
  set_style loader "opacity" (CssStr "0") ;;
  setTimeout (T_removeLoader loader).

Definition onLoad : M unit :=
  b ← get (λ w, body (document w));
  classList_add b "loaded" ;;
  loader ← get (λ w, sel_page_loader (document w));
  match loader with
  | Some l => setTimeout (T_fadeLoader l)
  | None => mret tt
  end.

Definition init : M unit :=
  addEventListener OnWindow "load" Loading_onLoad.

Definition constructor : M unit := init.

End LoadingScreen.

(** ** Top-level functions *)

(** The [error] listener of an image; [this.src] is read as the [src]
    attribute, [""] when there is none. *)
Definition img_onError (img : node) : M unit :=
  set_style img "display" (CssStr "none") ;;
  src ← getAttribute img "src";
  dataSrc ← getAttribute img "data-src";
  console_warn ("Failed to load image: " +:+
    (if Js.truthy src then default "" src else default "null" dataSrc)).

Definition handleImageErrors : M unit :=
  images ← get (λ w, sel_img (document w));
  forEach images (λ img, addEventListener (OnNode img) "error" (Img_onError img)).

Definition checkReducedMotion : M unit :=
  reduce ← get prefersReducedMotion;
  if reduce : bool then
    root ← get (λ w, documentElement (document w));
    set_style root "scroll-behavior" (CssStr "auto")
  else mret tt.

Definition criticalImages : list string :=
  ["https://images.unsplash.com/photo-1532693322450-2cb5c511067d?w=1920&q=80"].

Definition preloadCriticalImages : M unit :=
  forEach criticalImages (λ src, modify (with_head_links (λ l, l ++ [src]))).

(** The listener of [DOMContentLoaded]. *)
Definition DOMContentLoaded : M unit :=
  checkReducedMotion ;;
  preloadCriticalImages ;;
  LazyLoader.constructor ;;
  ScrollAnimations.constructor ;;
  Navigation.constructor ;;
  StatsCounter.constructor ;;
  BackToTop.constructor ;;
  SmoothScroll.constructor ;;
  ParallaxEffect.constructor ;;
  LoadingScreen.constructor ;;
  handleImageErrors ;;
  console_log "🌟 Astron website initialized successfully".

(** ** The browser: delivery of events to the script *)

#[global] Instance EventTarget_eq_dec : EqDecision EventTarget.
Proof. solve_decision. Defined.

Section Browser.

Variable parseInt : option string → number.

(** The body of each function object. *)
Definition handleEvent (h : Handler) (e : Event) : M unit :=
  match h with
  | Nav_handleScroll this => Navigation.handleScroll this
  | Nav_toggleMenu this => Navigation.toggleMenu this
  | Nav_linkClick this => Navigation.linkClick this
  | Nav_documentClick this => Navigation.documentClick this e
  | Btt_handleScroll this => BackToTop.handleScroll this
  | Btt_scrollToTop this => BackToTop.scrollToTop this
  | Smooth_handleClick this => SmoothScroll.handleClick this e
  | Parallax_debounced this => ParallaxEffect.executedFunction this
  | Loading_onLoad => LoadingScreen.onLoad
  | Img_onError img => img_onError img
  end.

Definition timerBody (t : Timeout) : M unit :=
  match t with
  | T_later this => ParallaxEffect.later this
  | T_fadeLoader l => LoadingScreen.fadeLoader l
  | T_removeLoader l => LoadingScreen.removeLoader l
  end.

(** A callback is run to its end or to the exception it throws; the
    exception is reported and the browser goes on with the next callback.
    A run is the world together with the exceptions reported so far,
    latest first. *)
Definition Run := (World * list exn)%type.

Definition call (m : M unit) (r : Run) : Run :=
  match m r.1 with
  | (Ok _, w) => (w, r.2)
  | (Throw x, w) => (w, x :: r.2)
  end.

Definition callAll {A} (f : A → M unit) (l : list A) (r : Run) : Run :=
  foldl (λ r a, call (f a) r) r l.

Definition listeners_on (t : EventTarget) (type : string) (w : World) : list Listener :=
  List.filter (λ l, bool_decide (l_target l = t ∧ l_type l = type)) (listeners w).

(** Listeners of one target for one event type, in registration order. *)
Definition fire (t : EventTarget) (type : string) (e : Event) (r : Run) : Run :=
  callAll (λ l, handleEvent (l_handler l) e) (listeners_on t type r.1) r.

(** A click bubbles from the target through its ancestors to the
    document and the window. *)
Definition bubble (path : list node) (r : Run) : Run :=
  let r1 := foldl (λ r n, fire (OnNode n) "click" (mkEvent path (Some n)) r) r path in
  let r2 := fire OnDocument "click" (mkEvent path None) r1 in
  fire OnWindow "click" (mkEvent path None) r2.

Inductive BrowserEvent :=
| Scroll (y : number)                       (* the page is now scrolled to [y] *)
| Resize (width height : number)            (* the viewport changed size *)
| Click (path : list node)                  (* target first, then its ancestors *)
| Load                                      (* the window's load event *)
| ImageError (img : node)                   (* an image failed to load *)
| LazyNotification (entries : list Entry)   (* LazyLoader's observer reports *)
| FadeNotification (entries : list Entry)   (* ScrollAnimations' observer reports *)
| StatNotification (entries : list Entry)   (* StatsCounter's observer reports *)
| AnimationFrame                            (* the next paint opportunity *)
| TimerFires (i : nat)                      (* the [i]th pending timer expires *)
| PreloadEnds (i : nat) (ok : bool).        (* the [i]th temporary image loads or fails *)

Definition deliver (ev : BrowserEvent) (r : Run) : Run :=
  match ev with
  | Scroll y =>
      fire OnWindow "scroll" (mkEvent [] None) (with_scrollY y r.1, r.2)
  | Resize width height =>
      (with_innerWidth width (with_innerHeight height r.1), r.2)
  | Click path =>
      bubble path (with_defaultPrevented false r.1, r.2)
  | Load =>
      fire OnWindow "load" (mkEvent [] None) r
  | ImageError img =>
      fire (OnNode img) "error" (mkEvent [img] (Some img)) r
  | LazyNotification entries =>
      call (LazyLoader.handleIntersection entries) r
  | FadeNotification entries =>
      call (ScrollAnimations.handleIntersection entries) r
  | StatNotification entries =>
      call (StatsCounter.handleIntersection parseInt entries) r
  | AnimationFrame =>
      callAll (StatsCounter.updateCounter) (frames r.1)
              (with_frames (λ _, []) r.1, r.2)
  | TimerFires i =>
      match timers r.1 !! i with
      | Some t => call (timerBody t) (with_timers (delete i) r.1, r.2)
      | None => r
      end
  | PreloadEnds i ok =>
      match preloads r.1 !! i with
      | Some p =>
          call (if ok then LazyLoader.tempImg_onload p
                else LazyLoader.tempImg_onerror p)
               (with_preloads (delete i) r.1, r.2)
      | None => r
      end
  end.

Definition deliverAll (evs : list BrowserEvent) (r : Run) : Run :=
  foldl (λ r ev, deliver ev r) r evs.

End Browser.

(** ** What a counter shows over time *)

Section CounterTrace.

Variable parseInt : option string → number.

(** The world after the next paint opportunity. *)
Definition paint (w : World) : World := (deliver parseInt AnimationFrame (w, [])).1.

(** The pending animation steps of [el]. *)
Definition pending (el : node) (w : World) : list CounterClosure :=
  List.filter (λ c, bool_decide (c_element c = el)) (frames w).

(** The text of [el] after each of up to [fuel] paints, for as long as a
    step of its animation is pending, and the world reached. *)
Fixpoint paints (fuel : nat) (el : node) (w : World) : list Text * World :=
  match fuel, pending el w with
  | S k, _ :: _ =>
      let w' := paint w in
      let r := paints k el w' in
      (textContent (element w' el) :: r.1, r.2)
  | _, _ => ([], w)
  end.

(** Everything [el] shows from the call of [animateCounter] on. *)
Definition displayed (fuel : nat) (el : node) (w : World) : list Text * World :=
  let w0 := exec (StatsCounter.animateCounter parseInt el) w in
  let r := paints fuel el w0 in
  (textContent (element w0 el) :: r.1, r.2).

End CounterTrace.

(** The animation as the specification words it: a running total grows by
    a fixed increment; the floor of the total is shown while the total is
    below the target, and the target itself on the step that reaches it.
    The flag tells whether that last step was taken within [fuel] further
    steps. *)
Fixpoint running_total (fuel : nat) (target increment total : number)
    : list number * bool :=
  let total' := (total + increment)%float in
  if Js.lt total' target then
    match fuel with
    | O => ([Js.Math_floor total'], false)
    | S k =>
        let r := running_total k target increment total' in
        (Js.Math_floor total' :: r.1, r.2)
    end
  else ([target], true).

(** The integer a text shows, when it is the conversion of one. *)
Definition shown_integer (t : Text) : option Z :=
  match t with
  | TextNum x => Js.to_integer x
  | TextStr _ => None
  end.

Fixpoint nondecreasing (l : list Z) : Prop :=
  match l with
  | x :: (y :: _) as l' => x <= y ∧ nondecreasing l'
  | _ => True
  end.

(** ** A reference [parseInt] and a sample page *)

Module ParseInt.

Definition is_space (a : ascii) : bool :=
  existsb (Ascii.eqb a)
    (ascii_of_nat <$> [32; 9; 10; 11; 12; 13])%nat.

Fixpoint trim_start (s : string) : string :=
  match s with
  | String a r => if is_space a then trim_start r else s
  | EmptyString => s
  end.

Definition digit (a : ascii) : option Z :=
  let n := Z.of_nat (nat_of_ascii a) in
  if (48 <=? n) && (n <=? 57) then Some (n - 48)
  else if (97 <=? n) && (n <=? 122) then Some (n - 87)
  else if (65 <=? n) && (n <=? 90) then Some (n - 55)
  else None.

(** The value of the longest prefix of digits below the radix; [acc] is
    [None] until a digit has been read. *)
Fixpoint digits (radix : Z) (s : string) (acc : option Z) : option Z :=
  match s with
  | String a r =>
      match digit a with
      | Some d =>
          if d <? radix then digits radix r (Some (default 0 acc * radix + d))
          else acc
      | None => acc
      end
  | EmptyString => acc
  end.

(** [parseInt(v)] without a radix, as ECMAScript defines it, on strings of
    ASCII characters: white space is skipped, a sign and a [0x] prefix are
    read, then the longest prefix of digits; the integer read is rounded to
    the nearest number, and NaN is returned when no digit was read.  [null]
    is converted to the string ["null"] first. *)
Definition parseInt (v : option string) : number :=
  let s := trim_start (default "null" v) in
  let '(negative, s) :=
    match s with
    | String "-" r => (true, r)
    | String "+" r => (false, r)
    | _ => (false, s)
    end in
  let '(radix, s) :=
    match s with
    | String "0" (String "x" r) | String "0" (String "X" r) => (16, r)
    | _ => (10, s)
    end in
  match digits radix s None with
  | None => nan
  | Some n => if negative : bool then (- Js.of_Z n)%float else Js.of_Z n
  end.

End ParseInt.

(** A page with every element the script looks for: body 0, navbar 1, menu
    toggle 2, menu 3 holding the links 4 (to [#about]) and 5 (to [#]), the
    lazy images 6 (with a deferred source) and 7 (without one), the
    revealed section 8 with id [about], the counter 9 with target 100, the
    back-to-top control 10, the hero image 11, the root element 12 and a
    link 13 to [#missing] outside the menu. *)
Module Sample.

Definition doc : Document := {|
  byId := list_to_map
    [("navbar", 1%nat); ("menuToggle", 2%nat); ("navMenu", 3%nat);
     ("about", 8%nat); ("backToTop", 10%nat)];
  documentElement := 12%nat;
  body := 0%nat;
  sel_lazy_img := [6; 7]%nat;
  sel_fade_in_scroll := [8]%nat;
  sel_nav_menu_a := [4; 5]%nat;
  sel_stat_number := [9]%nat;
  sel_a_href_hash := [4; 5; 13]%nat;
  sel_hero_img := Some 11%nat;
  sel_page_loader := None;
  sel_img := [6; 7; 11]%nat;
|}.

Definition tagged (attrs : list (string * string)) : Element :=
  with_attributes (λ _, list_to_map attrs) empty_element.

Definition elements : gmap node Element := list_to_map
  [(0, empty_element); (1, empty_element); (2, empty_element);
   (3, empty_element);
   (4, tagged [("href", "#about")]); (5, tagged [("href", "#")]);
   (6, tagged [("data-src", "moon.jpg")]); (7, empty_element);
   (8, tagged [("id", "about")]); (9, tagged [("data-target", "100")]);
   (10, empty_element); (11, empty_element); (12, empty_element);
   (13, tagged [("href", "#missing")])]%nat.

(** The page before the script runs, in a viewport of the given width,
    with or without [IntersectionObserver]. *)
Definition page (d : Document) (width : number) (observer : bool) : World := {|
  document := d;
  dom := elements;
  scrollY := 0%float;
  innerWidth := width;
  innerHeight := 800%float;
  hasIntersectionObserver := observer;
  prefersReducedMotion := false;
  listeners := [];
  scrollTo_calls := [];
  defaultPrevented := false;
  preloads := [];
  head_links := [];
  lazy_observed := ∅;
  fade_observed := ∅;
  stat_observed := ∅;
  animated := ∅;
  lastScrollY := 0%float;
  frames := [];
  timers := [];
  detached := ∅;
  console := [];
  started := [];
|}.

(** The same document without the element of a given id. *)
Definition without (id : string) (d : Document) : Document :=
  mkDocument (delete id (byId d)) (documentElement d) (body d)
    (sel_lazy_img d) (sel_fade_in_scroll d) (sel_nav_menu_a d)
    (sel_stat_number d) (sel_a_href_hash d) (sel_hero_img d)
    (sel_page_loader d) (sel_img d).

(** The page once the listener of [DOMContentLoaded] has run. *)
Definition ready (d : Document) (width : number) (observer : bool) : World :=
  exec DOMContentLoaded (page d width observer).

(** The sample page in a narrow viewport, a browser with the observer,
    after initialisation; its Navigation instance; and the same page once
    section 8 has been revealed. *)
Definition mobile : World := ready doc 500%float true.

Definition nav : NavigationT :=
  {| navbar := Some 1%nat; menuToggle := Some 2%nat; navMenu := Some 3%nat;
     navLinks := [4; 5]%nat |}.

Definition revealed : World :=
  (deliverAll ParseInt.parseInt [FadeNotification [mkEntry 8%nat true]] (mobile, [])).1.

End Sample.

(** ** Statements about method bodies *)

(** [preserves P m]: [P] survives a run of [m], whether [m] returns or
    throws. *)
Definition preserves {A} (P : World → Prop) (m : M A) : Prop :=
  ∀ w, P w → P (m w).2.

(** [wp m Q w]: from [w], [m] returns without throwing, in a world and
    with a value that satisfy [Q]. *)
Definition wp {A} (m : M A) (Q : A → World → Prop) (w : World) : Prop :=
  match m w with
  | (Ok a, w') => Q a w'
  | (Throw _, _) => False
  end.

(** ** Notions used in the statements *)

(** The world after [StatsCounter.handleIntersection] has looked at one
    entry. *)
Definition visit (parseInt : option string → number) (entry : Entry) (w : World) : World :=
  if isIntersecting entry && negb (bool_decide (entry_target entry ∈ animated w))
  then with_animated (λ s, s ∪ {[entry_target entry]})
         (exec (StatsCounter.animateCounter parseInt (entry_target entry)) w)
  else w.

(** An entry reports that [el] has become visible; an event of the browser
    carries such an entry to the StatsCounter. *)
Definition reports (el : node) (entry : Entry) : bool :=
  isIntersecting entry && bool_decide (entry_target entry = el).

Definition announces (el : node) (ev : BrowserEvent) : bool :=
  match ev with
  | StatNotification entries => existsb (reports el) entries
  | _ => false
  end.

(** The history of started animations is in step with [this.animated]. *)
Definition started_once (w : World) : Prop :=
  NoDup (started w) ∧ ∀ x, x ∈ started w → x ∈ animated w.

(** From [w] to [w'], exactly the elements of [E] were announced: they
    are in the animated set from then on, and those that were not in it
    before had their animation started. *)
Definition tracks (E : node → bool) (w w' : World) : Prop :=
  (∀ el, el ∈ animated w' ↔ el ∈ animated w ∨ E el = true) ∧
  (∀ el, el ∈ started w' ↔ (el ∈ started w ∨ ((el ∉ animated w) ∧ E el = true))) ∧
  (started_once w → started_once w').

(** No listener of the page is the scroll handler of a back-to-top
    control that is the element [el]. *)
Definition not_back_to_top (el : node) (ls : list Listener) : Prop :=
  ∀ l this, l ∈ ls → l_handler l = Btt_handleScroll this → button this ≠ Some el.

(** The listeners of the window for scroll events. *)
Definition scroll_listeners (w : World) : list Listener :=
  listeners_on OnWindow "scroll" w.

(** From [w] to [w'] the document and the platform are the same and the
    scroll listeners [L] were added. *)
Definition adds (L : list Listener) (w w' : World) : Prop :=
  document w' = document w ∧
  hasIntersectionObserver w' = hasIntersectionObserver w ∧
  scroll_listeners w' = scroll_listeners w ++ L.

(** The scroll listeners the script registers: one for each class that
    follows the scroll position and finds its element. *)
Definition own_scroll_listeners (d : Document) : list Listener :=
  [mkListener OnWindow "scroll"
     (Nav_handleScroll
        {| navbar := byId d !! "navbar"; menuToggle := byId d !! "menuToggle";
           navMenu := byId d !! "navMenu"; navLinks := sel_nav_menu_a d |})] ++
  match byId d !! "backToTop" with
  | Some b => [mkListener OnWindow "scroll" (Btt_handleScroll {| button := Some b |})]
  | None => []
  end ++
  match sel_hero_img d with
  | Some h => [mkListener OnWindow "scroll" (Parallax_debounced {| heroImg := Some h |})]
  | None => []
  end.

(** [document.body.style.overflow]. *)
Definition body_overflow (w : World) : option StyleVal :=
  style (element w (body (document w))) !! "overflow".

(** The page has the listeners [ls] and [el] carries "visible". *)
Definition flagged (ls : list Listener) (el : node) (w : World) : Prop :=
  listeners w = ls ∧ "visible" ∈ classList (element w el).

(** The page has the listeners [ls] and is scrolled to [y]; and the
    navbar [n] carries "scrolled" exactly when [y > 100]. *)
Definition scrolled_to (ls : list Listener) (y : number) (w : World) : Prop :=
  listeners w = ls ∧ scrollY w = y.

Definition flag_in_step (ls : list Listener) (n : node) (y : number) (w : World) : Prop :=
  scrolled_to ls y w ∧
  ("scrolled" ∈ classList (element w n) ↔ Js.gt y 100%float = true).

(** The fetches [loadImage] starts for the images of a list: one for each
    image with a non-empty deferred source. *)
Definition fetches (w : World) (imgs : list node) : list Preload :=
  omap (λ img,
    match attributes (element w img) !! "data-src" with
    | Some s => if Js.truthy (Some s) then Some (mkPreload img s) else None
    | None => None
    end) imgs.

(** The same, as a test on a given list of listeners. *)
Definition is_back_to_top_of (el : node) (l : Listener) : bool :=
  match l_handler l with
  | Btt_handleScroll this => bool_decide (button this = Some el)
  | _ => false
  end.

Definition is_scroll (ev : BrowserEvent) : bool :=
  match ev with Scroll _ => true | _ => false end.

(** ** Notions used in the further properties *)

(** From [w] to [w'] the document is the same and the listeners [L] were
    registered, in this order. *)
Definition registers (L : list Listener) (w w' : World) : Prop :=
  document w' = document w ∧ listeners w' = listeners w ++ L.

(** The Navigation instance the script creates on a document. *)
Definition nav_of (d : Document) : NavigationT :=
  {| navbar := byId d !! "navbar"; menuToggle := byId d !! "menuToggle";
     navMenu := byId d !! "navMenu"; navLinks := sel_nav_menu_a d |}.

(** Every listener the script registers, in registration order. *)
Definition own_listeners (d : Document) : list Listener :=
  [mkListener OnWindow "scroll" (Nav_handleScroll (nav_of d))] ++
  match byId d !! "menuToggle" with
  | Some t => [mkListener (OnNode t) "click" (Nav_toggleMenu (nav_of d))]
  | None => []
  end ++
  ((λ link, mkListener (OnNode link) "click" (Nav_linkClick (nav_of d)))
     <$> sel_nav_menu_a d) ++
  [mkListener OnDocument "click" (Nav_documentClick (nav_of d))] ++
  match byId d !! "backToTop" with
  | Some b =>
      [mkListener OnWindow "scroll" (Btt_handleScroll {| button := Some b |});
       mkListener (OnNode b) "click" (Btt_scrollToTop {| button := Some b |})]
  | None => []
  end ++
  ((λ link, mkListener (OnNode link) "click"
              (Smooth_handleClick {| links := sel_a_href_hash d |}))
     <$> sel_a_href_hash d) ++
  match sel_hero_img d with
  | Some h => [mkListener OnWindow "scroll" (Parallax_debounced {| heroImg := Some h |})]
  | None => []
  end ++
  [mkListener OnWindow "load" Loading_onLoad] ++
  ((λ img, mkListener (OnNode img) "error" (Img_onError img)) <$> sel_img d).

(** The page has the listeners [ls] and is scrolled to [y]; and the
    back-to-top control [b] carries "visible" exactly when [y > 500]. *)
Definition button_in_step (ls : list Listener) (b : node) (y : number) (w : World) : Prop :=
  scrolled_to ls y w ∧
  ("visible" ∈ classList (element w b) ↔ Js.gt y 500%float = true).

(** An event carries, to the ScrollAnimations, an entry that reports [el]
    as intersecting. *)
Definition reveals (el : node) (ev : BrowserEvent) : bool :=
  match ev with
  | FadeNotification entries => existsb (reports el) entries
  | _ => false
  end.

(** Events that neither scroll the page nor reveal [el]. *)
Definition leaves_alone (el : node) (ev : BrowserEvent) : bool :=
  negb (is_scroll ev) && negb (reveals el ev).

(** The targets a notification reports as intersecting, in order. *)
Definition intersecting (entries : list Entry) : list node :=
  entry_target <$> List.filter isIntersecting entries.

Definition is_click (ev : BrowserEvent) : bool :=
  match ev with Click _ => true | _ => false end.

(** The pending calls of the debounced parallax function. *)
Definition pending_later (w : World) : list Timeout :=
  List.filter ParallaxEffect.is_later (timers w).

(** The page has the listeners [ls] and at most one such call pending. *)
Definition debounced (ls : list Listener) (w : World) : Prop :=
  listeners w = ls ∧ (length (pending_later w) ≤ 1)%nat.

(** What a burst of scrolls leaves alone: the listeners, the height of
    the viewport and the transform of the hero image [h]. *)
Definition parallax_at_rest (ls : list Listener) (h : node) (height : number)
    (s : option StyleVal) (w : World) : Prop :=
  listeners w = ls ∧ innerHeight w = height ∧
  style (element w h) !! "transform" = s.

(** The timers are none, or the one pending call of [this]; and the
    latter. *)
Definition idle_or_armed (this : ParallaxEffectT) (ts : list Timeout) : Prop :=
  ts = [] ∨ ts = [T_later this].

Definition armed (this : ParallaxEffectT) (ts : list Timeout) : Prop :=
  ts = [T_later this].

(** During a burst of scrolls: the page is at rest, scrolled to [y], and
    its timers are as [T] says. *)
Definition scrolling (ls : list Listener) (h : node) (height : number)
    (s : option StyleVal) (y : number) (T : list Timeout → Prop) (w : World) : Prop :=
  parallax_at_rest ls h height s w ∧ scrollY w = y ∧ T (timers w).

(** The toggle and the menu are flagged "active" together, and the body's
    scroll is locked exactly while they are. *)
Definition menu_consistent (t m : node) (w : World) : Prop :=
  (hasClass w t "active" ↔ hasClass w m "active") ∧
  (body_overflow w = Some (CssStr "hidden") ↔ hasClass w m "active").

(** The same on a page with the document [d] and the listeners [ls]. *)
Definition menu_page (ls : list Listener) (d : Document) (t m : node) (w : World) : Prop :=
  listeners w = ls ∧ document w = d ∧ menu_consistent t m w.

(** The page has the listeners [ls] and the image [img] is not displayed. *)
Definition hidden (ls : list Listener) (img : node) (w : World) : Prop :=
  listeners w = ls ∧ style (element w img) !! "display" = Some (CssStr "none").

(** The page has the listeners [ls], and since the calls [before] the
    window was asked to scroll to the top. *)
Definition asked_for_top (ls : list Listener) (before : list number) (w : World) : Prop :=
  listeners w = ls ∧ ∃ later, scrollTo_calls w = later ++ 0%float :: before.

(** The page has the listeners [ls] and the calls of [window.scrollTo]
    are [before]. *)
Definition calls_are (ls : list Listener) (before : list number) (w : World) : Prop :=
  listeners w = ls ∧ scrollTo_calls w = before.

(** The page has the listeners [ls], and the menu [m] is open exactly when
    [A] holds. *)
Definition menu_open_iff (ls : list Listener) (m : node) (A : Prop) (w : World) : Prop :=
  listeners w = ls ∧ (hasClass w m "active" ↔ A).

(** The sample document with a loading overlay, element 14. *)
Definition loader_doc : Document :=
  mkDocument (byId Sample.doc) (documentElement Sample.doc) (body Sample.doc)
    (sel_lazy_img Sample.doc) (sel_fade_in_scroll Sample.doc)
    (sel_nav_menu_a Sample.doc) (sel_stat_number Sample.doc)
    (sel_a_href_hash Sample.doc) (sel_hero_img Sample.doc)
    (Some 14%nat) (sel_img Sample.doc).

(** The sample page before the script runs, and with one fetch pending. *)
Definition pristine : World := Sample.page Sample.doc 500%float true.

Definition fetching : World :=
  with_preloads (λ _, [mkPreload 6%nat "moon.jpg"]) pristine.

(** The page has the listeners [ls] and the document [d], in a viewport at
    most 768 wide; and moreover its menu is closed. *)
Definition narrow (ls : list Listener) (d : Document) (w : World) : Prop :=
  listeners w = ls ∧ document w = d ∧ Js.le (innerWidth w) 768%float = true.

Definition menu_closed (ls : list Listener) (d : Document) (t m : node) (w : World) : Prop :=
  narrow ls d w ∧
  ¬ hasClass w m "active" ∧ ¬ hasClass w t "active" ∧
  body_overflow w = Some (CssStr "").

(** The page has the listeners [ls] and the link carries the href [h]; the
    page has the listeners [ls] and the default action is suppressed. *)
Definition href_is (ls : list Listener) (link : node) (h : string) (w : World) : Prop :=
  listeners w = ls ∧ attributes (element w link) !! "href" = Some h.

Definition suppressed (ls : list Listener) (w : World) : Prop :=
  listeners w = ls ∧ defaultPrevented w = true.

(** The page has the listeners [ls], the preload hints [hints] in its head,
    and the root element has the scroll behaviour [s]. *)
Definition settled (ls : list Listener) (hints : list string) (root : node)
    (s : option StyleVal) (w : World) : Prop :=
  listeners w = ls ∧ head_links w = hints ∧
  style (element w root) !! "scroll-behavior" = s.

(** ** Notions used for clicks through the whole page *)

(** Three variants of the sample document: the back-to-top control 10 is
    also a reveal-on-scroll element; the menu toggle 2 is also a menu link;
    the link 5, whose href is "#", is also the back-to-top control. *)
Definition revealed_control_doc : Document :=
  mkDocument (byId Sample.doc) (documentElement Sample.doc) (body Sample.doc)
    (sel_lazy_img Sample.doc) [8; 10]%nat
    (sel_nav_menu_a Sample.doc) (sel_stat_number Sample.doc)
    (sel_a_href_hash Sample.doc) (sel_hero_img Sample.doc)
    (sel_page_loader Sample.doc) (sel_img Sample.doc).

Definition toggle_link_doc : Document :=
  mkDocument (byId Sample.doc) (documentElement Sample.doc) (body Sample.doc)
    (sel_lazy_img Sample.doc) (sel_fade_in_scroll Sample.doc)
    [2; 4; 5]%nat (sel_stat_number Sample.doc)
    (sel_a_href_hash Sample.doc) (sel_hero_img Sample.doc)
    (sel_page_loader Sample.doc) (sel_img Sample.doc).

Definition anchor_control_doc : Document :=
  mkDocument (<["backToTop" := 5%nat]> (byId Sample.doc))
    (documentElement Sample.doc) (body Sample.doc)
    (sel_lazy_img Sample.doc) (sel_fade_in_scroll Sample.doc)
    (sel_nav_menu_a Sample.doc) (sel_stat_number Sample.doc)
    (sel_a_href_hash Sample.doc) (sel_hero_img Sample.doc)
    (sel_page_loader Sample.doc) (sel_img Sample.doc).

(** [e.currentTarget] for a listener of the target [t]. *)
Definition currentTarget_of (t : EventTarget) : option node :=
  match t with
  | OnNode n => Some n
  | OnWindow | OnDocument => None
  end.

(** The page has the listeners [ls] and the document [d], and the menu [m]
    is open exactly when [b] is true; and moreover the body's overflow is
    what [toggleMenu] and [closeMenu] leave in that state. *)
Definition menu_known (ls : list Listener) (d : Document) (m : node) (b : bool)
    (w : World) : Prop :=
  listeners w = ls ∧ document w = d ∧ (hasClass w m "active" ↔ b = true).

Definition menu_in_state (ls : list Listener) (d : Document) (m : node) (b : bool)
    (w : World) : Prop :=
  menu_known ls d m b w ∧
  body_overflow w = Some (CssStr (if b then "hidden" else "")).

(** The same in a viewport wider than 768, with the overflow [o]. *)
Definition menu_wide (ls : list Listener) (d : Document) (m : node) (b : bool)
    (o : option StyleVal) (w : World) : Prop :=
  menu_known ls d m b w ∧
  Js.le (innerWidth w) 768%float = false ∧ body_overflow w = o.

(** The page has the listeners [ls] and the document [d], the link carries
    the href [h] and the calls of [window.scrollTo] are [calls]; and
    moreover no default action is suppressed. *)
Definition anchor_at_rest (ls : list Listener) (d : Document) (link : node)
    (h : string) (calls : list number) (w : World) : Prop :=
  listeners w = ls ∧ document w = d ∧
  attributes (element w link) !! "href" = Some h ∧
  scrollTo_calls w = calls.

Definition anchor_idle (ls : list Listener) (d : Document) (link : node)
    (h : string) (calls : list number) (w : World) : Prop :=
  anchor_at_rest ls d link h calls w ∧ defaultPrevented w = false.

(** The same, and the target [t] and the navbar [n] have the offset [top]
    and the height [height]. *)
Definition anchor_ready (ls : list Listener) (d : Document) (link : node)
    (h : string) (t n : node) (top height : number) (calls : list number)
    (w : World) : Prop :=
  anchor_at_rest ls d link h calls w ∧
  offsetTop (element w t) = top ∧ offsetHeight (element w n) = height.

(** * Theorems *)

(** Decides a closed statement by evaluation. *)
Ltac by_computation :=
  lazymatch goal with
  | |- ?P => apply (bool_decide_unpack P); vm_compute; exact I
  end.

(** ** Numbers, by example *)

Example js_comparisons :
  Js.gt 101%float 100%float = true ∧ Js.gt 100.5%float 100%float = true ∧
  Js.gt 100%float 100%float = false ∧ Js.gt nan 100%float = false ∧
  Js.le 500%float 768%float = true ∧ Js.le 768%float 768%float = true ∧
  Js.le 1200%float 768%float = false ∧ Js.le nan 768%float = false.
Proof. repeat split; by vm_compute. Qed.

Example js_floor :
  Js.Math_floor 3.75%float = 3%float ∧ Js.Math_floor 0.5%float = 0%float ∧
  Js.Math_floor (-0.5)%float = (-1)%float ∧ Js.Math_floor 100%float = 100%float ∧
  Js.Math_floor nan = nan ∧ Js.Math_floor infinity = infinity ∧
  Js.to_integer 99%float = Some 99 ∧ Js.to_integer 0.5%float = None.
Proof. repeat split; by vm_compute. Qed.

Example substring_examples :
  Js.substring1 "#about" = "about" ∧ Js.substring1 "#" = "" ∧
  Js.substring1 "" = "" ∧ Js.substring1 "éabout" = "about" ∧
  Js.substring1 "€1" = "1" ∧
  Js.substring1 "😀x" = String (ascii_of_N 237) (String (ascii_of_N 184)
                          (String (ascii_of_N 128) "x")).
Proof. repeat split; by vm_compute. Qed.

Example parseInt_examples :
  ParseInt.parseInt (Some "100") = 100%float ∧
  ParseInt.parseInt (Some "  42px") = 42%float ∧
  ParseInt.parseInt (Some "-7") = (-7)%float ∧
  ParseInt.parseInt (Some "0x1F") = 31%float ∧
  ParseInt.parseInt (Some "abc") = nan ∧
  ParseInt.parseInt (Some "") = nan ∧
  ParseInt.parseInt None = nan.
Proof. repeat split; by vm_compute. Qed.

(** ** Projections of an updated world *)

Lemma element_insert n e w m :
  element (with_dom (insert n e) w) m = if decide (n = m) then e else element w m.
Proof.
  unfold element; simpl. case_decide as Hnm.
  - subst. by rewrite lookup_insert_eq.
  - by rewrite lookup_insert_ne.
Qed.

Lemma element_frames f w m : element (with_frames f w) m = element w m.
Proof. done. Qed.

Lemma element_lastScrollY v w m :
  element (with_lastScrollY v w) m = element w m.
Proof. done. Qed.

(** ** C1: the counter animation *)

Section CounterFacts.

Variable parseInt : option string → number.

Lemma running_total_more k n target inc total l :
  running_total k target inc total = (l, true) →
  running_total (k + n) target inc total = (l, true).
Proof.
  revert total l. induction k as [|k IH]; intros total l; simpl.
  - destruct (Js.lt (total + inc)%float target) eqn:Hlt; [discriminate|].
    intros [= <-]. destruct n; simpl; by rewrite Hlt.
  - destruct (Js.lt (total + inc)%float target) eqn:Hlt; [|done].
    destruct (running_total k target inc (total + inc)%float) as [l' b] eqn:Hk.
    simpl. intros [= <- ->]. by rewrite (IH _ _ Hk).
Qed.

Lemma updateCounter_run c w :
  StatsCounter.updateCounter c w =
  let total' := (c_current c + c_increment c)%float in
  (Ok tt,
   if Js.lt total' (c_target c) then
     with_frames (λ fs, fs ++ [mkCounter (c_element c) (c_target c) (c_increment c) total'])
       (with_dom (insert (c_element c)
          (with_textContent (TextNum (Js.Math_floor total')) (element w (c_element c)))) w)
   else
     with_dom (insert (c_element c)
       (with_textContent (TextNum (c_target c)) (element w (c_element c)))) w).
Proof.
  unfold StatsCounter.updateCounter; cbv zeta. by destruct (Js.lt _ _).
Qed.

(** A step of another element's animation leaves the text of [el] and
    its pending steps alone. *)
Lemma updateCounter_other el c w :
  c_element c ≠ el →
  let w' := exec (StatsCounter.updateCounter c) w in
  textContent (element w' el) = textContent (element w el) ∧
  pending el w' = pending el w.
Proof.
  intros Hne. cbv zeta. unfold exec. rewrite updateCounter_run. cbn [snd].
  destruct (Js.lt _ _).
  - rewrite element_frames, element_insert, decide_False by done. split; [done|].
    unfold pending; simpl. rewrite List.filter_app; simpl.
    rewrite bool_decide_false by done. by rewrite app_nil_r.
  - by rewrite element_insert, decide_False.
Qed.

(** A step of the animation of [el]. *)
Lemma updateCounter_effect c w :
  let w' := exec (StatsCounter.updateCounter c) w in
  let total' := (c_current c + c_increment c)%float in
  if Js.lt total' (c_target c) then
    textContent (element w' (c_element c)) = TextNum (Js.Math_floor total') ∧
    pending (c_element c) w' =
      pending (c_element c) w ++
      [mkCounter (c_element c) (c_target c) (c_increment c) total']
  else
    textContent (element w' (c_element c)) = TextNum (c_target c) ∧
    pending (c_element c) w' = pending (c_element c) w.
Proof.
  cbv zeta. unfold exec. rewrite updateCounter_run. cbn [snd].
  destruct (Js.lt _ _).
  - rewrite element_frames, element_insert, decide_True by done. split; [done|].
    unfold pending; simpl. rewrite List.filter_app; simpl.
    by rewrite bool_decide_true.
  - by rewrite element_insert, decide_True.
Qed.

Lemma call_updateCounter c (r : Run) :
  (call (StatsCounter.updateCounter c) r).1 = exec (StatsCounter.updateCounter c) r.1.
Proof.
  unfold call, exec. by destruct (StatsCounter.updateCounter c r.1) as [[[]|x] w'].
Qed.

(** The callbacks of one paint, when none of them belongs to [el]. *)
Lemma callAll_others el (fs : list CounterClosure) (r : Run) :
  List.filter (λ c, bool_decide (c_element c = el)) fs = [] →
  let r' := callAll StatsCounter.updateCounter fs r in
  textContent (element r'.1 el) = textContent (element r.1 el) ∧
  pending el r'.1 = pending el r.1.
Proof.
  unfold callAll. revert r. induction fs as [|c fs IH]; intros r Hfs; simpl; [done|].
  simpl in Hfs. case_bool_decide as Hc; [done|].
  destruct (IH (call (StatsCounter.updateCounter c) r) Hfs) as [Ht Hp].
  rewrite Ht, Hp, call_updateCounter.
  apply (updateCounter_other el c r.1 Hc).
Qed.

(** The callbacks of one paint, when exactly one of them belongs to [el]:
    the text and the pending steps of [el] are those its own step leaves. *)
Lemma callAll_mine (fs : list CounterClosure) c (r : Run) :
  List.filter (λ c', bool_decide (c_element c' = c_element c)) fs = [c] →
  pending (c_element c) r.1 = [] →
  let r' := callAll StatsCounter.updateCounter fs r in
  let total' := (c_current c + c_increment c)%float in
  if Js.lt total' (c_target c) then
    textContent (element r'.1 (c_element c)) = TextNum (Js.Math_floor total') ∧
    pending (c_element c) r'.1 =
      [mkCounter (c_element c) (c_target c) (c_increment c) total']
  else
    textContent (element r'.1 (c_element c)) = TextNum (c_target c) ∧
    pending (c_element c) r'.1 = [].
Proof.
  unfold callAll. revert r. induction fs as [|c0 fs IH]; intros r Hfs Hp; [done|].
  simpl in Hfs. simpl. case_bool_decide as Hc.
  - injection Hfs as -> Hrest.
    destruct (callAll_others (c_element c) fs
                (call (StatsCounter.updateCounter c) r) Hrest) as [Ht Hq].
    unfold callAll in Ht, Hq. rewrite Ht, Hq, call_updateCounter.
    pose proof (updateCounter_effect c r.1) as He. cbv zeta in He.
    rewrite Hp in He. exact He.
  - apply IH; [done|]. rewrite call_updateCounter.
    destruct (updateCounter_other (c_element c) c0 r.1 Hc) as [_ ->]. done.
Qed.

(** One paint while a step of [el] is pending. *)
Lemma paint_mine c w :
  pending (c_element c) w = [c] →
  let w' := paint parseInt w in
  let total' := (c_current c + c_increment c)%float in
  if Js.lt total' (c_target c) then
    textContent (element w' (c_element c)) = TextNum (Js.Math_floor total') ∧
    pending (c_element c) w' =
      [mkCounter (c_element c) (c_target c) (c_increment c) total']
  else
    textContent (element w' (c_element c)) = TextNum (c_target c) ∧
    pending (c_element c) w' = [].
Proof.
  intros Hp. unfold paint, deliver.
  apply (callAll_mine (frames w) c (with_frames (λ _, []) w, [])); done.
Qed.

(** The texts shown after a call of [updateCounter] and the paints that
    follow are the running total of the specification. *)
Lemma paints_running_total fuel c w :
  pending (c_element c) w = [] →
  let w' := exec (StatsCounter.updateCounter c) w in
  let r := paints parseInt fuel (c_element c) w' in
  let s := running_total fuel (c_target c) (c_increment c) (c_current c) in
  textContent (element w' (c_element c)) :: r.1 = map TextNum s.1 ∧
  (s.2 = true → pending (c_element c) r.2 = []).
Proof.
  intros Hp. cbv zeta.
  pose proof (updateCounter_effect c w) as H. cbv zeta in H. rewrite Hp in H.
  revert H. generalize (exec (StatsCounter.updateCounter c) w). clear w Hp.
  revert c. induction fuel as [|k IH]; intros c w H; simpl.
  - destruct (Js.lt _ _); destruct H as [-> H]; simpl; [done|].
    by destruct (pending _ _).
  - destruct (Js.lt _ _); destruct H as [-> H]; simpl.
    + rewrite H.
      set (c' := mkCounter _ _ _ _) in *.
      pose proof (paint_mine c' w H) as H'. cbv zeta in H'.
      destruct (IH c' (paint parseInt w) H') as [Hl Hfin].
      simpl in Hl, Hfin. by rewrite Hl.
    + by rewrite H.
Qed.

Lemma displayed_running_total fuel el w :
  pending el w = [] →
  let target := parseInt (attributes (element w el) !! "data-target") in
  let r := displayed parseInt fuel el w in
  let s := running_total fuel target (target / (2000 / 16))%float 0%float in
  r.1 = map TextNum s.1 ∧ (s.2 = true → pending el r.2 = []).
Proof.
  intros Hf. cbv zeta.
  exact (paints_running_total fuel
           (mkCounter el (parseInt (attributes (element w el) !! "data-target")) _ 0%float)
           (with_started (λ h, h ++ [el]) w) Hf).
Qed.

End CounterFacts.

(** The animation towards 100, computed: 126 values, the first shown by
    [animateCounter] itself and one more at each of 125 paints. *)
Lemma running_total_100 :
  running_total 125 100%float (100 / (2000 / 16))%float 0%float =
  (Js.of_Z <$> [0; 1; 2; 3; 4; 4; 5; 6; 7; 7; 8; 9; 10; 11; 12; 12; 13; 14; 15;
     16; 16; 17; 18; 19; 20; 20; 21; 22; 23; 24; 24; 25; 26; 27; 28; 28; 29;
     30; 31; 32; 32; 33; 34; 35; 36; 36; 37; 38; 39; 39; 40; 41; 42; 43; 43;
     44; 45; 46; 47; 47; 48; 49; 50; 51; 51; 52; 53; 54; 55; 55; 56; 57; 58;
     59; 59; 60; 61; 62; 63; 63; 64; 65; 66; 67; 67; 68; 69; 70; 71; 71; 72;
     73; 74; 75; 75; 76; 77; 78; 79; 79; 80; 81; 82; 83; 83; 84; 85; 86; 87;
     87; 88; 89; 90; 91; 91; 92; 93; 94; 95; 95; 96; 97; 98; 99; 99; 100],
   true).
Proof. vm_compute. reflexivity. Qed.

(** C1. For a counter whose target reads as 100 and whose animation is
    not already running, whatever else the page holds and whatever other
    counters are being animated: the texts it shows are those of the
    running total with increment [100 / (2000 / 16)], floored while below
    the target and the target itself on the step that reaches it; the
    animation is over after 125 paints; the values shown never decrease,
    never exceed 100, and the last one is 100. *)
Theorem counter_animation_to_100 parseInt (w : World) (el : node) (fuel : nat) :
  pending el w = [] →
  parseInt (attributes (element w el) !! "data-target") = 100%float →
  (125 ≤ fuel)%nat →
  let r := displayed parseInt fuel el w in
  r.1 = map TextNum
          (running_total fuel 100%float (100 / (2000 / 16))%float 0%float).1 ∧
  pending el r.2 = [] ∧
  last r.1 = Some (TextNum 100%float) ∧
  ∃ zs : list Z,
    mapM shown_integer r.1 = Some zs ∧
    nondecreasing zs ∧ Forall (λ z, z <= 100) zs ∧ last zs = Some 100.
Proof.
  intros Hf Ht Hfuel.
  destruct (displayed_running_total parseInt fuel el w Hf) as [Hl Hfin].
  cbv zeta in Hl, Hfin. rewrite Ht in Hl, Hfin.
  assert (Hrun := running_total_more 125 (fuel - 125) _ _ _ _ running_total_100).
  replace (125 + (fuel - 125))%nat with fuel in Hrun by lia.
  rewrite Hrun in Hl, Hfin. cbv zeta. rewrite Hrun, Hl.
  split; [done|]. split; [by apply Hfin|].
  split; [by vm_compute|].
  eexists. split; [vm_compute; reflexivity|].
  split; [|split; [|reflexivity]].
  - simpl. repeat (split; [lia|]). done.
  - repeat (constructor; [lia|]). constructor.
Qed.

(** ** Rules for [preserves] and [wp] *)

Section Rules.

Context {A B : Type}.
Implicit Types (P : World → Prop) (m : M A) (k : A → M B).

Lemma preserves_ret P (a : A) : preserves P (mret a).
Proof. by intros w H. Qed.

Lemma preserves_throw P (x : exn) : preserves P (mthrow x : M A).
Proof. by intros w H. Qed.

Lemma preserves_get P (f : World → A) : preserves P (get f).
Proof. by intros w H. Qed.

Lemma preserves_bind P m k :
  preserves P m → (∀ a, preserves P (k a)) → preserves P (m ≫= k).
Proof.
  intros Hm Hk w H. specialize (Hm w H). unfold mbind, M_bind.
  destruct (m w) as [[a|x] w']; simpl in *; [by apply Hk|done].
Qed.

Lemma wp_ret (Q : A → World → Prop) a w : Q a w → wp (mret a) Q w.
Proof. done. Qed.

Lemma wp_get (Q : A → World → Prop) (f : World → A) w : Q (f w) w → wp (get f) Q w.
Proof. done. Qed.

Lemma wp_bind m k (Q : B → World → Prop) w :
  wp m (λ a, wp (k a) Q) w → wp (m ≫= k) Q w.
Proof.
  unfold wp, mbind, M_bind. by destruct (m w) as [[a|x] w'].
Qed.

Lemma wp_mono m (Q Q' : A → World → Prop) w :
  (∀ a w', Q a w' → Q' a w') → wp m Q w → wp m Q' w.
Proof. unfold wp. intros HQ. destruct (m w) as [[a|x] w']; [apply HQ|done]. Qed.

(** What [wp] says about the run. *)
Lemma wp_exec m (Q : A → World → Prop) w :
  wp m Q w → ∃ a, m w = (Ok a, exec m w) ∧ Q a (exec m w).
Proof.
  unfold wp, exec. destruct (m w) as [[a|x] w']; [|done]. by exists a.
Qed.

End Rules.

Lemma preserves_modify P (f : World → World) :
  (∀ w, P w → P (f w)) → preserves P (modify f).
Proof. intros Hf w H. by apply Hf. Qed.

Lemma preserves_deref P what o : preserves P (deref what o).
Proof. by destruct o; intros w H. Qed.

Lemma preserves_deref_bind {B} P what o (k : node → M B) :
  (∀ n, o = Some n → preserves P (k n)) → preserves P (deref what o ≫= k).
Proof.
  intros Hk. destruct o as [n|]; [|by intros w H].
  intros w H. by apply (Hk n).
Qed.

Lemma preserves_forEach {A} P (l : list A) (f : A → M unit) :
  (∀ x, preserves P (f x)) → preserves P (forEach l f).
Proof.
  intros Hf. induction l as [|x l IH]; simpl.
  - apply preserves_ret.
  - apply preserves_bind; [apply Hf|by intros _].
Qed.

Lemma wp_modify (Q : unit → World → Prop) (f : World → World) w :
  Q tt (f w) → wp (modify f) Q w.
Proof. done. Qed.

(** A loop whose body keeps an invariant returns in a world that
    satisfies it. *)
Lemma wp_forEach {A} (I : World → Prop) (l : list A) (f : A → M unit) w :
  (∀ x w', x ∈ l → I w' → wp (f x) (λ _, I) w') →
  I w → wp (forEach l f) (λ _, I) w.
Proof.
  revert w. induction l as [|x l IH]; intros w Hf HI; simpl; [done|].
  apply wp_bind. eapply wp_mono; [|apply Hf; [left|done]].
  intros ? w' HI'. apply IH; [|done]. intros y w'' Hy. apply Hf. by right.
Qed.

(** ** Invariants of the page *)

Ltac unfold_script :=
  unfold handleEvent, timerBody,
    Navigation.handleScroll, Navigation.toggleMenu, Navigation.linkClick,
    Navigation.documentClick, Navigation.closeMenu,
    BackToTop.handleScroll, BackToTop.scrollToTop, SmoothScroll.handleClick,
    ParallaxEffect.executedFunction, ParallaxEffect.later, ParallaxEffect.func,
    ParallaxEffect.clearTimeout, LoadingScreen.onLoad, LoadingScreen.fadeLoader,
    LoadingScreen.removeLoader, img_onError,
    LazyLoader.handleIntersection, LazyLoader.loadImage,
    LazyLoader.tempImg_onload, LazyLoader.tempImg_onerror,
    ScrollAnimations.handleIntersection,
    StatsCounter.handleIntersection, StatsCounter.animateCounter,
    StatsCounter.updateCounter,
    classList_add, classList_remove, classList_toggle, classList_contains,
    getAttribute, setAttribute, removeAttribute, set_textContent, set_style,
    getElementById, window_scrollTo, preventDefault, console_error,
    console_warn, setTimeout, requestAnimationFrame, update_element;
  cbv zeta.

(** Splits [preserves P body] along the structure of the body; [leaf]
    proves that each assignment keeps [P]. *)
Ltac preserves_body leaf :=
  repeat first
    [ apply preserves_ret
    | apply preserves_throw
    | apply preserves_get
    | apply preserves_deref
    | apply preserves_deref_bind; intros ? ?
    | apply preserves_bind; [|intros ?]
    | apply preserves_forEach; intros ?
    | apply preserves_modify; intros ? ?; leaf
    | match goal with
      | |- preserves _ (if ?b then _ else _) => destruct b
      | |- preserves _ (match ?o with _ => _ end) => destruct o
      end ].

Section PageInvariant.

Variable parseInt : option string → number.
Variable P : World → Prop.

Lemma call_preserves (m : M unit) (r : Run) :
  preserves P m → P r.1 → P (call m r).1.
Proof.
  intros Hm H. specialize (Hm _ H). unfold call.
  by destruct (m r.1) as [[[]|x] w'].
Qed.

Lemma callAll_preserves {A} (f : A → M unit) (l : list A) (r : Run) :
  (∀ a, a ∈ l → preserves P (f a)) → P r.1 → P (callAll f l r).1.
Proof.
  unfold callAll. revert r. induction l as [|a l IH]; intros r Hf H; simpl; [done|].
  apply IH; [intros b Hb; apply Hf; by right|].
  apply call_preserves; [apply Hf; by left|done].
Qed.

(** The listeners the page has, here fixed: no method called after
    initialisation registers one. *)
Variable ls : list Listener.
Hypothesis P_listeners : ∀ w, P w → listeners w = ls.

Lemma fire_preserves t type e (r : Run) :
  (∀ l, l ∈ ls → preserves P (handleEvent (l_handler l) e)) →
  P r.1 → P (fire t type e r).1.
Proof.
  intros Hh H. unfold fire. apply callAll_preserves; [|done].
  intros l Hl. apply Hh. unfold listeners_on in Hl.
  rewrite (P_listeners _ H) in Hl.
  apply list_elem_of_In, filter_In in Hl. apply list_elem_of_In, Hl.
Qed.

Hypothesis handlers_ok :
  ∀ l e, l ∈ ls → preserves P (handleEvent (l_handler l) e).
Hypothesis timers_ok : ∀ t, preserves P (timerBody t).
Hypothesis lazy_ok : ∀ es, preserves P (LazyLoader.handleIntersection es).
Hypothesis fade_ok : ∀ es, preserves P (ScrollAnimations.handleIntersection es).
Hypothesis frame_ok : ∀ c, preserves P (StatsCounter.updateCounter c).
Hypothesis onload_ok : ∀ p, preserves P (LazyLoader.tempImg_onload p).
Hypothesis onerror_ok : ∀ p, preserves P (LazyLoader.tempImg_onerror p).

(** What the browser itself changes between callbacks. *)
Hypothesis resized_ok :
  ∀ x y w, P w → P (with_innerWidth x (with_innerHeight y w)).
Hypothesis dispatch_ok : ∀ w, P w → P (with_defaultPrevented false w).
Hypothesis frames_ok : ∀ w, P w → P (with_frames (λ _, []) w).
Hypothesis timer_ok : ∀ i w, P w → P (with_timers (delete i) w).
Hypothesis preload_ok : ∀ i w, P w → P (with_preloads (delete i) w).

Lemma bubble_preserves path (r : Run) : P r.1 → P (bubble path r).1.
Proof.
  intros H. unfold bubble.
  do 2 (apply fire_preserves; [intros; by apply handlers_ok|]).
  generalize path at 1. intros path'.
  revert r H. induction path as [|n p IH]; intros r H; simpl; [done|].
  apply IH. apply fire_preserves; [intros; by apply handlers_ok|done].
Qed.

(** Every event but a scroll and a notification of the StatsCounter's
    observer. *)
Lemma deliver_preserves_rest ev (r : Run) :
  is_scroll ev = false → (∀ es, ev ≠ StatNotification es) →
  P r.1 → P (deliver parseInt ev r).1.
Proof.
  intros Hsc Hev H. destruct ev; simpl.
  - done.
  - by apply resized_ok.
  - apply bubble_preserves. by apply dispatch_ok.
  - apply fire_preserves; [intros; by apply handlers_ok|done].
  - apply fire_preserves; [intros; by apply handlers_ok|done].
  - by apply call_preserves.
  - by apply call_preserves.
  - by destruct (Hev entries).
  - apply callAll_preserves; [done|by apply frames_ok].
  - destruct (timers r.1 !! i); [|done].
    apply call_preserves; [done|by apply timer_ok].
  - destruct (preloads r.1 !! i); [|done].
    apply call_preserves; [by destruct ok|by apply preload_ok].
Qed.

Lemma deliver_preserves_scroll y (r : Run) :
  (∀ y w, P w → P (with_scrollY y w)) →
  P r.1 → P (deliver parseInt (Scroll y) r).1.
Proof.
  intros Hy H. apply fire_preserves; [intros; by apply handlers_ok|by apply Hy].
Qed.

Lemma deliver_preserves_stat es (r : Run) :
  (∀ es, preserves P (StatsCounter.handleIntersection parseInt es)) →
  P r.1 → P (deliver parseInt (StatNotification es) r).1.
Proof. intros Hes H. by apply call_preserves. Qed.

Hypothesis scrolled_ok : ∀ y w, P w → P (with_scrollY y w).

(** Every event but a notification of the StatsCounter's observer. *)
Lemma deliver_preserves_other ev (r : Run) :
  (∀ es, ev ≠ StatNotification es) → P r.1 → P (deliver parseInt ev r).1.
Proof.
  intros Hev H. destruct (is_scroll ev) eqn:Hsc.
  - destruct ev; try done. by apply deliver_preserves_scroll.
  - by apply deliver_preserves_rest.
Qed.

Hypothesis stat_ok : ∀ es, preserves P (StatsCounter.handleIntersection parseInt es).

Lemma deliver_preserves ev (r : Run) : P r.1 → P (deliver parseInt ev r).1.
Proof.
  intros H. destruct ev; try (by apply deliver_preserves_other).
  by apply deliver_preserves_stat.
Qed.

Lemma deliverAll_preserves evs (r : Run) : P r.1 → P (deliverAll parseInt evs r).1.
Proof.
  unfold deliverAll. revert r. induction evs as [|ev evs IH]; intros r H; simpl; [done|].
  apply IH. by apply deliver_preserves.
Qed.

End PageInvariant.

(** ** C5: a counter is started at most once *)

Section StartedOnce.

Variable parseInt : option string → number.

Lemma animateCounter_run el w :
  ∃ w', StatsCounter.animateCounter parseInt el w = (Ok tt, w') ∧
        started w' = started w ++ [el] ∧ animated w' = animated w ∧
        listeners w' = listeners w.
Proof.
  unfold StatsCounter.animateCounter, StatsCounter.updateCounter; cbv zeta.
  unfold mbind, M_bind, modify, getAttribute, get; simpl.
  destruct (Js.lt _ _); simpl; eauto.
Qed.

Lemma handleIntersection_cons entry entries w :
  StatsCounter.handleIntersection parseInt (entry :: entries) w =
  StatsCounter.handleIntersection parseInt entries (visit parseInt entry w).
Proof.
  unfold StatsCounter.handleIntersection, visit; simpl.
  unfold mbind at 1, M_bind at 1. unfold mbind at 1, M_bind at 1. simpl.
  destruct (isIntersecting entry && _); [|done].
  destruct (animateCounter_run (entry_target entry) w) as (w' & Hrun & _).
  unfold mbind at 1, M_bind at 1. unfold exec. by rewrite Hrun.
Qed.

Lemma handleIntersection_returns entries w :
  ∃ w', StatsCounter.handleIntersection parseInt entries w = (Ok tt, w').
Proof.
  revert w. induction entries as [|e es IH]; intros w.
  - by eexists.
  - rewrite handleIntersection_cons. apply IH.
Qed.

Lemma tracks_refl w : tracks (λ _, false) w w.
Proof.
  split; [|split; [|done]]; intros el; (split; [by left|]).
  - by intros [?|?].
  - by intros [?|[? ?]].
Qed.

Lemma tracks_same w w' :
  started w' = started w → animated w' = animated w → tracks (λ _, false) w w'.
Proof.
  intros Hs Ha. unfold tracks, started_once. rewrite Hs, Ha. apply tracks_refl.
Qed.

Lemma tracks_trans E1 E2 w1 w2 w3 :
  tracks E1 w1 w2 → tracks E2 w2 w3 → tracks (λ el, E1 el || E2 el) w1 w3.
Proof.
  intros (Ha1 & Hs1 & Hi1) (Ha2 & Hs2 & Hi2). split; [|split; [|tauto]].
  - intros el. rewrite Ha2, Ha1, orb_true_iff. tauto.
  - intros el. rewrite Hs2, Hs1, Ha1, orb_true_iff.
    destruct (E1 el), (E2 el); intuition congruence.
Qed.

Lemma visit_tracks entry w :
  tracks (λ el, reports el entry) w (visit parseInt entry w).
Proof.
  unfold visit, reports.
  destruct (animateCounter_run (entry_target entry) w) as (w' & Hrun & Hs & Ha & _).
  unfold exec. rewrite Hrun; simpl.
  destruct (isIntersecting entry); simpl.
  - case_bool_decide as Hin; simpl.
    + split; [|split; [|done]]; intros el; case_bool_decide;
        intuition congruence.
    + split; [|split].
      * intros el. simpl. rewrite Ha, elem_of_union, elem_of_singleton.
        case_bool_decide; intuition congruence.
      * intros el. simpl. rewrite Hs, elem_of_app, list_elem_of_singleton.
        case_bool_decide; intuition congruence.
      * intros [Hnd Hsub]. split; simpl.
        -- rewrite Hs. apply NoDup_app. split; [done|]. split; [|apply NoDup_singleton].
           intros x Hx ->%list_elem_of_singleton. by apply Hin, Hsub.
        -- intros x. rewrite Hs, Ha, elem_of_app, list_elem_of_singleton.
           set_solver.
  - split; [|split; [|done]]; intuition congruence.
Qed.

Lemma handleIntersection_tracks entries w :
  tracks (λ el, existsb (reports el) entries) w
         (exec (StatsCounter.handleIntersection parseInt entries) w).
Proof.
  revert w. induction entries as [|e es IH]; intros w.
  - apply tracks_refl.
  - unfold exec. rewrite handleIntersection_cons.
    apply (tracks_trans _ _ _ _ _ (visit_tracks e w) (IH _)).
Qed.

(** Nothing but the StatsCounter's own callback touches the history or
    the animated set. *)
Lemma deliver_other_started ev (r : Run) :
  (∀ es, ev ≠ StatNotification es) →
  let w' := (deliver parseInt ev r).1 in
  started w' = started r.1 ∧ animated w' = animated r.1.
Proof.
  intros Hev.
  pose (P := λ w', listeners w' = listeners r.1 ∧
                   started w' = started r.1 ∧ animated w' = animated r.1).
  enough (P (deliver parseInt ev r).1) as (_ & ? & ?) by done.
  apply (deliver_preserves_other parseInt P (listeners r.1)); try done;
    try (by intros; subst P; simpl in *; intuition);
    intros; subst P; unfold_script; preserves_body ltac:(by simpl in *).
Qed.

Lemma deliver_tracks ev (r : Run) :
  tracks (λ el, announces el ev) r.1 (deliver parseInt ev r).1.
Proof.
  destruct ev as [y|x y|path| |img|es|es|es| |i|i ok];
    try (match goal with
         | |- tracks _ _ (deliver _ ?ev _).1 =>
             destruct (deliver_other_started ev r) as [Hs Ha]; [done|];
             apply (tracks_same _ _ Hs Ha)
         end).
  simpl. unfold call.
  destruct (handleIntersection_returns es r.1) as [w' Hw'].
  pose proof (handleIntersection_tracks es r.1) as Ht.
  unfold exec in Ht. rewrite Hw' in *. apply Ht.
Qed.

Lemma deliverAll_tracks evs (r : Run) :
  tracks (λ el, existsb (announces el) evs) r.1 (deliverAll parseInt evs r).1.
Proof.
  unfold deliverAll. revert r. induction evs as [|ev evs IH]; intros r.
  - apply tracks_refl.
  - simpl. apply (tracks_trans _ _ _ _ _ (deliver_tracks ev r) (IH _)).
Qed.

End StartedOnce.

(** C5. Whatever events the browser delivers, and in whatever order, no
    element occurs twice in the history of started animations; every
    started element is in [this.animated]; and an element that was not in
    that set has been started exactly when some notification reported it
    as intersecting. *)
Theorem counter_started_at_most_once parseInt (w : World) (evs : list BrowserEvent) :
  NoDup (started w) →
  (∀ x, x ∈ started w → x ∈ animated w) →
  let w' := (deliverAll parseInt evs (w, [])).1 in
  NoDup (started w') ∧
  (∀ x, x ∈ started w' → x ∈ animated w') ∧
  (∀ el, el ∉ animated w →
     (el ∈ started w' ↔ existsb (announces el) evs = true)).
Proof.
  intros Hnd Hsub.
  destruct (deliverAll_tracks parseInt evs (w, [])) as (Ha & Hs & Hi); simpl in *.
  destruct (Hi (conj Hnd Hsub)) as [Hnd' Hsub'].
  split; [done|]. split; [done|].
  intros el Hel. rewrite Hs. split; [|by right].
  intros [Hin|[_ ?]]; [|done]. destruct Hel. by apply Hsub.
Qed.

(** ** C6: the reveal flag stays *)

(** An assignment to the DOM keeps a class of [el] when it is to another
    element or keeps that class. *)
Ltac flag_leaf :=
  cbv beta in *;
  match goal with
  | H : _ ∧ _ |- _ ∧ _ =>
      let Hl := fresh in let Hv := fresh in
      destruct H as [Hl Hv]; split; [exact Hl|];
      first
        [ exact Hv
        | rewrite element_insert; case_decide;
          [subst; simpl; repeat case_decide; set_solver | exact Hv] ]
  end.

Section RevealFlag.

Variable parseInt : option string → number.
Variable el : node.
Variable ls : list Listener.

Local Abbreviation revealed := (flagged ls el).

Lemma fade_handleIntersection_revealed es :
  preserves revealed (ScrollAnimations.handleIntersection es).
Proof. unfold flagged. unfold_script. preserves_body flag_leaf. Qed.

Lemma backToTop_handleScroll_revealed this :
  button this ≠ Some el → preserves revealed (BackToTop.handleScroll this).
Proof.
  intros Hne. unfold flagged. unfold_script.
  preserves_body ltac:(
    cbv beta in *;
    match goal with
    | H : _ ∧ _ |- _ ∧ _ =>
        destruct H as [? ?]; split; [done|];
        rewrite element_insert; case_decide; [congruence|done]
    end).
Qed.

Lemma handlers_revealed l e :
  not_back_to_top el ls → l ∈ ls → preserves revealed (handleEvent (l_handler l) e).
Proof.
  intros Hnot Hl. destruct (l_handler l) eqn:Hh;
    try (unfold flagged; unfold_script; by preserves_body flag_leaf).
  apply backToTop_handleScroll_revealed. by apply (Hnot l).
Qed.

Lemma deliverAll_revealed evs (r : Run) :
  not_back_to_top el ls → revealed r.1 → revealed (deliverAll parseInt evs r).1.
Proof.
  intros Hnot. apply (deliverAll_preserves parseInt revealed ls);
    try (by intros; apply handlers_revealed);
    try (unfold flagged; by intros; simpl in *; intuition);
    intros; unfold flagged; unfold_script; preserves_body flag_leaf.
Qed.

Lemma fade_notifications_revealed (batches : list (list Entry)) (r : Run) :
  revealed r.1 → revealed (deliverAll parseInt (FadeNotification <$> batches) r).1.
Proof.
  unfold deliverAll. revert r. induction batches as [|es bs IH]; intros r H; [done|].
  simpl. apply IH. apply call_preserves; [|done].
  apply fade_handleIntersection_revealed.
Qed.

End RevealFlag.

Lemma not_back_to_top_test el ls :
  forallb (λ l, negb (is_back_to_top_of el l)) ls = true → not_back_to_top el ls.
Proof.
  intros Hall l this Hl Hh.
  apply forallb_forall with (x := l) in Hall; [|by apply list_elem_of_In].
  unfold is_back_to_top_of in Hall. rewrite Hh in Hall.
  apply negb_true_iff, bool_decide_eq_false in Hall. exact Hall.
Qed.

(** A notification that reports [el] as intersecting leaves it with the
    flag. *)
Lemma fade_entry_adds_flag (entries : list Entry) (el : node) (w : World) :
  mkEntry el true ∈ entries →
  "visible" ∈ classList (element (exec (ScrollAnimations.handleIntersection entries) w) el).
Proof.
  revert w. induction entries as [|e es IH]; intros w Hin.
  - by apply elem_of_nil in Hin.
  - assert (Hstep : exec (ScrollAnimations.handleIntersection (e :: es)) w =
      exec (ScrollAnimations.handleIntersection es)
        (exec (ScrollAnimations.handleIntersection [e]) w)).
    { unfold ScrollAnimations.handleIntersection, exec; simpl.
      unfold mbind, M_bind. by destruct (isIntersecting e). }
    rewrite Hstep. apply elem_of_cons in Hin as [<-|Hin]; [|by apply IH].
    apply (fade_handleIntersection_revealed el (listeners w) es
             (exec (ScrollAnimations.handleIntersection [mkEntry el true]) w)).
    split; [done|].
    unfold ScrollAnimations.handleIntersection, exec; simpl.
    rewrite element_insert. case_decide; [simpl; set_solver|done].
Qed.

(** C6. Once an element carries the "visible" flag, it carries it after
    any sequence of notifications of the ScrollAnimations observer,
    whatever they report and for whatever targets; and it carries it after
    any sequence of events of the page at all, provided the element is not
    also the back-to-top control, whose handler clears a flag of the same
    name. *)
Theorem visible_flag_persists parseInt (w : World) (el : node) :
  "visible" ∈ classList (element w el) →
  (∀ batches : list (list Entry),
     "visible" ∈ classList
       (element (deliverAll parseInt (FadeNotification <$> batches) (w, [])).1 el)) ∧
  (not_back_to_top el (listeners w) →
   ∀ evs : list BrowserEvent,
     "visible" ∈ classList (element (deliverAll parseInt evs (w, [])).1 el)).
Proof.
  intros Hv. split.
  - intros batches.
    by apply (fade_notifications_revealed parseInt el (listeners w) batches (w, [])).
  - intros Hnot evs.
    by apply (deliverAll_revealed parseInt el (listeners w) evs (w, [])).
Qed.

(** ** C7: the navbar's "scrolled" flag *)

Lemma nav_handleScroll_run this w :
  Navigation.handleScroll this w =
  match navbar this with
  | Some n =>
      (Ok tt,
       with_lastScrollY (scrollY w)
         (with_dom
            (insert n
               (with_classList
                  (λ cs, if Js.gt (scrollY w) 100%float
                         then cs ∪ {["scrolled"]} else cs ∖ {["scrolled"]})
                  (element w n))) w))
  | None => (Throw (TypeError "this.navbar"), w)
  end.
Proof.
  unfold Navigation.handleScroll, mbind, M_bind, get; simpl.
  by destruct (Js.gt (scrollY w) 100%float), (navbar this).
Qed.

(** An assignment keeps the navbar's flag in step when it does not touch
    the class "scrolled" of the navbar. *)
Ltac in_step_leaf :=
  cbv beta in *;
  match goal with
  | H : (_ ∧ _) ∧ _ |- _ =>
      destruct H as [[? ?] ?]; split; [done|];
      first [ done
            | rewrite element_insert; case_decide;
              [subst; simpl; repeat case_decide; set_solver | done] ]
  end.

Section ScrolledFlag.

Variable parseInt : option string → number.
Variable n : node.
Variable ls : list Listener.
Variable y : number.

Local Abbreviation at_y := (scrolled_to ls y).
Local Abbreviation in_step := (flag_in_step ls n y).

Lemma handlers_at_y h e : preserves at_y (handleEvent h e).
Proof.
  unfold scrolled_to. destruct h; unfold_script; preserves_body ltac:(by simpl in *).
Qed.

Lemma nav_handleScroll_in_step this :
  navbar this = Some n → ∀ w, at_y w → in_step (Navigation.handleScroll this w).2.
Proof.
  intros Hn w [Hl Hy]. rewrite nav_handleScroll_run, Hn. cbn [snd].
  split; [done|].
  rewrite element_lastScrollY, element_insert, decide_True by done.
  cbn [classList with_classList]. rewrite Hy.
  destruct (Js.gt y 100%float); set_solver.
Qed.

Lemma handlers_in_step h e : preserves in_step (handleEvent h e).
Proof.
  destruct h as [this| | | | | | | | |];
    [|unfold flag_in_step, scrolled_to; unfold_script;
      by preserves_body in_step_leaf..].
  intros w [Hat Hq]. simpl. destruct (navbar this) as [m|] eqn:Hm.
  - destruct (decide (m = n)) as [->|Hne].
    + by apply nav_handleScroll_in_step.
    + rewrite nav_handleScroll_run, Hm. cbn [snd]. split; [done|].
      by rewrite element_lastScrollY, element_insert, decide_False.
  - by rewrite nav_handleScroll_run, Hm.
Qed.

Lemma callAll_establishes {A} (f : A → M unit) (l : list A) (a0 : A) (r : Run) :
  a0 ∈ l →
  (∀ a, preserves at_y (f a)) →
  (∀ a, preserves in_step (f a)) →
  (∀ w, at_y w → in_step (f a0 w).2) →
  at_y r.1 → in_step (callAll f l r).1.
Proof.
  intros Hin Hat Hstep Hest. unfold callAll. revert r.
  induction l as [|a l IH]; intros r H; [by apply elem_of_nil in Hin|].
  simpl. apply elem_of_cons in Hin as [<-|Hin].
  - apply (callAll_preserves in_step f l); [done|].
    unfold call. specialize (Hest _ H). by destruct (f a0 r.1) as [[[]|x] w'].
  - apply IH; [done|]. by apply call_preserves.
Qed.

Lemma deliver_scroll_in_step this (r : Run) :
  mkListener OnWindow "scroll" (Nav_handleScroll this) ∈ ls →
  navbar this = Some n →
  listeners r.1 = ls →
  in_step (deliver parseInt (Scroll y) r).1.
Proof.
  intros Hin Hn Hl. simpl. unfold fire.
  apply (callAll_establishes _ _ (mkListener OnWindow "scroll" (Nav_handleScroll this))).
  - unfold listeners_on; simpl. rewrite Hl.
    apply list_elem_of_In, filter_In. split; [by apply list_elem_of_In|done].
  - intros l. apply handlers_at_y.
  - intros l. apply handlers_in_step.
  - intros w. by apply nav_handleScroll_in_step.
  - done.
Qed.

Lemma deliverAll_in_step evs (r : Run) :
  forallb (λ ev, negb (is_scroll ev)) evs = true →
  in_step r.1 → in_step (deliverAll parseInt evs r).1.
Proof.
  unfold deliverAll. revert r. induction evs as [|ev evs IH]; intros r Hevs H; [done|].
  simpl in *. apply andb_true_iff in Hevs as [Hev Hevs]. apply IH; [done|].
  apply negb_true_iff in Hev.
  assert (Hl : ∀ w, in_step w → listeners w = ls) by (by intros w [[? ?] ?]).
  destruct ev as [?|? ?|?| |?|?|?|es| |?|?]; try done;
    lazymatch goal with
    | |- _ (deliver _ (StatNotification _) _).1 =>
        apply (deliver_preserves_stat parseInt in_step); [|done];
        intros; unfold flag_in_step, scrolled_to; unfold_script; preserves_body in_step_leaf
    | |- _ =>
        apply (deliver_preserves_rest parseInt in_step ls Hl); try done;
        try (by intros; apply handlers_in_step);
        try (unfold flag_in_step, scrolled_to; by intros; simpl in *; intuition);
        intros; unfold flag_in_step, scrolled_to; unfold_script; preserves_body in_step_leaf
    end.
Qed.

End ScrolledFlag.

Lemma deliverAll_listeners parseInt evs (r : Run) :
  listeners (deliverAll parseInt evs r).1 = listeners r.1.
Proof.
  apply (deliverAll_preserves parseInt (λ w, listeners w = listeners r.1) (listeners r.1));
    try done; intros; unfold_script; preserves_body ltac:(by simpl in *).
Qed.

Lemma deliverAll_app parseInt evs1 evs2 (r : Run) :
  deliverAll parseInt (evs1 ++ evs2) r =
  deliverAll parseInt evs2 (deliverAll parseInt evs1 r).
Proof. apply foldl_app. Qed.

(** After any history, a scroll to [y] and then events that are not
    scrolls, the flag is there exactly when [y > 100]. *)
Lemma navbar_flag_after_scroll parseInt (w : World) this n evs y evs' :
  mkListener OnWindow "scroll" (Nav_handleScroll this) ∈ listeners w →
  navbar this = Some n →
  forallb (λ ev, negb (is_scroll ev)) evs' = true →
  "scrolled" ∈ classList
     (element (deliverAll parseInt (evs ++ Scroll y :: evs') (w, [])).1 n)
  ↔ Js.gt y 100%float = true.
Proof.
  intros Hin Hn Hevs'.
  rewrite deliverAll_app. change (Scroll y :: evs') with ([Scroll y] ++ evs').
  rewrite deliverAll_app.
  set (r := deliverAll parseInt evs (w, [])).
  apply (deliverAll_in_step parseInt n (listeners w) y evs' _ Hevs').
  apply (deliver_scroll_in_step parseInt n (listeners w) y this r Hin Hn).
  apply deliverAll_listeners.
Qed.

(** C7. On a page whose Navigation has a navbar: after any events, a
    scroll to [y] and further events that are not scrolls, the navbar
    carries "scrolled" exactly when [y > 100]; so a scroll above 100 sets
    the flag and a following scroll to 100 or below clears it. *)
Theorem navbar_scrolled_iff_above_100 parseInt (w : World) this n :
  mkListener OnWindow "scroll" (Nav_handleScroll this) ∈ listeners w →
  navbar this = Some n →
  let flag_after evs :=
    "scrolled" ∈ classList (element (deliverAll parseInt evs (w, [])).1 n) in
  (∀ evs y evs',
     forallb (λ ev, negb (is_scroll ev)) evs' = true →
     (flag_after (evs ++ Scroll y :: evs') ↔ Js.gt y 100%float = true)) ∧
  (∀ evs y1 y2,
     Js.gt y1 100%float = true → Js.gt y2 100%float = false →
     flag_after (evs ++ [Scroll y1]) ∧
     ¬ flag_after (evs ++ [Scroll y1; Scroll y2])).
Proof.
  intros Hin Hn flag_after. split.
  - intros evs y evs' Hevs'. by apply (navbar_flag_after_scroll parseInt w this).
  - intros evs y1 y2 H1 H2. split.
    + by apply (navbar_flag_after_scroll parseInt w this n evs y1 []).
    + change [Scroll y1; Scroll y2] with ([Scroll y1] ++ [Scroll y2]).
      rewrite app_assoc. subst flag_after. cbv beta.
      rewrite (navbar_flag_after_scroll parseInt w this n _ y2 []); [|done..].
      by rewrite H2.
Qed.

(** ** C8: the listeners of the mobile menu *)

Section MobileMenu.

Variable this : NavigationT.
Variables t m : node.
Hypothesis toggle_is : menuToggle this = Some t.
Hypothesis menu_is : navMenu this = Some m.
Hypothesis distinct : t ≠ m.

Lemma toggleMenu_run w :
  let flip := with_classList
    (λ cs, if decide ("active" ∈ cs) then cs ∖ {["active"]} else cs ∪ {["active"]}) in
  let w1 := with_dom (insert t (flip (element w t))) w in
  let w2 := with_dom (insert m (flip (element w1 m))) w1 in
  let b := body (document w) in
  let lock := if bool_decide ("active" ∈ classList (element w2 m))
              then CssStr "hidden" else CssStr "" in
  Navigation.toggleMenu this w =
  (Ok tt, with_dom (insert b (with_style (insert "overflow" lock) (element w2 b))) w2).
Proof.
  cbv zeta. unfold Navigation.toggleMenu. rewrite toggle_is, menu_is.
  unfold mbind, M_bind; simpl.
  by destruct (bool_decide _).
Qed.

Lemma closeMenu_run w :
  let drop := with_classList (λ cs, cs ∖ {["active"]}) in
  let w1 := with_dom (insert t (drop (element w t))) w in
  let w2 := with_dom (insert m (drop (element w1 m))) w1 in
  let b := body (document w) in
  Navigation.closeMenu this w =
  (Ok tt, with_dom (insert b (with_style (insert "overflow" (CssStr "")) (element w2 b))) w2).
Proof.
  cbv zeta. unfold Navigation.closeMenu. by rewrite toggle_is, menu_is.
Qed.

Lemma classList_after_style b f w n :
  classList (element (with_dom (insert b (with_style f (element w b))) w) n) =
  classList (element w n).
Proof. rewrite element_insert. by case_decide; subst. Qed.

Lemma toggleMenu_menu w :
  let w' := exec (Navigation.toggleMenu this) w in
  throws (Navigation.toggleMenu this) w = false ∧
  (hasClass w' m "active" ↔ ¬ hasClass w m "active") ∧
  body_overflow w' =
    Some (if bool_decide ("active" ∈ classList (element w m))
          then CssStr "" else CssStr "hidden").
Proof.
  cbv zeta. unfold exec, throws. rewrite toggleMenu_run. cbn [fst snd].
  split; [done|].
  assert (Hm : classList (element
      (with_dom (insert m (with_classList
         (λ cs, if decide ("active" ∈ cs) then cs ∖ {["active"]} else cs ∪ {["active"]})
         (element (with_dom (insert t (with_classList
            (λ cs, if decide ("active" ∈ cs) then cs ∖ {["active"]} else cs ∪ {["active"]})
            (element w t))) w) m)))
         (with_dom (insert t (with_classList
            (λ cs, if decide ("active" ∈ cs) then cs ∖ {["active"]} else cs ∪ {["active"]})
            (element w t))) w)) m) =
      if decide ("active" ∈ classList (element w m))
      then classList (element w m) ∖ {["active"]}
      else classList (element w m) ∪ {["active"]}).
  { rewrite element_insert, decide_True by done.
    rewrite element_insert, decide_False by done. done. }
  split.
  - unfold hasClass. rewrite classList_after_style, Hm. case_decide; set_solver.
  - unfold body_overflow, hasClass. cbn [document with_dom].
    rewrite element_insert, decide_True by done. cbn [style with_style].
    rewrite lookup_insert_eq, Hm. f_equal.
    case_decide; case_bool_decide; case_bool_decide; set_solver.
Qed.

Lemma closeMenu_menu w :
  let w' := exec (Navigation.closeMenu this) w in
  throws (Navigation.closeMenu this) w = false ∧
  ¬ hasClass w' m "active" ∧
  body_overflow w' = Some (CssStr "").
Proof.
  cbv zeta. unfold exec, throws. rewrite closeMenu_run. cbn [fst snd].
  split; [done|]. split.
  - unfold hasClass. rewrite classList_after_style.
    rewrite element_insert, decide_True by done. cbn [classList with_classList].
    set_solver.
  - unfold body_overflow. cbn [document with_dom].
    rewrite element_insert, decide_True by done. cbn [style with_style].
    by rewrite lookup_insert_eq.
Qed.

Lemma linkClick_run w :
  Navigation.linkClick this w =
  if Js.le (innerWidth w) 768%float then Navigation.closeMenu this w else (Ok tt, w).
Proof.
  unfold Navigation.linkClick, mbind, M_bind, get; simpl.
  by destruct (Js.le _ _).
Qed.

End MobileMenu.

(** The listeners of the menu, each run on its own.  With a toggle and a
    menu on the page: the toggle's listener opens the menu and locks the
    body's scroll while the menu is closed (and closes and unlocks it while
    it is open); a menu link's listener closes the menu and unlocks the
    scroll when the viewport, at that time, is at most 768 wide, and
    changes nothing when it is wider. *)
Lemma mobile_menu_transitions (this : NavigationT) (t m : node) (w : World) :
  menuToggle this = Some t → navMenu this = Some m → t ≠ m →
  (¬ hasClass w m "active" →
     throws (Navigation.toggleMenu this) w = false ∧
     hasClass (exec (Navigation.toggleMenu this) w) m "active" ∧
     body_overflow (exec (Navigation.toggleMenu this) w) = Some (CssStr "hidden")) ∧
  (hasClass w m "active" →
     throws (Navigation.toggleMenu this) w = false ∧
     ¬ hasClass (exec (Navigation.toggleMenu this) w) m "active" ∧
     body_overflow (exec (Navigation.toggleMenu this) w) = Some (CssStr "")) ∧
  (∀ width, let now := with_innerWidth width w in
     Js.le width 768%float = true →
     throws (Navigation.linkClick this) now = false ∧
     ¬ hasClass (exec (Navigation.linkClick this) now) m "active" ∧
     body_overflow (exec (Navigation.linkClick this) now) = Some (CssStr "")) ∧
  (∀ width, let now := with_innerWidth width w in
     Js.le width 768%float = false →
     Navigation.linkClick this now = (Ok tt, now)).
Proof.
  intros Ht Hm Hne.
  destruct (toggleMenu_menu this t m Ht Hm Hne w) as (Hok & Hflip & Hlock).
  split; [|split; [|split]].
  - intros Hclosed. split; [done|]. split; [by apply Hflip|].
    by rewrite Hlock, bool_decide_false.
  - intros Hopen. split; [done|]. split; [rewrite Hflip; tauto|].
    by rewrite Hlock, bool_decide_true.
  - intros width now Hw. unfold exec, throws.
    rewrite (linkClick_run this now). cbn [innerWidth now with_innerWidth]. rewrite Hw.
    apply (closeMenu_menu this t m Ht Hm Hne now).
  - intros width now Hw. rewrite (linkClick_run this now).
    cbn [innerWidth now with_innerWidth]. by rewrite Hw.
Qed.

(** ** C3: scroll listeners *)

Lemma adds_refl w : adds [] w w.
Proof. unfold adds. by rewrite app_nil_r. Qed.

Lemma adds_trans L1 L2 w1 w2 w3 :
  adds L1 w1 w2 → adds L2 w2 w3 → adds (L1 ++ L2) w1 w3.
Proof.
  intros (Hd1 & Hi1 & Hl1) (Hd2 & Hi2 & Hl2). unfold adds.
  rewrite Hd2, Hi2, Hl2, Hl1, app_assoc. done.
Qed.

Lemma adds_listener t type h w :
  adds (if bool_decide (t = OnWindow ∧ type = "scroll") then [mkListener t type h] else [])
       w (with_listeners (λ ls, ls ++ [mkListener t type h]) w).
Proof.
  unfold adds, scroll_listeners, listeners_on; simpl.
  split; [done|]. split; [done|]. rewrite List.filter_app. by f_equal.
Qed.

Lemma adds_same w w' :
  document w' = document w →
  hasIntersectionObserver w' = hasIntersectionObserver w →
  listeners w' = listeners w →
  adds [] w w'.
Proof.
  intros Hd Hi Hl. unfold adds, scroll_listeners, listeners_on.
  by rewrite Hd, Hi, Hl, app_nil_r.
Qed.

Lemma wp_adds_scroll h w :
  wp (addEventListener OnWindow "scroll" h)
     (λ _, adds [mkListener OnWindow "scroll" h] w) w.
Proof. apply wp_modify, (adds_listener OnWindow "scroll"). Qed.

Lemma wp_adds_other t type h w :
  bool_decide (t = OnWindow ∧ type = "scroll") = false →
  wp (addEventListener t type h) (λ _, adds [] w) w.
Proof.
  intros Hne. apply wp_modify. pose proof (adds_listener t type h w) as H.
  by rewrite Hne in H.
Qed.

(** Sequencing: the second computation starts where the first ended. *)
Lemma wp_adds_bind {A B} (m : M A) (k : A → M B) L1 L2 w :
  wp m (λ _, adds L1 w) w →
  (∀ a w', adds L1 w w' → wp (k a) (λ _, adds L2 w') w') →
  wp (m ≫= k) (λ _, adds (L1 ++ L2) w) w.
Proof.
  intros Hm Hk. apply wp_bind. eapply wp_mono; [|exact Hm].
  intros a w' Hadds. cbv beta in Hadds.
  eapply wp_mono; [|apply Hk, Hadds].
  intros b w'' Hadds'. by eapply adds_trans.
Qed.

Lemma wp_adds_eq {A} (m : M A) L L' w :
  wp m (λ _, adds L' w) w → L' = L → wp m (λ _, adds L w) w.
Proof. by intros H <-. Qed.

Lemma wp_adds_forEach {A} (l : list A) (f : A → M unit) w :
  (∀ x w', wp (f x) (λ _, adds [] w') w') →
  wp (forEach l f) (λ _, adds [] w) w.
Proof.
  intros Hf. apply (wp_forEach (adds [] w)); [|apply adds_refl].
  intros x w' _ Hw'. eapply wp_mono; [|apply Hf].
  intros ? w'' Hw''. apply (adds_trans [] [] _ _ _ Hw' Hw'').
Qed.

(** Follows a constructor and collects the scroll listeners it adds. *)
Ltac wp_adds :=
  lazymatch goal with
  | |- wp (get _ ≫= _) _ _ => apply wp_bind, wp_get; wp_adds
  | |- wp (_ ≫= _) _ _ =>
      eapply wp_adds_bind; [wp_adds | intros ? ? ?; wp_adds]
  | |- wp (mret _) _ _ => apply wp_ret, adds_refl
  | |- wp (forEach _ _) _ _ => apply wp_adds_forEach; intros ? ?; wp_adds
  | |- wp (addEventListener OnWindow "scroll" _) _ _ => apply wp_adds_scroll
  | |- wp (addEventListener _ _ _) _ _ => by apply wp_adds_other
  | |- wp (modify _) _ _ => by apply wp_modify, adds_same
  | |- wp (if ?b then _ else _) _ _ => destruct b; wp_adds
  | |- wp (match ?o with _ => _ end) _ _ => destruct o; wp_adds
  end.

Lemma lazyLoader_adds w : wp LazyLoader.constructor (λ _, adds [] w) w.
Proof.
  unfold LazyLoader.constructor, LazyLoader.init, LazyLoader.loadAllImages.
  unfold_script. eapply wp_adds_eq; [wp_adds|done].
Qed.

Lemma scrollAnimations_adds w : wp ScrollAnimations.constructor (λ _, adds [] w) w.
Proof.
  unfold ScrollAnimations.constructor, ScrollAnimations.init.
  unfold_script. eapply wp_adds_eq; [wp_adds|done].
Qed.

Lemma statsCounter_adds w : wp StatsCounter.constructor (λ _, adds [] w) w.
Proof.
  unfold StatsCounter.constructor, StatsCounter.init.
  unfold_script. eapply wp_adds_eq; [wp_adds|done].
Qed.

Lemma smoothScroll_adds w : wp SmoothScroll.constructor (λ _, adds [] w) w.
Proof.
  unfold SmoothScroll.constructor, SmoothScroll.init.
  unfold_script. eapply wp_adds_eq; [wp_adds|done].
Qed.

Lemma loadingScreen_adds w : wp LoadingScreen.constructor (λ _, adds [] w) w.
Proof. by apply wp_adds_other. Qed.

Lemma handleImageErrors_adds w : wp handleImageErrors (λ _, adds [] w) w.
Proof. unfold handleImageErrors. eapply wp_adds_eq; [wp_adds|done]. Qed.

Lemma checkReducedMotion_adds w : wp checkReducedMotion (λ _, adds [] w) w.
Proof.
  unfold checkReducedMotion. unfold_script. eapply wp_adds_eq; [wp_adds|done].
Qed.

Lemma preloadCriticalImages_adds w : wp preloadCriticalImages (λ _, adds [] w) w.
Proof.
  unfold preloadCriticalImages. eapply wp_adds_eq; [wp_adds|done].
Qed.

Lemma navigation_adds w :
  wp Navigation.constructor
     (λ _, adds [mkListener OnWindow "scroll"
                   (Nav_handleScroll
                      {| navbar := byId (document w) !! "navbar";
                         menuToggle := byId (document w) !! "menuToggle";
                         navMenu := byId (document w) !! "navMenu";
                         navLinks := sel_nav_menu_a (document w) |})] w) w.
Proof.
  unfold Navigation.constructor, Navigation.init. unfold_script.
  eapply wp_adds_eq; [wp_adds|done].
Qed.

Lemma backToTop_adds w :
  wp BackToTop.constructor
     (λ _, adds match byId (document w) !! "backToTop" with
                | Some b => [mkListener OnWindow "scroll"
                               (Btt_handleScroll {| button := Some b |})]
                | None => []
                end w) w.
Proof.
  unfold BackToTop.constructor, BackToTop.init. unfold_script.
  apply wp_bind, wp_get. simpl.
  destruct (byId (document w) !! "backToTop"); simpl;
    (eapply wp_adds_eq; [wp_adds|done]).
Qed.

Lemma parallaxEffect_adds w :
  wp ParallaxEffect.constructor
     (λ _, adds match sel_hero_img (document w) with
                | Some h => [mkListener OnWindow "scroll"
                               (Parallax_debounced {| heroImg := Some h |})]
                | None => []
                end w) w.
Proof.
  unfold ParallaxEffect.constructor, ParallaxEffect.init. unfold_script.
  apply wp_bind, wp_get. simpl.
  destruct (sel_hero_img (document w)); simpl;
    (eapply wp_adds_eq; [wp_adds|done]).
Qed.

(** One step of the initialisation: the document is still the one the
    script started with. *)
Ltac same_document :=
  try match goal with Hd : document _ = document _ |- _ => rewrite Hd end;
  reflexivity.

Ltac next_constructor lem :=
  eapply wp_adds_bind;
  [ eapply wp_adds_eq; [apply lem|same_document]
  | let H := fresh "H" in
    let w' := fresh "w" in
    let Hd' := fresh "Hd" in
    intros _ w' H; assert (Hd' := proj1 H);
    try match goal with
        | Hd : document ?wi = document _ |- _ =>
            lazymatch type of Hd' with
            | document _ = document wi => rewrite Hd in Hd'; clear Hd
            end
        end;
    clear H ].

Lemma DOMContentLoaded_adds w :
  wp DOMContentLoaded (λ _, adds (own_scroll_listeners (document w)) w) w.
Proof.
  unfold DOMContentLoaded, own_scroll_listeners.
  eapply wp_adds_eq.
  - next_constructor checkReducedMotion_adds.
    next_constructor preloadCriticalImages_adds.
    next_constructor lazyLoader_adds.
    next_constructor scrollAnimations_adds.
    next_constructor navigation_adds.
    next_constructor statsCounter_adds.
    next_constructor backToTop_adds.
    next_constructor smoothScroll_adds.
    next_constructor parallaxEffect_adds.
    next_constructor loadingScreen_adds.
    next_constructor handleImageErrors_adds.
    by apply wp_modify, adds_same.
  - simpl. by rewrite !app_nil_r.
Qed.

(** C3, as the script has it. Initialisation never throws, and the scroll
    listeners the window has afterwards are those it had before followed
    by one listener for each class that consumes the scroll position: that
    of Navigation always, that of BackToTop when the control exists and
    that of ParallaxEffect when the hero image exists. *)
Theorem scroll_listeners_one_per_component (w : World) :
  throws DOMContentLoaded w = false ∧
  scroll_listeners (exec DOMContentLoaded w) =
    scroll_listeners w ++ own_scroll_listeners (document w) ∧
  length (own_scroll_listeners (document w)) =
    (1 + match byId (document w) !! "backToTop" with Some _ => 1 | None => 0 end
       + match sel_hero_img (document w) with Some _ => 1 | None => 0 end)%nat.
Proof.
  pose proof (DOMContentLoaded_adds w) as H.
  apply wp_exec in H as ([] & Hrun & _ & _ & Hl).
  split; [|split].
  - unfold throws. by rewrite Hrun.
  - done.
  - unfold own_scroll_listeners.
    destruct (byId (document w) !! "backToTop"), (sel_hero_img (document w)); done.
Qed.

(** C3, as the specification words it, fails on the sample page: with a
    navbar, a back-to-top control and a hero image, the window has three
    scroll listeners after initialisation, not one. *)
Lemma scroll_listeners_not_shared :
  length (scroll_listeners (Sample.ready Sample.doc 1200%float true)) = 3%nat ∧
  length (scroll_listeners (Sample.ready Sample.doc 1200%float true)) ≠ 1%nat.
Proof. split; [by vm_compute|]. vm_compute. discriminate. Qed.

(** ** The page the script has initialised

    The conditions under which C6 and C7 are stated hold on every page the
    script has initialised: the Navigation of a page with a navbar listens
    to scrolls, and no back-to-top handler is attached to an element other
    than the control itself. *)

Lemma navigation_listens (w : World) (n : node) :
  byId (document w) !! "navbar" = Some n →
  ∃ this,
    mkListener OnWindow "scroll" (Nav_handleScroll this)
      ∈ listeners (exec DOMContentLoaded w) ∧
    navbar this = Some n.
Proof.
  intros Hn. pose proof (DOMContentLoaded_adds w) as H.
  apply wp_exec in H as ([] & _ & _ & _ & Hl).
  exists {| navbar := byId (document w) !! "navbar";
            menuToggle := byId (document w) !! "menuToggle";
            navMenu := byId (document w) !! "navMenu";
            navLinks := sel_nav_menu_a (document w) |}.
  split; [|exact Hn].
  assert (Hin : mkListener OnWindow "scroll"
            (Nav_handleScroll
               {| navbar := byId (document w) !! "navbar";
                  menuToggle := byId (document w) !! "menuToggle";
                  navMenu := byId (document w) !! "navMenu";
                  navLinks := sel_nav_menu_a (document w) |})
          ∈ scroll_listeners (exec DOMContentLoaded w)).
  { rewrite Hl. apply elem_of_app. right. unfold own_scroll_listeners. by left. }
  unfold scroll_listeners, listeners_on in Hin.
  apply list_elem_of_In, filter_In in Hin as [Hin _]. by apply list_elem_of_In.
Qed.

Lemma not_back_to_top_snoc el ls l :
  not_back_to_top el ls →
  (∀ this, l_handler l = Btt_handleScroll this → button this ≠ Some el) →
  not_back_to_top el (ls ++ [l]).
Proof.
  unfold not_back_to_top. intros Hls Hl l' this Hin Hh.
  apply elem_of_app in Hin as [Hin|Hin].
  - by apply (Hls l').
  - apply list_elem_of_singleton in Hin as ->. by apply Hl.
Qed.

Section NotBackToTop.

Variable el : node.
Variable d : Document.
Hypothesis control_differs : byId d !! "backToTop" ≠ Some el.

Local Abbreviation safe :=
  (λ w, document w = d ∧ not_back_to_top el (listeners w)).

(** Registering a listener that is not a back-to-top scroll handler, and
    any assignment that leaves the listeners alone. *)
Ltac safe_leaf :=
  cbv beta in *;
  match goal with
  | H : _ ∧ _ |- _ ∧ _ =>
      let Hd := fresh in let Hn := fresh in
      destruct H as [Hd Hn]; split; [exact Hd|];
      first
        [ exact Hn
        | apply not_back_to_top_snoc; [exact Hn|]; intros ? ?; discriminate ]
  end.

Lemma backToTop_constructor_safe : preserves safe BackToTop.constructor.
Proof.
  intros w [Hd Hn]. unfold BackToTop.constructor, BackToTop.init.
  unfold mbind, M_bind, getElementById, get, addEventListener, modify; simpl.
  rewrite Hd. destruct (byId d !! "backToTop") as [b|] eqn:Hb; simpl; [|done].
  split; [done|].
  apply not_back_to_top_snoc; [apply not_back_to_top_snoc; [done|]|].
  - intros this [= <-]. exact control_differs.
  - intros this ?. discriminate.
Qed.

Ltac constructor_safe :=
  first
    [ apply backToTop_constructor_safe
    | unfold checkReducedMotion, preloadCriticalImages, handleImageErrors,
        LazyLoader.constructor, LazyLoader.init, LazyLoader.loadAllImages,
        ScrollAnimations.constructor, ScrollAnimations.init,
        Navigation.constructor, Navigation.init,
        StatsCounter.constructor, StatsCounter.init,
        SmoothScroll.constructor, SmoothScroll.init,
        ParallaxEffect.constructor, ParallaxEffect.init,
        LoadingScreen.constructor, LoadingScreen.init,
        console_log, addEventListener;
      unfold_script; by preserves_body safe_leaf ].

Lemma DOMContentLoaded_safe : preserves safe DOMContentLoaded.
Proof.
  unfold DOMContentLoaded.
  repeat (apply preserves_bind; [constructor_safe|intros ?]).
  constructor_safe.
Qed.

End NotBackToTop.

Lemma not_back_to_top_on_page parseInt (w : World) (el : node) evs :
  listeners w = [] →
  byId (document w) !! "backToTop" ≠ Some el →
  not_back_to_top el
    (listeners (deliverAll parseInt evs (exec DOMContentLoaded w, [])).1).
Proof.
  intros Hnil Hne. rewrite deliverAll_listeners. cbn [fst].
  apply (DOMContentLoaded_safe el (document w) Hne w). split; [done|].
  rewrite Hnil. intros l this Hl. by apply elem_of_nil in Hl.
Qed.

(** ** C9: the listener of in-page anchors *)

Lemma smooth_handleClick_run this e link w :
  e_currentTarget e = Some link →
  SmoothScroll.handleClick this e w =
  match attributes (element w link) !! "href" with
  | Some h =>
      if decide (h = "#") then (Ok tt, w) else
      let w1 := with_defaultPrevented true w in
      let id := Js.substring1 h in
      match (if decide (id = "") then None else byId (document w) !! id) with
      | Some t =>
          match byId (document w) !! "navbar" with
          | Some n =>
              (Ok tt,
               with_scrollTo_calls
                 (cons (offsetTop (element w t) - offsetHeight (element w n))%float) w1)
          | None => (Throw (TypeError "document.getElementById('navbar')"), w1)
          end
      | None => (Ok tt, w1)
      end
  | None => (Throw (TypeError "href"), with_defaultPrevented true w)
  end.
Proof.
  intros Hct. unfold SmoothScroll.handleClick. rewrite Hct.
  unfold mbind, M_bind, getAttribute, getElementById, get; simpl.
  destruct (attributes (element w link) !! "href") as [h|]; simpl.
  - destruct (decide (h = "#")) as [->|Hh].
    + by destruct (decide (Some "#" = Some "#")).
    + destruct (decide (Some h = Some "#")); [congruence|].
      destruct (decide (Js.substring1 h = "")); simpl; [done|].
      destruct (byId (document w) !! Js.substring1 h); simpl; [|done].
      by destruct (byId (document w) !! "navbar").
  - by destruct (decide (None = Some "#")).
Qed.

(** The listener of an in-page anchor, run on its own.  On a link whose
    href is exactly "#" it changes nothing: the default action is not
    prevented and [window.scrollTo] is not called.  On a link with any
    other href it prevents the default action, whether or not it then
    completes; and when no element has the id after the "#", that is all it
    does: [window.scrollTo] is not called. *)
Lemma smooth_anchor_click (this : SmoothScrollT) (e : Event) (link : node) (w : World) :
  e_currentTarget e = Some link →
  (attributes (element w link) !! "href" = Some "#" →
     SmoothScroll.handleClick this e w = (Ok tt, w)) ∧
  (∀ h, attributes (element w link) !! "href" = Some h → h ≠ "#" →
     defaultPrevented (exec (SmoothScroll.handleClick this e) w) = true ∧
     (byId (document w) !! Js.substring1 h = None →
        SmoothScroll.handleClick this e w = (Ok tt, with_defaultPrevented true w) ∧
        scrollTo_calls (exec (SmoothScroll.handleClick this e) w) = scrollTo_calls w)).
Proof.
  intros Hct. split.
  - intros Hh. by rewrite (smooth_handleClick_run this e link w Hct), Hh.
  - intros h Hh Hne. unfold exec.
    rewrite (smooth_handleClick_run this e link w Hct), Hh.
    rewrite decide_False by done. cbv zeta. split.
    + destruct (decide (Js.substring1 h = "")); [done|].
      destruct (byId (document w) !! Js.substring1 h); [|done].
      by destruct (byId (document w) !! "navbar").
    + intros ->. by destruct (decide (Js.substring1 h = "")).
Qed.

(** ** C10: an image without a deferred source *)

(** C10. When the image has no [data-src] attribute, [loadImage] returns
    at once and the world is the one it was called in: no temporary image
    is created, the image's [src] is what it was and "loaded" is not
    added. *)
Theorem loadImage_without_source (img : node) (w : World) :
  attributes (element w img) !! "data-src" = None →
  LazyLoader.loadImage img w = (Ok tt, w) ∧
  preloads (exec (LazyLoader.loadImage img) w) = preloads w ∧
  attributes (element (exec (LazyLoader.loadImage img) w) img) !! "src" =
    attributes (element w img) !! "src" ∧
  (hasClass (exec (LazyLoader.loadImage img) w) img "loaded" ↔ hasClass w img "loaded").
Proof.
  intros Hsrc.
  assert (Hrun : LazyLoader.loadImage img w = (Ok tt, w)).
  { unfold LazyLoader.loadImage, mbind, M_bind, getAttribute, get; simpl.
    by rewrite Hsrc. }
  unfold exec. by rewrite Hrun.
Qed.

(** The same holds when the attribute is present but empty. *)
Lemma loadImage_falsy_source (img : node) (w : World) :
  Js.truthy (attributes (element w img) !! "data-src") = false →
  LazyLoader.loadImage img w = (Ok tt, w).
Proof.
  intros Hsrc. unfold LazyLoader.loadImage, mbind, M_bind, getAttribute, get; simpl.
  destruct (attributes (element w img) !! "data-src"); [|done]. by rewrite Hsrc.
Qed.

(** ** C2: a browser without IntersectionObserver *)

(** Without the observer, [StatsCounter.init] does nothing at all. *)
Lemma statsCounter_init_without_observer this (w : World) :
  hasIntersectionObserver w = false → StatsCounter.init this w = (Ok tt, w).
Proof.
  intros Hno. unfold StatsCounter.init, mbind, M_bind, get; simpl. by rewrite Hno.
Qed.

(** The two siblings fall back: every image is handed to [loadImage] and
    every reveal element is flagged, at once. *)
Lemma lazyLoader_init_without_observer this (w : World) :
  hasIntersectionObserver w = false →
  LazyLoader.init this w = forEach (ll_images this) LazyLoader.loadImage w.
Proof.
  intros Hno. unfold LazyLoader.init, mbind, M_bind, get; simpl. by rewrite Hno.
Qed.

Lemma with_preloads_nil w : with_preloads (λ ps, ps ++ []) w = w.
Proof. destruct w. unfold with_preloads; simpl. by rewrite app_nil_r. Qed.

Lemma loadImage_run img w :
  LazyLoader.loadImage img w =
  (Ok tt, with_preloads (λ ps, ps ++ fetches w [img]) w).
Proof.
  unfold LazyLoader.loadImage, fetches, mbind, M_bind, getAttribute, get; simpl.
  destruct (attributes (element w img) !! "data-src") as [s|]; simpl.
  - destruct (decide (s = "")); simpl; [|done].
    by rewrite with_preloads_nil.
  - by rewrite with_preloads_nil.
Qed.

Lemma loadAllImages_run imgs w :
  ∃ w', forEach imgs LazyLoader.loadImage w = (Ok tt, w') ∧
        dom w' = dom w ∧ preloads w' = preloads w ++ fetches w imgs.
Proof.
  revert w. induction imgs as [|img imgs IH]; intros w.
  - exists w. by rewrite app_nil_r.
  - simpl. unfold mbind, M_bind. rewrite loadImage_run.
    destruct (IH (with_preloads (λ ps, ps ++ fetches w [img]) w))
      as (w' & -> & Hdom & Hpre).
    exists w'. split; [done|]. split; [done|].
    rewrite Hpre. simpl. rewrite <- app_assoc. f_equal.
    change (fetches (with_preloads (λ ps, ps ++ fetches w [img]) w) imgs)
      with (fetches w imgs).
    unfold fetches. cbn [omap list_omap].
    by destruct (match attributes (element w img) !! "data-src" with
                 | Some s => _ | None => _ end).
Qed.

(** Without the observer every image with a deferred source is being
    fetched as soon as [LazyLoader.init] returns. *)
Lemma lazyLoader_fetches_without_observer this (w : World) :
  hasIntersectionObserver w = false →
  throws (LazyLoader.init this) w = false ∧
  preloads (exec (LazyLoader.init this) w) = preloads w ++ fetches w (ll_images this).
Proof.
  intros Hno. unfold throws, exec.
  rewrite (lazyLoader_init_without_observer this w Hno).
  destruct (loadAllImages_run (ll_images this) w) as (w' & Hrun & _ & Hpre).
  by rewrite Hrun.
Qed.

Lemma flag_all_keeps l el :
  preserves (λ w, "visible" ∈ classList (element w el))
            (forEach l (λ x, classList_add x "visible")).
Proof.
  unfold_script. apply preserves_forEach. intros y.
  apply preserves_modify. intros w Hv.
  rewrite element_insert. case_decide; [subst; simpl; set_solver|done].
Qed.

Lemma scrollAnimations_init_without_observer this (w : World) (el : node) :
  hasIntersectionObserver w = false →
  el ∈ sa_elements this →
  hasClass (exec (ScrollAnimations.init this) w) el "visible".
Proof.
  intros Hno. unfold ScrollAnimations.init, exec, mbind, M_bind, get; simpl.
  rewrite Hno. clear Hno. unfold hasClass. revert w.
  induction (sa_elements this) as [|x l IH]; intros w Hel.
  - by apply elem_of_nil in Hel.
  - simpl. unfold mbind, M_bind; simpl.
    apply elem_of_cons in Hel as [->|?]; [|by apply IH].
    apply (flag_all_keeps l x). rewrite element_insert, decide_True by done.
    simpl. set_solver.
Qed.

(** C2, on the sample page in a browser without IntersectionObserver.
    Right after initialisation the lazy image with a deferred source is
    being fetched and the reveal element is flagged; but the counter has
    not been started: its text is untouched, no animation step is pending
    and no observer watches it.  Nor does any later event start it, as no
    observer exists to deliver a notification. *)
Theorem stats_counter_idle_without_observer :
  let w := Sample.ready Sample.doc 500%float false in
  preloads w = [mkPreload 6%nat "moon.jpg"] ∧
  hasClass w 8%nat "visible" ∧
  started w = [] ∧ frames w = [] ∧ stat_observed w = ∅ ∧
  textContent (element w 9%nat) = TextStr "" ∧
  ∀ evs, existsb (announces 9%nat) evs = false →
    9%nat ∉ started (deliverAll ParseInt.parseInt evs (w, [])).1.
Proof.
  cbv zeta. split; [by vm_compute|]. split.
  { unfold hasClass. by_computation. }
  split; [by vm_compute|]. split; [by vm_compute|].
  split; [by vm_compute|]. split; [by vm_compute|].
  intros evs Hevs.
  destruct (deliverAll_tracks ParseInt.parseInt evs
              (Sample.ready Sample.doc 500%float false, [])) as (_ & Hs & _).
  rewrite Hs, Hevs. cbn [fst]. intros [Hin|[_ ?]]; [|done].
  assert (Hnone : started (Sample.ready Sample.doc 500%float false) = [])
    by (by vm_compute).
  rewrite Hnone in Hin. by apply elem_of_nil in Hin.
Qed.

(** ** C4: missing elements *)

(** The classes that check for their element do nothing when it is
    missing. *)
Lemma backToTop_absent (w : World) :
  BackToTop.init {| button := None |} w = (Ok tt, w).
Proof. done. Qed.

Lemma parallaxEffect_absent (w : World) :
  ParallaxEffect.init {| heroImg := None |} w = (Ok tt, w).
Proof. done. Qed.

(** Navigation checks for the toggle when it registers the toggle's
    listener, and nowhere else. *)
Lemma closeMenu_without_toggle this (w : World) :
  menuToggle this = None →
  Navigation.closeMenu this w = (Throw (TypeError "this.menuToggle"), w).
Proof. intros Hno. unfold Navigation.closeMenu. by rewrite Hno. Qed.

Lemma nav_handleScroll_without_navbar this (w : World) :
  navbar this = None →
  Navigation.handleScroll this w = (Throw (TypeError "this.navbar"), w).
Proof. intros Hno. by rewrite nav_handleScroll_run, Hno. Qed.

(** C4, on the sample page.  Without the menu toggle, in a viewport 500
    wide, a click on a menu link reaches [closeMenu], which throws; without
    the navbar, every scroll throws in [handleScroll]. *)
Theorem navigation_throws_when_element_missing :
  (deliver ParseInt.parseInt (Click [4; 3; 0]%nat)
     (Sample.ready (Sample.without "menuToggle" Sample.doc) 500%float true, [])).2
    = [TypeError "this.menuToggle"] ∧
  (deliver ParseInt.parseInt (Scroll 150%float)
     (Sample.ready (Sample.without "navbar" Sample.doc) 500%float true, [])).2
    = [TypeError "this.navbar"].
Proof. split; by vm_compute. Qed.

(** ** The theorems at work on the sample page *)

Lemma counter_animation_to_100_witness :
  let r := displayed ParseInt.parseInt 125 9%nat (Sample.page Sample.doc 500%float true) in
  pending 9%nat r.2 = [] ∧ last r.1 = Some (TextNum 100%float).
Proof.
  destruct (counter_animation_to_100 ParseInt.parseInt
              (Sample.page Sample.doc 500%float true) 9%nat 125)
    as (_ & Hend & Hlast & _).
  - reflexivity.
  - vm_compute. reflexivity.
  - lia.
  - split; assumption.
Defined.

Lemma counter_started_at_most_once_witness :
  let entry := mkEntry 9%nat true in
  let w' := (deliverAll ParseInt.parseInt
               [StatNotification [entry]; Scroll 10%float; StatNotification [entry; entry]]
               (Sample.mobile, [])).1 in
  NoDup (started w') ∧ 9%nat ∈ started w'.
Proof.
  destruct (counter_started_at_most_once ParseInt.parseInt Sample.mobile
              [StatNotification [mkEntry 9%nat true]; Scroll 10%float;
               StatNotification [mkEntry 9%nat true; mkEntry 9%nat true]])
    as (Hnd & _ & Hiff).
  - replace (started Sample.mobile) with (@nil node) by (vm_compute; reflexivity).
    apply NoDup_nil_2.
  - replace (started Sample.mobile) with (@nil node) by (vm_compute; reflexivity).
    intros x Hx. apply elem_of_nil in Hx. destruct Hx.
  - split; [exact Hnd|]. apply (Hiff 9%nat); [|reflexivity].
    vm_compute. intros H. apply (elem_of_empty (C:=gset nat) 9%nat), H.
Defined.

Lemma visible_flag_persists_witness :
  "visible" ∈ classList (element Sample.revealed 8%nat) ∧
  "visible" ∈ classList
    (element (deliverAll ParseInt.parseInt
                [FadeNotification [mkEntry 8%nat false]; Scroll 0%float;
                 Click [10; 0]%nat]
                (Sample.revealed, [])).1 8%nat).
Proof.
  assert (Hflag : "visible" ∈ classList (element Sample.revealed 8%nat)).
  { apply (bool_decide_unpack _). vm_compute. exact I. }
  assert (Hnot : not_back_to_top 8%nat (listeners Sample.revealed)).
  { apply not_back_to_top_test. vm_compute. reflexivity. }
  destruct (visible_flag_persists ParseInt.parseInt Sample.revealed 8%nat Hflag)
    as [_ Hpage].
  split; [exact Hflag|]. exact (Hpage Hnot _).
Defined.

Lemma navbar_scrolled_iff_above_100_witness :
  let flag_after evs :=
    "scrolled" ∈ classList
      (element (deliverAll ParseInt.parseInt evs (Sample.mobile, [])).1 1%nat) in
  flag_after [Scroll 150%float] ∧
  ¬ flag_after [Scroll 150%float; Scroll 100%float].
Proof.
  assert (Hin : mkListener OnWindow "scroll" (Nav_handleScroll Sample.nav)
                ∈ listeners Sample.mobile).
  { apply list_elem_of_In. vm_compute. left. reflexivity. }
  destruct (navbar_scrolled_iff_above_100 ParseInt.parseInt Sample.mobile
              Sample.nav 1%nat Hin eq_refl) as [_ Hseq].
  exact (Hseq [] 150%float 100%float eq_refl eq_refl).
Defined.

Lemma loadImage_without_source_witness :
  LazyLoader.loadImage 7%nat Sample.mobile = (Ok tt, Sample.mobile).
Proof.
  assert (H7 : attributes (element Sample.mobile 7%nat) !! "data-src" = None)
    by (vm_compute; reflexivity).
  destruct (loadImage_without_source 7%nat Sample.mobile H7) as [Hrun _].
  exact Hrun.
Defined.

(** ** The sample page, end to end

    Events are delivered through the listeners the script registered; the
    list of reported exceptions stays empty throughout. *)

Example sample_menu_clicks :
  let opened := deliver ParseInt.parseInt (Click [2; 0]%nat) (Sample.mobile, []) in
  let closed := deliver ParseInt.parseInt (Click [4; 3; 0]%nat) opened in
  let wide :=
    deliverAll ParseInt.parseInt
      [Resize 1200%float 800%float; Click [4; 3; 0]%nat] opened in
  (hasClass opened.1 3%nat "active" ∧ body_overflow opened.1 = Some (CssStr "hidden")) ∧
  (¬ hasClass closed.1 3%nat "active" ∧ body_overflow closed.1 = Some (CssStr "")) ∧
  (hasClass wide.1 3%nat "active" ∧ body_overflow wide.1 = Some (CssStr "hidden")) ∧
  opened.2 = [] ∧ closed.2 = [] ∧ wide.2 = [].
Proof.
  cbv zeta. unfold hasClass.
  repeat split; try by_computation; by vm_compute.
Qed.

Example sample_anchor_clicks :
  let hash := deliver ParseInt.parseInt (Click [5; 3; 0]%nat) (Sample.mobile, []) in
  let missing := deliver ParseInt.parseInt (Click [13; 0]%nat) (Sample.mobile, []) in
  let about := deliver ParseInt.parseInt (Click [4; 3; 0]%nat) (Sample.mobile, []) in
  (defaultPrevented hash.1 = false ∧ scrollTo_calls hash.1 = []) ∧
  (defaultPrevented missing.1 = true ∧ scrollTo_calls missing.1 = []) ∧
  (defaultPrevented about.1 = true ∧ scrollTo_calls about.1 = [0%float]) ∧
  hash.2 = [] ∧ missing.2 = [] ∧ about.2 = [].
Proof. cbv zeta. repeat split; by vm_compute. Qed.

Example sample_scrolls :
  let down := deliver ParseInt.parseInt (Scroll 600%float) (Sample.mobile, []) in
  let up := deliver ParseInt.parseInt (Scroll 100%float) down in
  (hasClass down.1 1%nat "scrolled" ∧ hasClass down.1 10%nat "visible") ∧
  (¬ hasClass up.1 1%nat "scrolled" ∧ ¬ hasClass up.1 10%nat "visible") ∧
  down.2 = [] ∧ up.2 = [].
Proof.
  cbv zeta. unfold hasClass.
  repeat split; try by_computation; by vm_compute.
Qed.

Example sample_counter_and_images :
  let seen :=
    deliverAll ParseInt.parseInt
      [StatNotification [mkEntry 9%nat true];
       LazyNotification [mkEntry 6%nat true; mkEntry 7%nat true];
       PreloadEnds 0 true]
      (Sample.mobile, []) in
  started seen.1 = [9%nat] ∧
  textContent (element seen.1 9%nat) = TextNum 0%float ∧
  attributes (element seen.1 6%nat) !! "src" = Some "moon.jpg" ∧
  hasClass seen.1 6%nat "loaded" ∧
  ¬ hasClass seen.1 7%nat "loaded" ∧
  preloads seen.1 = [] ∧ seen.2 = [].
Proof.
  cbv zeta. unfold hasClass.
  repeat split; try by_computation; by vm_compute.
Qed.

(** * Further properties of the script *)

(** ** The listeners initialisation registers *)

Lemma registers_refl w : registers [] w w.
Proof. unfold registers. by rewrite app_nil_r. Qed.

Lemma registers_trans L1 L2 w1 w2 w3 :
  registers L1 w1 w2 → registers L2 w2 w3 → registers (L1 ++ L2) w1 w3.
Proof.
  intros [Hd1 Hl1] [Hd2 Hl2]. unfold registers.
  by rewrite Hd2, Hl2, Hl1, app_assoc.
Qed.

Lemma wp_registers_listener t type h w :
  wp (addEventListener t type h) (λ _, registers [mkListener t type h] w) w.
Proof. by apply wp_modify. Qed.

Lemma wp_registers_bind {A B} (m : M A) (k : A → M B) L1 L2 w :
  wp m (λ _, registers L1 w) w →
  (∀ a w', registers L1 w w' → wp (k a) (λ _, registers L2 w') w') →
  wp (m ≫= k) (λ _, registers (L1 ++ L2) w) w.
Proof.
  intros Hm Hk. apply wp_bind. eapply wp_mono; [|exact Hm].
  intros a w' Hreg. cbv beta in Hreg.
  eapply wp_mono; [|apply Hk, Hreg].
  intros b w'' Hreg'. by eapply registers_trans.
Qed.

Lemma wp_registers_eq {A} (m : M A) L L' w :
  wp m (λ _, registers L' w) w → L' = L → wp m (λ _, registers L w) w.
Proof. by intros H <-. Qed.

(** A loop that registers one listener for each element of a list. *)
Lemma wp_registers_each {A} (l : list A) (t : A → EventTarget) type (h : A → Handler) w :
  wp (forEach l (λ x, addEventListener (t x) type (h x)))
     (λ _, registers ((λ x, mkListener (t x) type (h x)) <$> l) w) w.
Proof.
  revert w. induction l as [|x l IH]; intros w; [apply wp_ret, registers_refl|].
  apply (wp_registers_bind _ _ [_] _ w); [apply wp_registers_listener|].
  intros _ w' _. apply IH.
Qed.

(** A loop that registers none. *)
Lemma wp_registers_forEach {A} (l : list A) (f : A → M unit) w :
  (∀ x w', wp (f x) (λ _, registers [] w') w') →
  wp (forEach l f) (λ _, registers [] w) w.
Proof.
  intros Hf. apply (wp_forEach (registers [] w)); [|apply registers_refl].
  intros x w' _ Hw'. eapply wp_mono; [|apply Hf].
  intros ? w'' Hw''. apply (registers_trans [] [] _ _ _ Hw' Hw'').
Qed.

(** Follows a constructor and collects the listeners it registers. *)
Ltac wp_registers :=
  lazymatch goal with
  | |- wp (get _ ≫= _) _ _ => apply wp_bind, wp_get; wp_registers
  | |- wp (_ ≫= _) _ _ =>
      eapply wp_registers_bind; [wp_registers | intros ? ? ?; wp_registers]
  | |- wp (mret _) _ _ => apply wp_ret, registers_refl
  | |- wp (forEach _ (λ _, addEventListener _ _ _)) _ _ =>
      apply (wp_registers_each _ _ _ _)
  | |- wp (forEach _ _) _ _ => apply wp_registers_forEach; intros ? ?; wp_registers
  | |- wp (addEventListener _ _ _) _ _ => apply wp_registers_listener
  | |- wp (modify _) _ _ => apply wp_modify; split; [done|by rewrite app_nil_r]
  | |- wp (if ?b then _ else _) _ _ => destruct b; wp_registers
  | |- wp (match ?o with _ => _ end) _ _ => destruct o; wp_registers
  end.

Ltac unfold_init :=
  unfold checkReducedMotion, preloadCriticalImages, handleImageErrors,
    LazyLoader.constructor, LazyLoader.init, LazyLoader.loadAllImages,
    ScrollAnimations.constructor, ScrollAnimations.init,
    Navigation.constructor, Navigation.init,
    StatsCounter.constructor, StatsCounter.init,
    BackToTop.constructor, BackToTop.init,
    SmoothScroll.constructor, SmoothScroll.init,
    ParallaxEffect.constructor, ParallaxEffect.init,
    LoadingScreen.constructor, LoadingScreen.init,
    console_log.

Lemma lazyLoader_registers w : wp LazyLoader.constructor (λ _, registers [] w) w.
Proof.
  unfold_init. unfold_script. eapply wp_registers_eq; [wp_registers|done].
Qed.

Lemma scrollAnimations_registers w :
  wp ScrollAnimations.constructor (λ _, registers [] w) w.
Proof.
  unfold_init. unfold_script. eapply wp_registers_eq; [wp_registers|done].
Qed.

Lemma statsCounter_registers w : wp StatsCounter.constructor (λ _, registers [] w) w.
Proof.
  unfold_init. unfold_script. eapply wp_registers_eq; [wp_registers|done].
Qed.

Lemma checkReducedMotion_registers w : wp checkReducedMotion (λ _, registers [] w) w.
Proof.
  unfold_init. unfold_script. eapply wp_registers_eq; [wp_registers|done].
Qed.

Lemma preloadCriticalImages_registers w :
  wp preloadCriticalImages (λ _, registers [] w) w.
Proof.
  unfold_init. eapply wp_registers_eq; [wp_registers|done].
Qed.

Lemma navigation_registers w :
  wp Navigation.constructor
     (λ _, registers
        ([mkListener OnWindow "scroll" (Nav_handleScroll (nav_of (document w)))] ++
         match byId (document w) !! "menuToggle" with
         | Some t => [mkListener (OnNode t) "click" (Nav_toggleMenu (nav_of (document w)))]
         | None => []
         end ++
         ((λ link, mkListener (OnNode link) "click" (Nav_linkClick (nav_of (document w))))
            <$> sel_nav_menu_a (document w)) ++
         [mkListener OnDocument "click" (Nav_documentClick (nav_of (document w)))]) w) w.
Proof.
  unfold_init. unfold_script. unfold nav_of.
  do 5 (apply wp_bind, wp_get). simpl.
  destruct (byId (document w) !! "menuToggle"); simpl;
    (eapply wp_registers_eq; [wp_registers|by rewrite ?app_nil_r]).
Qed.

Lemma backToTop_registers w :
  wp BackToTop.constructor
     (λ _, registers
        match byId (document w) !! "backToTop" with
        | Some b =>
            [mkListener OnWindow "scroll" (Btt_handleScroll {| button := Some b |});
             mkListener (OnNode b) "click" (Btt_scrollToTop {| button := Some b |})]
        | None => []
        end w) w.
Proof.
  unfold_init. unfold_script. apply wp_bind, wp_get. simpl.
  destruct (byId (document w) !! "backToTop"); simpl;
    (eapply wp_registers_eq; [wp_registers|done]).
Qed.

Lemma smoothScroll_registers w :
  wp SmoothScroll.constructor
     (λ _, registers
        ((λ link, mkListener (OnNode link) "click"
                    (Smooth_handleClick {| links := sel_a_href_hash (document w) |}))
           <$> sel_a_href_hash (document w)) w) w.
Proof.
  unfold_init. unfold_script.
  eapply wp_registers_eq; [wp_registers|by rewrite ?app_nil_r].
Qed.

Lemma parallaxEffect_registers w :
  wp ParallaxEffect.constructor
     (λ _, registers
        match sel_hero_img (document w) with
        | Some h => [mkListener OnWindow "scroll" (Parallax_debounced {| heroImg := Some h |})]
        | None => []
        end w) w.
Proof.
  unfold_init. unfold_script. apply wp_bind, wp_get. simpl.
  destruct (sel_hero_img (document w)); simpl;
    (eapply wp_registers_eq; [wp_registers|done]).
Qed.

Lemma loadingScreen_registers w :
  wp LoadingScreen.constructor
     (λ _, registers [mkListener OnWindow "load" Loading_onLoad] w) w.
Proof. apply wp_registers_listener. Qed.

Lemma handleImageErrors_registers w :
  wp handleImageErrors
     (λ _, registers
        ((λ img, mkListener (OnNode img) "error" (Img_onError img))
           <$> sel_img (document w)) w) w.
Proof.
  unfold_init. eapply wp_registers_eq; [wp_registers|done].
Qed.

Ltac next_registers lem :=
  eapply wp_registers_bind;
  [ eapply wp_registers_eq; [apply lem|same_document]
  | let H := fresh "H" in
    let w' := fresh "w" in
    let Hd' := fresh "Hd" in
    intros _ w' H; assert (Hd' := proj1 H);
    try match goal with
        | Hd : document ?wi = document _ |- _ =>
            lazymatch type of Hd' with
            | document _ = document wi => rewrite Hd in Hd'; clear Hd
            end
        end;
    clear H ].

Lemma DOMContentLoaded_registers w :
  wp DOMContentLoaded (λ _, registers (own_listeners (document w)) w) w.
Proof.
  unfold DOMContentLoaded, own_listeners.
  eapply wp_registers_eq.
  - next_registers checkReducedMotion_registers.
    next_registers preloadCriticalImages_registers.
    next_registers lazyLoader_registers.
    next_registers scrollAnimations_registers.
    next_registers navigation_registers.
    next_registers statsCounter_registers.
    next_registers backToTop_registers.
    next_registers smoothScroll_registers.
    next_registers parallaxEffect_registers.
    next_registers loadingScreen_registers.
    next_registers handleImageErrors_registers.
    apply wp_modify. split; [done|by rewrite app_nil_r].
  - simpl. rewrite ?app_nil_r, <- ?app_assoc. reflexivity.
Qed.

Lemma DOMContentLoaded_listeners w :
  throws DOMContentLoaded w = false ∧
  document (exec DOMContentLoaded w) = document w ∧
  listeners (exec DOMContentLoaded w) = listeners w ++ own_listeners (document w).
Proof.
  pose proof (DOMContentLoaded_registers w) as H.
  apply wp_exec in H as ([] & Hrun & Hd & Hl).
  split; [|done]. unfold throws. by rewrite Hrun.
Qed.


(** ** Invariants of the page under chosen events *)

Section PageInvariantFor.

Variable parseInt : option string → number.
Variable P : World → Prop.
Variable ls : list Listener.
Variable allowed : BrowserEvent → bool.

Hypothesis P_listeners : ∀ w, P w → listeners w = ls.
Hypothesis handlers_ok :
  ∀ l e, l ∈ ls → preserves P (handleEvent (l_handler l) e).
Hypothesis timers_ok : ∀ t, preserves P (timerBody t).
Hypothesis frame_ok : ∀ c, preserves P (StatsCounter.updateCounter c).
Hypothesis onload_ok : ∀ p, preserves P (LazyLoader.tempImg_onload p).
Hypothesis onerror_ok : ∀ p, preserves P (LazyLoader.tempImg_onerror p).
Hypothesis lazy_ok :
  ∀ es, allowed (LazyNotification es) = true →
        preserves P (LazyLoader.handleIntersection es).
Hypothesis fade_ok :
  ∀ es, allowed (FadeNotification es) = true →
        preserves P (ScrollAnimations.handleIntersection es).
Hypothesis stat_ok :
  ∀ es, allowed (StatNotification es) = true →
        preserves P (StatsCounter.handleIntersection parseInt es).
Hypothesis scrolled_ok :
  ∀ y w, allowed (Scroll y) = true → P w → P (with_scrollY y w).
Hypothesis resized_ok :
  ∀ x y w, P w → P (with_innerWidth x (with_innerHeight y w)).
Hypothesis dispatch_ok : ∀ w, P w → P (with_defaultPrevented false w).
Hypothesis frames_ok : ∀ w, P w → P (with_frames (λ _, []) w).
Hypothesis timer_ok : ∀ i w, P w → P (with_timers (delete i) w).
Hypothesis preload_ok : ∀ i w, P w → P (with_preloads (delete i) w).

Lemma deliver_preserves_allowed ev (r : Run) :
  allowed ev = true → P r.1 → P (deliver parseInt ev r).1.
Proof.
  intros Hev H. destruct ev; simpl.
  - apply (fire_preserves P ls P_listeners); [intros; by apply handlers_ok|].
    by apply scrolled_ok.
  - by apply resized_ok.
  - apply (bubble_preserves P ls P_listeners handlers_ok). by apply dispatch_ok.
  - apply (fire_preserves P ls P_listeners); [intros; by apply handlers_ok|done].
  - apply (fire_preserves P ls P_listeners); [intros; by apply handlers_ok|done].
  - apply call_preserves; [by apply lazy_ok|done].
  - apply call_preserves; [by apply fade_ok|done].
  - apply call_preserves; [by apply stat_ok|done].
  - apply callAll_preserves; [done|by apply frames_ok].
  - destruct (timers r.1 !! i); [|done].
    apply call_preserves; [done|by apply timer_ok].
  - destruct (preloads r.1 !! i); [|done].
    apply call_preserves; [by destruct ok|by apply preload_ok].
Qed.

Lemma deliverAll_preserves_allowed evs (r : Run) :
  forallb allowed evs = true → P r.1 → P (deliverAll parseInt evs r).1.
Proof.
  unfold deliverAll. revert r.
  induction evs as [|ev evs IH]; intros r Hevs H; simpl in *; [done|].
  apply andb_true_iff in Hevs as [Hev Hevs].
  apply IH; [done|]. by apply deliver_preserves_allowed.
Qed.

End PageInvariantFor.

(** The first callback of [l] that establishes [K] from [K0] hands it to the
    callbacks after it. *)
Lemma callAll_hands_over {A} (K0 K : World → Prop) (f : A → M unit)
    (l : list A) (a0 : A) (r : Run) :
  a0 ∈ l →
  (∀ a, a ∈ l → preserves K0 (f a)) →
  (∀ a, a ∈ l → preserves K (f a)) →
  (∀ w, K0 w → K (f a0 w).2) →
  K0 r.1 → K (callAll f l r).1.
Proof.
  intros Hin H0 HK Hest. unfold callAll. revert r.
  induction l as [|a l IH]; intros r H; [by apply elem_of_nil in Hin|].
  simpl. apply elem_of_cons in Hin as [<-|Hin].
  - apply (callAll_preserves K f l); [intros b ?; apply HK; by right|].
    unfold call. specialize (Hest _ H). by destruct (f a0 r.1) as [[[]|x] w'].
  - apply IH; [done|intros b ?; apply H0; by right|intros b ?; apply HK; by right|].
    apply call_preserves; [apply H0; by left|done].
Qed.

(** The listeners of one target for one type keep an invariant that each
    of them keeps. *)
Lemma fire_preserves_on (P : World → Prop) t type e (r : Run) :
  (∀ l, l ∈ listeners r.1 → l_target l = t → l_type l = type →
        preserves P (handleEvent (l_handler l) e)) →
  P r.1 → P (fire t type e r).1.
Proof.
  intros Hh H. unfold fire. apply callAll_preserves; [|done].
  intros l Hl. unfold listeners_on in Hl.
  apply list_elem_of_In, filter_In in Hl as [Hl Hb].
  apply bool_decide_eq_true in Hb as [? ?]. apply Hh; [by apply list_elem_of_In|done..].
Qed.

(** ** The back-to-top control's "visible" flag *)

Lemma backToTop_handleScroll_run this w :
  BackToTop.handleScroll this w =
  match button this with
  | Some b =>
      (Ok tt,
       with_dom
         (insert b
            (with_classList
               (λ cs, if Js.gt (scrollY w) 500%float
                      then cs ∪ {["visible"]} else cs ∖ {["visible"]})
               (element w b))) w)
  | None => (Throw (TypeError "this.button"), w)
  end.
Proof.
  unfold BackToTop.handleScroll, mbind, M_bind, get; simpl.
  by destruct (Js.gt (scrollY w) 500%float), (button this).
Qed.

Section ButtonFlag.

Variable parseInt : option string → number.
Variable b : node.
Variable ls : list Listener.
Variable y : number.

Local Abbreviation at_y := (scrolled_to ls y).
Local Abbreviation in_step := (button_in_step ls b y).

Lemma backToTop_handleScroll_in_step this :
  button this = Some b → ∀ w, at_y w → in_step (BackToTop.handleScroll this w).2.
Proof.
  intros Hb w [Hl Hy]. rewrite backToTop_handleScroll_run, Hb. cbn [snd].
  split; [done|].
  rewrite element_insert, decide_True by done.
  cbn [classList with_classList]. rewrite Hy.
  destruct (Js.gt y 500%float); set_solver.
Qed.

Lemma handlers_button_in_step h e : preserves in_step (handleEvent h e).
Proof.
  destruct h as [| | | |this| | | | |];
    lazymatch goal with
    | |- preserves _ (handleEvent (Btt_handleScroll _) _) => idtac
    | |- _ =>
        unfold button_in_step, scrolled_to; unfold_script;
        by preserves_body in_step_leaf
    end.
  intros w [Hat Hq]. simpl. destruct (button this) as [m|] eqn:Hm.
  - destruct (decide (m = b)) as [->|Hne].
    + by apply backToTop_handleScroll_in_step.
    + rewrite backToTop_handleScroll_run, Hm. cbn [snd]. split; [done|].
      by rewrite element_insert, decide_False.
  - by rewrite backToTop_handleScroll_run, Hm.
Qed.

Lemma deliver_scroll_button_in_step this (r : Run) :
  mkListener OnWindow "scroll" (Btt_handleScroll this) ∈ ls →
  button this = Some b →
  listeners r.1 = ls →
  in_step (deliver parseInt (Scroll y) r).1.
Proof.
  intros Hin Hb Hl. simpl. unfold fire.
  apply (callAll_hands_over at_y in_step _ _
           (mkListener OnWindow "scroll" (Btt_handleScroll this))).
  - unfold listeners_on; simpl. rewrite Hl.
    apply list_elem_of_In, filter_In. split; [by apply list_elem_of_In|done].
  - intros l _. apply handlers_at_y.
  - intros l _. apply handlers_button_in_step.
  - intros w. by apply backToTop_handleScroll_in_step.
  - done.
Qed.

Lemma fade_handleIntersection_button_in_step es :
  existsb (reports b) es = false →
  preserves in_step (ScrollAnimations.handleIntersection es).
Proof.
  unfold ScrollAnimations.handleIntersection.
  induction es as [|e es IH]; intros Hes; simpl in *; [apply preserves_ret|].
  apply orb_false_iff in Hes as [He Hes].
  apply preserves_bind; [|intros _; by apply IH].
  unfold reports in He. destruct (isIntersecting e); [|apply preserves_ret].
  simpl in He. apply bool_decide_eq_false in He.
  unfold_script. apply preserves_modify. intros w [Hat Hq]. split; [done|].
  by rewrite element_insert, decide_False.
Qed.

Lemma deliverAll_button_in_step evs (r : Run) :
  forallb (leaves_alone b) evs = true →
  in_step r.1 → in_step (deliverAll parseInt evs r).1.
Proof.
  apply (deliverAll_preserves_allowed parseInt in_step ls (leaves_alone b)).
  - by intros w [[? ?] ?].
  - intros; apply handlers_button_in_step.
  - intros; unfold button_in_step, scrolled_to; unfold_script; preserves_body in_step_leaf.
  - intros; unfold button_in_step, scrolled_to; unfold_script; preserves_body in_step_leaf.
  - intros; unfold button_in_step, scrolled_to; unfold_script; preserves_body in_step_leaf.
  - intros; unfold button_in_step, scrolled_to; unfold_script; preserves_body in_step_leaf.
  - intros; unfold button_in_step, scrolled_to; unfold_script; preserves_body in_step_leaf.
  - intros es Hes. apply fade_handleIntersection_button_in_step.
    unfold leaves_alone in Hes; simpl in Hes. by apply negb_true_iff in Hes.
  - intros; unfold button_in_step, scrolled_to; unfold_script; preserves_body in_step_leaf.
  - intros ? ? Hev. done.
  - unfold button_in_step, scrolled_to; by intros; simpl in *; intuition.
  - unfold button_in_step, scrolled_to; by intros; simpl in *; intuition.
  - unfold button_in_step, scrolled_to; by intros; simpl in *; intuition.
  - unfold button_in_step, scrolled_to; by intros; simpl in *; intuition.
  - unfold button_in_step, scrolled_to; by intros; simpl in *; intuition.
Qed.

End ButtonFlag.

(** X2. On a page whose BackToTop listens to scrolls: after any events, a
    scroll to [y] and further events that neither scroll the page nor
    report the control to the ScrollAnimations as intersecting, the control
    carries "visible" exactly when [y > 500]. *)
Theorem back_to_top_visible_iff_above_500 parseInt (w : World) this b evs y evs' :
  mkListener OnWindow "scroll" (Btt_handleScroll this) ∈ listeners w →
  button this = Some b →
  forallb (leaves_alone b) evs' = true →
  "visible" ∈ classList
     (element (deliverAll parseInt (evs ++ Scroll y :: evs') (w, [])).1 b)
  ↔ Js.gt y 500%float = true.
Proof.
  intros Hin Hb Hevs'.
  rewrite deliverAll_app. change (Scroll y :: evs') with ([Scroll y] ++ evs').
  rewrite deliverAll_app.
  set (r := deliverAll parseInt evs (w, [])).
  apply (deliverAll_button_in_step parseInt b (listeners w) y evs' _ Hevs').
  apply (deliver_scroll_button_in_step parseInt b (listeners w) y this r Hin Hb).
  apply deliverAll_listeners.
Qed.

(** ** Lazy images: notifications and the end of a fetch *)

Lemma fetches_cons w img imgs : fetches w (img :: imgs) = fetches w [img] ++ fetches w imgs.
Proof. apply (omap_app _ [img] imgs). Qed.

Lemma lazy_handleIntersection_run entries w :
  ∃ w', LazyLoader.handleIntersection entries w = (Ok tt, w') ∧
        dom w' = dom w ∧
        preloads w' = preloads w ++ fetches w (intersecting entries) ∧
        lazy_observed w' = lazy_observed w ∖ list_to_set (intersecting entries).
Proof.
  unfold LazyLoader.handleIntersection, intersecting.
  revert w. induction entries as [|e es IH]; intros w.
  - exists w. simpl. rewrite app_nil_r. split; [done|]. split; [done|].
    split; [done|]. set_solver.
  - cbn [forEach List.filter]. unfold mbind at 1, M_bind at 1.
    destruct (isIntersecting e); [|apply IH].
    unfold mbind at 1, M_bind at 1. rewrite loadImage_run.
    unfold modify at 1. cbv beta iota.
    set (w1 := with_lazy_observed _ _).
    destruct (IH w1) as (w' & -> & Hdom & Hpre & Hobs).
    exists w'. split; [done|]. split; [done|]. split.
    + rewrite Hpre. subst w1. cbn [preloads with_lazy_observed with_preloads].
      rewrite <- app_assoc. f_equal.
      rewrite fmap_cons.
      rewrite (fetches_cons w (entry_target e)
                 (entry_target <$> List.filter isIntersecting es)).
      f_equal.
    + rewrite Hobs. subst w1. rewrite fmap_cons.
      cbn [lazy_observed with_lazy_observed with_preloads list_to_set]. set_solver.
Qed.

(** X3. A notification of the LazyLoader's observer never throws; it starts
    one fetch for each entry that is intersecting and whose target has a
    non-empty [data-src], in the order of the entries, and stops observing
    the target of every intersecting entry; entries that are not
    intersecting are skipped, and no element is changed. *)
Theorem lazy_notification_fetches_and_unobserves (entries : list Entry) (w : World) :
  let w' := exec (LazyLoader.handleIntersection entries) w in
  throws (LazyLoader.handleIntersection entries) w = false ∧
  preloads w' = preloads w ++ fetches w (intersecting entries) ∧
  lazy_observed w' = lazy_observed w ∖ list_to_set (intersecting entries) ∧
  dom w' = dom w.
Proof.
  cbv zeta. unfold throws, exec.
  by destruct (lazy_handleIntersection_run entries w) as (w' & -> & Hdom & Hpre & Hobs).
Qed.

(** X4. When the fetch of a deferred source succeeds, the image gets the
    source as its [src], is flagged "loaded" and loses its [data-src]; the
    fetch is no longer pending, nothing is thrown, and a later [loadImage]
    of the same image does nothing. *)
Theorem fetched_image_is_shown parseInt (w : World) (i : nat) (p : Preload) :
  preloads w !! i = Some p →
  let r := deliver parseInt (PreloadEnds i true) (w, []) in
  r.2 = [] ∧
  attributes (element r.1 (p_img p)) !! "src" = Some (p_src p) ∧
  hasClass r.1 (p_img p) "loaded" ∧
  attributes (element r.1 (p_img p)) !! "data-src" = None ∧
  preloads r.1 = delete i (preloads w) ∧
  LazyLoader.loadImage (p_img p) r.1 = (Ok tt, r.1).
Proof.
  intros Hp. cbv zeta. simpl. rewrite Hp.
  unfold call, LazyLoader.tempImg_onload. unfold_script. simpl.
  assert (Hattr : ∀ w0 : World,
    attributes (element
      (with_dom (insert (p_img p) (with_attributes (delete "data-src")
         (element w0 (p_img p)))) w0) (p_img p)) !! "data-src" = None).
  { intros w0. rewrite element_insert, decide_True by done. simpl.
    apply lookup_delete_eq. }
  split; [done|]. split; [|split; [|split; [|split]]].
  - rewrite !element_insert, !decide_True by done. simpl.
    rewrite lookup_delete_ne by done. apply lookup_insert_eq.
  - unfold hasClass. rewrite !element_insert, !decide_True by done. simpl.
    set_solver.
  - apply Hattr.
  - done.
  - by apply loadImage_without_source, Hattr.
Qed.

(** X5. When the fetch fails, the image is flagged "loaded" all the same and
    the failure is logged as an error naming the source; the image's
    attributes, [src] and [data-src] among them, are what they were, the
    fetch is no longer pending and nothing is thrown. *)
Theorem failed_image_is_marked_loaded parseInt (w : World) (i : nat) (p : Preload) :
  preloads w !! i = Some p →
  let r := deliver parseInt (PreloadEnds i false) (w, []) in
  r.2 = [] ∧
  hasClass r.1 (p_img p) "loaded" ∧
  attributes (element r.1 (p_img p)) = attributes (element w (p_img p)) ∧
  console r.1 = Log_error ("Failed to load image: " +:+ p_src p) :: console w ∧
  preloads r.1 = delete i (preloads w).
Proof.
  intros Hp. cbv zeta. simpl. rewrite Hp.
  unfold call, LazyLoader.tempImg_onerror. unfold_script. simpl.
  split; [done|]. split; [|split; [|done]].
  - unfold hasClass. rewrite element_insert, decide_True by done. simpl. set_solver.
  - rewrite element_insert, decide_True by done. done.
Qed.

(** ** The handlers behind the script's own listeners *)

Lemma own_listeners_handler (d : Document) (l : Listener) :
  l ∈ own_listeners d →
  l = mkListener OnWindow "scroll" (Nav_handleScroll (nav_of d)) ∨
  (∃ t, byId d !! "menuToggle" = Some t ∧
        l = mkListener (OnNode t) "click" (Nav_toggleMenu (nav_of d))) ∨
  (∃ link, link ∈ sel_nav_menu_a d ∧
        l = mkListener (OnNode link) "click" (Nav_linkClick (nav_of d))) ∨
  l = mkListener OnDocument "click" (Nav_documentClick (nav_of d)) ∨
  (∃ b, byId d !! "backToTop" = Some b ∧
        (l = mkListener OnWindow "scroll" (Btt_handleScroll {| button := Some b |}) ∨
         l = mkListener (OnNode b) "click" (Btt_scrollToTop {| button := Some b |}))) ∨
  (∃ link, link ∈ sel_a_href_hash d ∧
        l = mkListener (OnNode link) "click"
              (Smooth_handleClick {| links := sel_a_href_hash d |})) ∨
  (∃ h, sel_hero_img d = Some h ∧
        l = mkListener OnWindow "scroll" (Parallax_debounced {| heroImg := Some h |})) ∨
  l = mkListener OnWindow "load" Loading_onLoad ∨
  (∃ img, img ∈ sel_img d ∧ l = mkListener (OnNode img) "error" (Img_onError img)).
Proof.
  unfold own_listeners. rewrite !elem_of_app, !list_elem_of_fmap, !list_elem_of_singleton.
  intros [H|[H|[H|[H|[H|[H|[H|[H|H]]]]]]]].
  - by left.
  - right; left. destruct (byId d !! "menuToggle") as [t|]; [|by apply elem_of_nil in H].
    apply list_elem_of_singleton in H. by exists t.
  - right; right; left. destruct H as (link & -> & ?). by exists link.
  - by do 3 right; left.
  - do 4 right; left. destruct (byId d !! "backToTop") as [b|]; [|by apply elem_of_nil in H].
    exists b. split; [done|].
    apply elem_of_cons in H as [?|H]; [by left|].
    apply list_elem_of_singleton in H. by right.
  - do 5 right; left. destruct H as (link & -> & ?). by exists link.
  - do 6 right; left. destruct (sel_hero_img d) as [h|]; [|by apply elem_of_nil in H].
    apply list_elem_of_singleton in H. by exists h.
  - by do 7 right; left.
  - do 8 right. destruct H as (img & -> & ?). by exists img.
Qed.

(** The listeners of the initialised page for events other than clicks. *)
Lemma own_listeners_not_click (d : Document) (l : Listener) :
  l ∈ own_listeners d → l_type l ≠ "click" →
  (∃ this, l_handler l = Nav_handleScroll this) ∨
  (∃ this, l_handler l = Btt_handleScroll this) ∨
  (∃ this, l_handler l = Parallax_debounced this) ∨
  l_handler l = Loading_onLoad ∨
  (∃ img, l_handler l = Img_onError img).
Proof.
  intros Hl Hty. apply own_listeners_handler in Hl.
  destruct Hl as [->|[(?&?&->)|[(?&?&->)|[->|[(?&?&[->| ->])|[(?&?&->)|[(?&?&->)|[->|(?&?&->)]]]]]]]];
    simpl in *; try done; eauto 10.
Qed.

(** ** Only clicks move the page *)

Section NoProgrammaticScroll.

Variable parseInt : option string → number.
Variable calls : list number.
Variable prevented : bool.

Local Abbreviation untouched :=
  (λ w : World, scrollTo_calls w = calls ∧ defaultPrevented w = prevented).

Ltac untouched_body :=
  unfold_script; preserves_body ltac:(by simpl in * ).

Lemma own_listeners_untouched d l e :
  l ∈ own_listeners d → l_type l ≠ "click" →
  preserves untouched (handleEvent (l_handler l) e).
Proof.
  intros Hl Hty.
  destruct (own_listeners_not_click d l Hl Hty)
    as [[? ->]|[[? ->]|[[? ->]|[->|[? ->]]]]]; untouched_body.
Qed.

Lemma deliver_untouched d ev (r : Run) :
  listeners r.1 = own_listeners d → is_click ev = false →
  untouched r.1 → untouched (deliver parseInt ev r).1.
Proof.
  intros Hls Hev H. destruct ev; try done; simpl.
  - apply fire_preserves_on; [|done]. simpl. rewrite Hls.
    intros l Hl _ Hty. apply (own_listeners_untouched d); [done|by rewrite Hty].
  - apply fire_preserves_on; [|done]. rewrite Hls.
    intros l Hl _ Hty. apply (own_listeners_untouched d); [done|by rewrite Hty].
  - apply fire_preserves_on; [|done]. rewrite Hls.
    intros l Hl _ Hty. apply (own_listeners_untouched d); [done|by rewrite Hty].
  - apply call_preserves; [untouched_body|done].
  - apply call_preserves; [untouched_body|done].
  - apply call_preserves; [untouched_body|done].
  - apply callAll_preserves; [intros; untouched_body|done].
  - destruct (timers r.1 !! i) as [t|]; [|done].
    apply call_preserves; [destruct t; untouched_body|done].
  - destruct (preloads r.1 !! i); [|done].
    apply call_preserves; [destruct ok; untouched_body|done].
Qed.

End NoProgrammaticScroll.

Lemma initialised_listeners parseInt (w : World) evs :
  listeners w = [] →
  listeners (deliverAll parseInt evs (exec DOMContentLoaded w, [])).1
  = own_listeners (document w).
Proof.
  intros Hnil. rewrite deliverAll_listeners. cbn [fst].
  destruct (DOMContentLoaded_listeners w) as (_ & _ & ->). by rewrite Hnil.
Qed.

(** X6. On a page the script has initialised, no event other than a click
    calls [window.scrollTo] or suppresses a default action: whatever
    happened before, a scroll, a resize, a load, an image error, a
    notification of an observer, an animation frame, a timer or the end of
    a fetch leaves both as they were. *)
Theorem only_clicks_move_the_page parseInt (w : World) evs ev :
  listeners w = [] → is_click ev = false →
  let r := deliverAll parseInt evs (exec DOMContentLoaded w, []) in
  scrollTo_calls (deliver parseInt ev r).1 = scrollTo_calls r.1 ∧
  defaultPrevented (deliver parseInt ev r).1 = defaultPrevented r.1.
Proof.
  intros Hnil Hev r.
  apply (deliver_untouched parseInt _ _ (document w) ev r); [|done..].
  by apply initialised_listeners.
Qed.

(** ** The debounced parallax *)

Lemma filter_later_cleared ts :
  List.filter ParallaxEffect.is_later
    (List.filter (λ t, negb (ParallaxEffect.is_later t)) ts) = [].
Proof.
  induction ts as [|t ts IH]; [done|]. simpl.
  destruct (ParallaxEffect.is_later t) eqn:Ht; simpl; [done|]. by rewrite Ht.
Qed.

Lemma filter_delete_length {A} (p : A → bool) (i : nat) (l : list A) :
  (length (List.filter p (delete i l)) ≤ length (List.filter p l))%nat.
Proof.
  revert i. induction l as [|x l IH]; intros i; [by destruct i|].
  destruct i as [|i]; simpl.
  - destruct (p x); simpl; lia.
  - specialize (IH i). change (list_delete i l) with (delete i l).
    destruct (p x); simpl; lia.
Qed.

Lemma executedFunction_run this w :
  ParallaxEffect.executedFunction this w =
  (Ok tt,
   with_timers
     (λ ts, List.filter (λ t, negb (ParallaxEffect.is_later t)) ts ++ [T_later this]) w).
Proof. by destruct w. Qed.

Lemma later_run this w :
  ParallaxEffect.later this w =
  let w1 := with_timers (List.filter (λ t, negb (ParallaxEffect.is_later t))) w in
  if Js.lt (scrollY w) (innerHeight w) then
    match heroImg this with
    | Some h =>
        (Ok tt,
         with_dom
           (insert h
              (with_style (insert "transform" (CssTranslateY (scrollY w * 0.5)%float))
                 (element w1 h))) w1)
    | None => (Throw (TypeError "this.heroImg"), w1)
    end
  else (Ok tt, w1).
Proof.
  unfold ParallaxEffect.later, ParallaxEffect.func, ParallaxEffect.clearTimeout.
  unfold mbind, M_bind, get, modify, set_style, update_element, modify; cbn [scrollY innerHeight with_timers].
  destruct (Js.lt (scrollY w) (innerHeight w)); [|done].
  by destruct (heroImg this).
Qed.

Ltac debounced_leaf :=
  cbv beta in *;
  match goal with
  | H : _ ∧ _ |- _ ∧ _ =>
      let Hl := fresh in let Hc := fresh in
      destruct H as [Hl Hc]; split; [exact Hl|];
      first
        [ exact Hc
        | unfold pending_later; cbn [timers with_timers];
          rewrite filter_later_cleared; simpl; lia
        | unfold pending_later in *; cbn [timers with_timers];
          rewrite List.filter_app; simpl; rewrite app_nil_r; exact Hc ]
  end.

Section Debounced.

Variable parseInt : option string → number.
Variable ls : list Listener.

Lemma handlers_debounced h e : preserves (debounced ls) (handleEvent h e).
Proof.
  destruct h;
    lazymatch goal with
    | |- preserves _ (handleEvent (Parallax_debounced _) _) => idtac
    | |- _ => unfold debounced; unfold_script; by preserves_body debounced_leaf
    end.
  intros w [Hl _]. unfold handleEvent. rewrite executedFunction_run. split; [done|].
  unfold pending_later. cbn [snd timers with_timers].
  rewrite List.filter_app, filter_later_cleared. simpl. lia.
Qed.

Lemma timers_debounced t : preserves (debounced ls) (timerBody t).
Proof. destruct t; unfold debounced; unfold_script; by preserves_body debounced_leaf. Qed.

Lemma deliverAll_debounced evs (r : Run) :
  debounced ls r.1 → debounced ls (deliverAll parseInt evs r).1.
Proof.
  apply (deliverAll_preserves parseInt (debounced ls) ls).
  - by intros w [? ?].
  - intros; apply handlers_debounced.
  - apply timers_debounced.
  - intros; unfold debounced; unfold_script; preserves_body debounced_leaf.
  - intros; unfold debounced; unfold_script; preserves_body debounced_leaf.
  - intros; unfold debounced; unfold_script; preserves_body debounced_leaf.
  - intros; unfold debounced; unfold_script; preserves_body debounced_leaf.
  - intros; unfold debounced; unfold_script; preserves_body debounced_leaf.
  - by intros ? ? ? [? ?].
  - by intros ? [? ?].
  - by intros ? [? ?].
  - intros i w [Hl Hc]. split; [done|]. unfold pending_later in *.
    cbn [timers with_timers]. pose proof (filter_delete_length ParallaxEffect.is_later i (timers w)).
    lia.
  - by intros ? ? [? ?].
  - by intros ? ? [? ?].
  - intros; unfold debounced; unfold_script; preserves_body debounced_leaf.
Qed.

End Debounced.

(** Initialisation sets no timer, does not resize the viewport and leaves
    every transform alone. *)
Lemma DOMContentLoaded_at_rest ts h height s :
  preserves (λ w, timers w = ts ∧ innerHeight w = height ∧
                  style (element w h) !! "transform" = s) DOMContentLoaded.
Proof.
  unfold DOMContentLoaded. unfold_init. unfold_script. unfold addEventListener.
  preserves_body ltac:(
    cbv beta in *;
    match goal with
    | H : _ ∧ _ ∧ _ |- _ =>
        destruct H as (? & ? & ?); split; [done|]; split; [done|];
        first [ done
              | rewrite element_insert; case_decide; [subst; simpl|done];
                first [done | by rewrite lookup_insert_ne] ]
    end).
Qed.

(** X7. On a page the script has initialised from a state without timers,
    whatever events arrive, at most one call of the debounced parallax
    function is pending. *)
Theorem at_most_one_parallax_call_pending parseInt (w : World) evs :
  timers w = [] →
  (length (pending_later (deliverAll parseInt evs (exec DOMContentLoaded w, [])).1) ≤ 1)%nat.
Proof.
  intros Hts.
  apply (deliverAll_debounced parseInt (listeners (exec DOMContentLoaded w)) evs
           (exec DOMContentLoaded w, [])).
  split; [done|]. cbn [fst]. unfold pending_later, exec.
  destruct (DOMContentLoaded_at_rest [] 0%nat (innerHeight w)
              (style (element w 0%nat) !! "transform") w) as (-> & _); [done|].
  simpl. lia.
Qed.

Section ParallaxBurst.

Variable parseInt : option string → number.
Variable d : Document.
Variable h : node.
Variable height : number.
Variable s : option StyleVal.
Hypothesis hero : sel_hero_img d = Some h.

Local Abbreviation this := {| heroImg := Some h |}.
Local Abbreviation during := (scrolling (own_listeners d) h height s).

Lemma own_scroll_listener l :
  l ∈ own_listeners d → l_type l = "scroll" →
  (∃ nav, l_handler l = Nav_handleScroll nav) ∨
  (∃ btt, l_handler l = Btt_handleScroll btt) ∨
  l_handler l = Parallax_debounced this.
Proof.
  intros Hl Hty. apply own_listeners_handler in Hl.
  destruct Hl as [->|[(?&?&->)|[(?&?&->)|[->|[(?&?&[->| ->])|[(?&?&->)|[(?&Hh&->)|[->|(?&?&->)]]]]]]]];
    simpl in *; try done; eauto.
  rewrite hero in Hh. injection Hh as <-. by do 2 right.
Qed.

Lemma parallax_listens :
  mkListener OnWindow "scroll" (Parallax_debounced this) ∈ own_listeners d.
Proof.
  unfold own_listeners. rewrite hero, !elem_of_app.
  do 6 right. left. by apply list_elem_of_singleton.
Qed.

Lemma scroll_listener_during y T l e :
  (∀ ts, T ts → T (List.filter (λ t, negb (ParallaxEffect.is_later t)) ts ++ [T_later this])) →
  l ∈ own_listeners d → l_type l = "scroll" →
  preserves (during y T) (handleEvent (l_handler l) e).
Proof.
  intros HT Hl Hty.
  destruct (own_scroll_listener l Hl Hty) as [[nav ->]|[[btt ->]| ->]].
  - unfold scrolling, parallax_at_rest. unfold_script.
    preserves_body ltac:(
      cbv beta in *;
      match goal with
      | H : (_ ∧ _ ∧ _) ∧ _ |- _ =>
          destruct H as ((? & ? & ?) & ?); split; [|done];
          split; [done|]; split; [done|];
          first [done | rewrite element_insert; case_decide; [by subst|done]]
      end).
  - unfold scrolling, parallax_at_rest. unfold_script.
    preserves_body ltac:(
      cbv beta in *;
      match goal with
      | H : (_ ∧ _ ∧ _) ∧ _ |- _ =>
          destruct H as ((? & ? & ?) & ?); split; [|done];
          split; [done|]; split; [done|];
          first [done | rewrite element_insert; case_decide; [by subst|done]]
      end).
  - intros w (Hrest & Hy & Hts). unfold handleEvent. rewrite executedFunction_run.
    split; [done|]. split; [done|]. by apply HT.
Qed.

Lemma deliver_scroll_arms y (r : Run) :
  parallax_at_rest (own_listeners d) h height s r.1 →
  idle_or_armed this (timers r.1) →
  during y (armed this) (deliver parseInt (Scroll y) r).1.
Proof.
  intros Hrest Hts. simpl. unfold fire.
  apply (callAll_hands_over (during y (idle_or_armed this)) (during y (armed this)) _ _
           (mkListener OnWindow "scroll" (Parallax_debounced this))).
  - unfold listeners_on. cbn [fst listeners with_scrollY].
    destruct Hrest as (-> & _).
    apply list_elem_of_In, filter_In. split; [apply list_elem_of_In, parallax_listens|done].
  - intros l Hl. unfold listeners_on in Hl. cbn [fst listeners with_scrollY] in Hl.
    destruct Hrest as (Hls & _). rewrite Hls in Hl.
    apply list_elem_of_In, filter_In in Hl as [Hl Hb].
    apply bool_decide_eq_true in Hb as [_ Hty].
    apply scroll_listener_during; [|by apply list_elem_of_In|done].
    intros ts [->| ->]; by right.
  - intros l Hl. unfold listeners_on in Hl. cbn [fst listeners with_scrollY] in Hl.
    destruct Hrest as (Hls & _). rewrite Hls in Hl.
    apply list_elem_of_In, filter_In in Hl as [Hl Hb].
    apply bool_decide_eq_true in Hb as [_ Hty].
    apply scroll_listener_during; [|by apply list_elem_of_In|done].
    by intros ts ->.
  - intros w (Hr & Hy & Ht). cbn [l_handler]. unfold handleEvent.
    rewrite executedFunction_run. split; [done|]. split; [done|].
    cbn [snd timers with_timers]. by destruct Ht as [->| ->].
  - done.
Qed.

Lemma deliverAll_scrolls ys (r : Run) :
  parallax_at_rest (own_listeners d) h height s r.1 →
  idle_or_armed this (timers r.1) →
  parallax_at_rest (own_listeners d) h height s
    (deliverAll parseInt (Scroll <$> ys) r).1 ∧
  idle_or_armed this (timers (deliverAll parseInt (Scroll <$> ys) r).1).
Proof.
  unfold deliverAll. revert r.
  induction ys as [|y ys IH]; intros r Hrest Hts; [done|].
  cbn [fmap list_fmap foldl].
  destruct (deliver_scroll_arms y r Hrest Hts) as (Hrest' & _ & Hts').
  apply IH; [done|by right].
Qed.

Lemma timer_applies_scroll y (r : Run) :
  during y (armed this) r.1 →
  let r' := deliver parseInt (TimerFires 0) r in
  timers r'.1 = [] ∧
  style (element r'.1 h) !! "transform" =
    if Js.lt y height then Some (CssTranslateY (y * 0.5)%float) else s.
Proof.
  intros ((Hls & Hh & Hs) & Hy & Hts). cbv zeta. simpl. rewrite Hts. simpl.
  unfold call. rewrite later_run. cbv zeta.
  cbn [scrollY innerHeight with_timers fst heroImg]. rewrite Hy, Hh.
  destruct (Js.lt y height); cbn [fst timers with_timers with_dom].
  - rewrite Hts. split; [done|].
    rewrite element_insert, decide_True by done. cbn [style with_style].
    apply lookup_insert_eq.
  - rewrite Hts. split; [done|]. exact Hs.
Qed.

End ParallaxBurst.

(** X8. The parallax is debounced on its trailing edge.  On a page with a
    hero image, initialised from a state without listeners or timers, a
    burst of scrolls leaves exactly one call pending and the image's
    transform as it was; when the timer then fires, no call is pending and
    the transform is the translation by half the last scroll position of
    the burst if that position is below the viewport's height, and is
    unchanged otherwise. *)
Theorem parallax_follows_last_scroll parseInt (w : World) (h : node) ys y :
  listeners w = [] → timers w = [] → sel_hero_img (document w) = Some h →
  let r := deliverAll parseInt (Scroll <$> (ys ++ [y])) (exec DOMContentLoaded w, []) in
  let r' := deliver parseInt (TimerFires 0) r in
  (timers r.1 = [T_later {| heroImg := Some h |}] ∧
   style (element r.1 h) !! "transform" = style (element w h) !! "transform") ∧
  (timers r'.1 = [] ∧
   style (element r'.1 h) !! "transform" =
     if Js.lt y (innerHeight w) then Some (CssTranslateY (y * 0.5)%float)
     else style (element w h) !! "transform").
Proof.
  intros Hnil Hts Hhero.
  destruct (DOMContentLoaded_at_rest [] h (innerHeight w)
              (style (element w h) !! "transform") w) as (Ht0 & Hh0 & Hs0); [done|].
  destruct (DOMContentLoaded_listeners w) as (_ & _ & Hls). rewrite Hnil in Hls.
  rewrite fmap_app, deliverAll_app.
  set (r0 := deliverAll parseInt (Scroll <$> ys) (exec DOMContentLoaded w, [])).
  destruct (deliverAll_scrolls parseInt (document w) h (innerHeight w)
              (style (element w h) !! "transform") Hhero ys (exec DOMContentLoaded w, []))
    as [Hrest Hidle]; [done|by left|].
  fold r0 in Hrest, Hidle.
  pose proof (deliver_scroll_arms parseInt (document w) h (innerHeight w)
                (style (element w h) !! "transform") Hhero y r0 Hrest Hidle) as Harmed.
  change (deliverAll parseInt (Scroll <$> [y]) r0) with (deliver parseInt (Scroll y) r0).
  intros r r'. split.
  - destruct Harmed as ((_ & _ & Hs) & _ & Ht). done.
  - apply (timer_applies_scroll parseInt (document w) h (innerHeight w)
             (style (element w h) !! "transform") y r Harmed).
Qed.

(** ** The mobile menu: clicks outside, and what stays true *)

Section MenuConsistent.

Variable this : NavigationT.
Variables t m : node.
Hypothesis toggle_is : menuToggle this = Some t.
Hypothesis menu_is : navMenu this = Some m.
Hypothesis distinct : t ≠ m.

Lemma documentClick_run e w :
  Navigation.documentClick this e w =
  if Js.le (innerWidth w) 768%float then
    if contains m e then (Ok tt, w) else
    if contains t e then (Ok tt, w) else
    if bool_decide ("active" ∈ classList (element w m))
    then Navigation.closeMenu this w else (Ok tt, w)
  else (Ok tt, w).
Proof.
  unfold Navigation.documentClick. rewrite toggle_is, menu_is.
  unfold mbind, M_bind, get, classList_contains, get; simpl.
  destruct (Js.le _ _); [|done]. destruct (contains m e); [done|].
  destruct (contains t e); [done|]. by destruct (bool_decide _).
Qed.

Lemma closeMenu_toggle w :
  ¬ hasClass (exec (Navigation.closeMenu this) w) t "active".
Proof.
  unfold exec. rewrite (closeMenu_run this t m toggle_is menu_is). cbn [snd].
  unfold hasClass. rewrite classList_after_style.
  rewrite element_insert, decide_False by done.
  rewrite element_insert, decide_True by done. cbn [classList with_classList].
  set_solver.
Qed.

Lemma closeMenu_consistent w :
  menu_consistent t m (exec (Navigation.closeMenu this) w).
Proof.
  destruct (closeMenu_menu this t m toggle_is menu_is distinct w) as (_ & Hm & Hb).
  pose proof (closeMenu_toggle w) as Ht.
  split; [tauto|]. rewrite Hb. split; [done|tauto].
Qed.

Lemma toggleMenu_toggle w :
  hasClass (exec (Navigation.toggleMenu this) w) t "active" ↔ ¬ hasClass w t "active".
Proof.
  unfold exec. rewrite (toggleMenu_run this t m toggle_is menu_is). cbn [snd].
  unfold hasClass. rewrite classList_after_style.
  rewrite element_insert, decide_False by done.
  rewrite element_insert, decide_True by done. cbn [classList with_classList].
  case_decide; set_solver.
Qed.

Lemma toggleMenu_consistent w :
  menu_consistent t m w → menu_consistent t m (exec (Navigation.toggleMenu this) w).
Proof.
  intros [Hsync _].
  destruct (toggleMenu_menu this t m toggle_is menu_is distinct w) as (_ & Hm & Hb).
  pose proof (toggleMenu_toggle w) as Ht.
  split; [tauto|]. rewrite Hb, Hm. unfold hasClass.
  case_bool_decide; split; try done; tauto.
Qed.

Lemma linkClick_consistent w :
  menu_consistent t m w → menu_consistent t m (exec (Navigation.linkClick this) w).
Proof.
  intros Hc. unfold exec. rewrite (linkClick_run this).
  destruct (Js.le _ _); [apply closeMenu_consistent|done].
Qed.

Lemma documentClick_consistent e w :
  menu_consistent t m w → menu_consistent t m (exec (Navigation.documentClick this e) w).
Proof.
  intros Hc. unfold exec. rewrite documentClick_run.
  destruct (Js.le _ _); [|done]. destruct (contains m e); [done|].
  destruct (contains t e); [done|].
  destruct (bool_decide _); [apply closeMenu_consistent|done].
Qed.

End MenuConsistent.

(** X9. A click on the document, in a viewport at most 768 wide, outside
    the menu and outside the toggle, while the menu is open, closes the
    menu: neither the menu nor the toggle is "active" afterwards and the
    body's overflow is restored.  A click inside the menu or the toggle, a
    click in a wider viewport, and a click while the menu is closed change
    nothing. *)
Theorem outside_click_closes_menu (this : NavigationT) (t m : node) (e : Event) (w : World) :
  menuToggle this = Some t → navMenu this = Some m → t ≠ m →
  (Js.le (innerWidth w) 768%float = true →
   contains m e = false → contains t e = false → hasClass w m "active" →
     throws (Navigation.documentClick this e) w = false ∧
     ¬ hasClass (exec (Navigation.documentClick this e) w) m "active" ∧
     ¬ hasClass (exec (Navigation.documentClick this e) w) t "active" ∧
     body_overflow (exec (Navigation.documentClick this e) w) = Some (CssStr "")) ∧
  (Js.le (innerWidth w) 768%float = false ∨
   contains m e = true ∨ contains t e = true ∨ ¬ hasClass w m "active" →
     Navigation.documentClick this e w = (Ok tt, w)).
Proof.
  intros Ht Hm Hne. split.
  - intros Hw Hcm Hct Hopen. unfold throws, exec.
    rewrite (documentClick_run this t m Ht Hm), Hw, Hcm, Hct.
    rewrite bool_decide_true by done.
    destruct (closeMenu_menu this t m Ht Hm Hne w) as (Hok & Hclosed & Hb).
    split; [done|]. split; [done|]. split; [|done].
    apply (closeMenu_toggle this t m Ht Hm Hne w).
  - intros Hcase. rewrite (documentClick_run this t m Ht Hm).
    destruct (Js.le _ _); [|done]. destruct (contains m e); [done|].
    destruct (contains t e); [done|].
    destruct Hcase as [?|[?|[?|Hclosed]]]; try done.
    by rewrite bool_decide_false.
Qed.

(** An assignment to an element keeps the menu consistent when it touches
    neither the class "active" nor the overflow. *)
Lemma menu_consistent_after t m n (F : Element → Element) w :
  (∀ e, "active" ∈ classList (F e) ↔ "active" ∈ classList e) →
  (∀ e, style (F e) !! "overflow" = style e !! "overflow") →
  menu_consistent t m w →
  menu_consistent t m (with_dom (insert n (F (element w n))) w).
Proof.
  intros Hc Hs. unfold menu_consistent, hasClass, body_overflow. cbn [document with_dom].
  assert (Hclass : ∀ x, "active" ∈ classList
            (element (with_dom (insert n (F (element w n))) w) x)
            ↔ "active" ∈ classList (element w x)).
  { intros x. rewrite element_insert. case_decide; [subst; apply Hc|done]. }
  assert (Hstyle : style (element (with_dom (insert n (F (element w n))) w)
                            (body (document w))) !! "overflow"
                   = style (element w (body (document w))) !! "overflow").
  { rewrite element_insert. case_decide; [subst; apply Hs|done]. }
  by rewrite !Hclass, Hstyle.
Qed.

Ltac menu_leaf :=
  cbv beta in *;
  match goal with
  | H : _ ∧ _ ∧ _ |- _ =>
      let Hl := fresh in let Hd := fresh in let Hm := fresh in
      destruct H as (Hl & Hd & Hm); split; [exact Hl|]; split; [exact Hd|];
      first
        [ exact Hm
        | apply menu_consistent_after;
          [ intros ?; cbn [classList with_classList with_style with_attributes
                           with_textContent]; set_solver
          | intros ?; cbn [style with_classList with_style with_attributes
                           with_textContent]; by rewrite ?lookup_insert_ne
          | exact Hm ] ]
  end.

Section MenuPage.

Variable parseInt : option string → number.
Variable d : Document.
Variables t m : node.
Hypothesis toggle_is : byId d !! "menuToggle" = Some t.
Hypothesis menu_is : byId d !! "navMenu" = Some m.
Hypothesis distinct : t ≠ m.

Local Abbreviation kept := (menu_page (own_listeners d) d t m).

Lemma nav_kept (body : M unit) :
  (∀ w, menu_consistent t m w → menu_consistent t m (exec body w)) →
  (∀ w, listeners (exec body w) = listeners w ∧ document (exec body w) = document w) →
  preserves kept body.
Proof.
  intros Hc Hsame w (Hl & Hd & Hm). destruct (Hsame w) as [Hl' Hd'].
  unfold exec in *. split; [congruence|]. split; [congruence|]. by apply Hc.
Qed.

Lemma handleEvent_same_page h e ls d' :
  preserves (λ w, listeners w = ls ∧ document w = d') (handleEvent h e).
Proof. destruct h; unfold_script; preserves_body ltac:(by simpl in * ). Qed.

Lemma own_handlers_kept l e :
  l ∈ own_listeners d → preserves kept (handleEvent (l_handler l) e).
Proof.
  intros Hl. apply own_listeners_handler in Hl.
  assert (Hsame : ∀ h, ∀ w,
            listeners (exec (handleEvent h e) w) = listeners w ∧
            document (exec (handleEvent h e) w) = document w).
  { intros h w. by apply (handleEvent_same_page h e (listeners w) (document w) w). }
  destruct Hl as [->|[(?&?&->)|[(?&?&->)|[->|[(?&?&[->| ->])|[(?&?&->)|[(?&?&->)|[->|(?&?&->)]]]]]]]];
    cbn [l_handler];
    lazymatch goal with
    | |- preserves _ (handleEvent (Nav_toggleMenu _) _) =>
        apply nav_kept; [|apply Hsame];
        apply (toggleMenu_consistent (nav_of d) t m toggle_is menu_is distinct)
    | |- preserves _ (handleEvent (Nav_linkClick _) _) =>
        apply nav_kept; [|apply Hsame];
        apply (linkClick_consistent (nav_of d) t m toggle_is menu_is distinct)
    | |- preserves _ (handleEvent (Nav_documentClick _) _) =>
        apply nav_kept; [|apply Hsame];
        apply (documentClick_consistent (nav_of d) t m toggle_is menu_is distinct)
    | |- _ =>
        unfold menu_page; unfold_script; preserves_body menu_leaf
    end.
Qed.

Lemma deliverAll_kept evs (r : Run) : kept r.1 → kept (deliverAll parseInt evs r).1.
Proof.
  apply (deliverAll_preserves parseInt kept (own_listeners d)).
  - by intros w (? & ?).
  - intros l e Hl. by apply own_handlers_kept.
  - intros; unfold menu_page; unfold_script; preserves_body menu_leaf.
  - intros; unfold menu_page; unfold_script; preserves_body menu_leaf.
  - intros; unfold menu_page; unfold_script; preserves_body menu_leaf.
  - intros; unfold menu_page; unfold_script; preserves_body menu_leaf.
  - intros; unfold menu_page; unfold_script; preserves_body menu_leaf.
  - intros; unfold menu_page; unfold_script; preserves_body menu_leaf.
  - by intros ? ? ? (? & ? & ?).
  - by intros ? (? & ? & ?).
  - by intros ? (? & ? & ?).
  - by intros ? ? (? & ? & ?).
  - by intros ? ? (? & ? & ?).
  - by intros ? ? (? & ? & ?).
  - intros; unfold menu_page; unfold_script; preserves_body menu_leaf.
Qed.

End MenuPage.

Lemma DOMContentLoaded_consistent d t m :
  preserves (λ w, True ∧ document w = d ∧ menu_consistent t m w) DOMContentLoaded.
Proof.
  unfold DOMContentLoaded. unfold_init. unfold_script. unfold addEventListener.
  preserves_body menu_leaf.
Qed.

(** X10. On a page with a toggle and a menu, initialised from a state
    without listeners in which the menu is consistent (the toggle and the
    menu are "active" together, and the body's overflow is "hidden" exactly
    while they are): the menu is consistent after initialisation and after
    every sequence of events. *)
Theorem menu_stays_consistent parseInt (w : World) (t m : node) evs :
  listeners w = [] →
  byId (document w) !! "menuToggle" = Some t →
  byId (document w) !! "navMenu" = Some m →
  t ≠ m →
  menu_consistent t m w →
  menu_consistent t m (deliverAll parseInt evs (exec DOMContentLoaded w, [])).1.
Proof.
  intros Hnil Ht Hm Hne Hc.
  apply (deliverAll_kept parseInt (document w) t m Ht Hm Hne evs
           (exec DOMContentLoaded w, [])).
  destruct (DOMContentLoaded_listeners w) as (_ & Hd & Hl). rewrite Hnil in Hl.
  split; [done|]. split; [done|].
  by apply (DOMContentLoaded_consistent (document w) t m w).
Qed.

(** ** A counter without a numeric target *)

(** X12. When [parseInt] of the element's [data-target] is NaN (the
    attribute is missing or does not start with a number), [animateCounter]
    shows NaN at once and schedules no animation step. *)
Theorem counter_without_number_shows_nan parseInt (el : node) (w : World) :
  parseInt (attributes (element w el) !! "data-target") = nan →
  let w' := exec (StatsCounter.animateCounter parseInt el) w in
  throws (StatsCounter.animateCounter parseInt el) w = false ∧
  textContent (element w' el) = TextNum nan ∧
  frames w' = frames w.
Proof.
  intros Hnan. cbv zeta. unfold throws, exec.
  unfold StatsCounter.animateCounter. cbv zeta.
  unfold mbind, M_bind, modify, getAttribute, get.
  cbn [attributes element with_started dom]. 
  change (element (with_started (λ h, h ++ [el]) w) el) with (element w el).
  rewrite Hnan, updateCounter_run. cbv zeta. cbn [c_current c_increment c_target c_element].
  assert (Hlt : Js.lt (0 + nan / (2000 / 16))%float nan = false) by (by vm_compute).
  rewrite Hlt. cbn [fst snd]. split; [done|].
  rewrite element_insert, decide_True by done. done.
Qed.

(** ** The loading screen *)

Lemma filter_none {A} (p : A → bool) (l : list A) :
  (∀ x, x ∈ l → p x = false) → List.filter p l = [].
Proof.
  induction l as [|x l IH]; intros Hp; [done|]. simpl.
  rewrite (Hp x) by left. apply IH. intros y Hy. apply Hp. by right.
Qed.

Lemma load_listeners (d : Document) (w : World) :
  listeners w = own_listeners d →
  listeners_on OnWindow "load" w = [mkListener OnWindow "load" Loading_onLoad].
Proof.
  intros Hl. unfold listeners_on. rewrite Hl. unfold own_listeners.
  rewrite !List.filter_app.
  rewrite (filter_none _ (_ <$> sel_nav_menu_a d)),
          (filter_none _ (_ <$> sel_a_href_hash d)),
          (filter_none _ (_ <$> sel_img d));
    try (intros l (x & -> & _)%list_elem_of_fmap; done).
  by destruct (byId d !! "menuToggle"), (byId d !! "backToTop"), (sel_hero_img d).
Qed.

Lemma element_timers f w n : element (with_timers f w) n = element w n.
Proof. done. Qed.

Lemma onLoad_run w :
  LoadingScreen.onLoad w =
  let b := body (document w) in
  let w1 := with_dom (insert b (with_classList (λ cs, cs ∪ {["loaded"]}) (element w b))) w in
  (Ok tt,
   match sel_page_loader (document w) with
   | Some l => with_timers (λ ts, ts ++ [T_fadeLoader l]) w1
   | None => w1
   end).
Proof.
  unfold LoadingScreen.onLoad, mbind, M_bind, get, classList_add, update_element, modify.
  cbn [document with_dom]. by destruct (sel_page_loader (document w)).
Qed.

Lemma DOMContentLoaded_timers ts det :
  preserves (λ w, timers w = ts ∧ detached w = det) DOMContentLoaded.
Proof.
  unfold DOMContentLoaded. unfold_init. unfold_script. unfold addEventListener.
  preserves_body ltac:(by simpl in * ).
Qed.

Lemma fadeLoader_run l w :
  LoadingScreen.fadeLoader l w =
  (Ok tt,
   with_timers (λ ts, ts ++ [T_removeLoader l])
     (with_dom (insert l (with_style (insert "opacity" (CssStr "0")) (element w l))) w)).
Proof. done. Qed.

(** The first pending timer fires. *)
Lemma deliver_first_timer parseInt t ts w rs :
  timers w = t :: ts →
  deliver parseInt (TimerFires 0) (w, rs) =
  call (timerBody t) (with_timers (delete 0%nat) w, rs).
Proof. intros Hts. cbn [deliver fst snd]. by rewrite Hts. Qed.

(** X13. On a page initialised from a state without listeners or timers,
    the window's load event flags the body "loaded" without throwing.  With
    a [.page-loader] element it sets one timer: when that fires the
    loader's opacity becomes "0" and a second timer is set, and when the
    second fires the loader is removed and no timer is left.  Without such
    an element no timer is set. *)
Theorem loader_fades_then_leaves parseInt (w : World) :
  listeners w = [] → timers w = [] →
  let b := body (document w) in
  let r1 := deliver parseInt Load (exec DOMContentLoaded w, []) in
  let r2 := deliver parseInt (TimerFires 0) r1 in
  let r3 := deliver parseInt (TimerFires 0) r2 in
  hasClass r1.1 b "loaded" ∧ r1.2 = [] ∧
  match sel_page_loader (document w) with
  | Some l =>
      timers r1.1 = [T_fadeLoader l] ∧ detached r1.1 = detached w ∧
      timers r2.1 = [T_removeLoader l] ∧
      style (element r2.1 l) !! "opacity" = Some (CssStr "0") ∧
      detached r2.1 = detached w ∧
      timers r3.1 = [] ∧ detached r3.1 = detached w ∪ {[l]} ∧ r3.2 = []
  | None => timers r1.1 = []
  end.
Proof.
  intros Hnil Hts.
  destruct (DOMContentLoaded_listeners w) as (_ & Hd & Hl). rewrite Hnil in Hl.
  destruct (DOMContentLoaded_timers [] (detached w) w) as [Ht0 Hdet0]; [done|].
  fold (exec DOMContentLoaded w) in Ht0, Hdet0.
  set (page := exec DOMContentLoaded w) in *. clearbody page.
  cbv zeta.
  assert (Hr1 : deliver parseInt Load (page, []) = ((LoadingScreen.onLoad page).2, [])).
  { cbn [deliver]. unfold fire. rewrite (load_listeners (document w)) by done.
    unfold callAll. cbn [foldl l_handler handleEvent]. unfold call.
    cbn [fst snd]. by rewrite onLoad_run. }
  rewrite Hr1, onLoad_run. cbv zeta. cbn [fst snd]. rewrite Hd.
  split.
  { unfold hasClass. destruct (sel_page_loader (document w));
      rewrite ?element_timers, element_insert, decide_True by done;
      simpl; set_solver. }
  split; [done|].
  destruct (sel_page_loader (document w)) as [l|]; [|done].
  set (w1 := with_timers _ _).
  assert (Ht1 : timers w1 = [T_fadeLoader l]).
  { subst w1. cbn [timers with_timers with_dom]. by rewrite Ht0. }
  assert (Hdet1 : detached w1 = detached w) by done.
  split; [done|]. split; [done|].
  rewrite (deliver_first_timer parseInt _ [] w1 [] Ht1).
  unfold call. cbn [timerBody fst snd]. rewrite fadeLoader_run.
  set (w2 := with_timers _ (with_dom _ _)).
  assert (Ht2 : timers w2 = [T_removeLoader l]).
  { subst w2. cbn [timers with_timers with_dom]. by rewrite Ht1. }
  assert (Hdet2 : detached w2 = detached w) by done.
  assert (Hop2 : style (element w2 l) !! "opacity" = Some (CssStr "0")).
  { subst w2. rewrite element_timers, element_insert, decide_True by done.
    cbn [style with_style]. apply lookup_insert_eq. }
  split; [done|]. split; [done|]. split; [done|].
  rewrite (deliver_first_timer parseInt _ [] w2 [] Ht2).
  unfold call. cbn [timerBody fst snd]. unfold LoadingScreen.removeLoader, modify.
  cbn [fst snd timers detached with_detached with_timers]. rewrite Ht2, Hdet2.
  done.
Qed.

(** ** Images that fail to load *)

Ltac hidden_leaf :=
  cbv beta in *;
  match goal with
  | H : _ ∧ _ |- _ ∧ _ =>
      let Hl := fresh in let Hs := fresh in
      destruct H as [Hl Hs]; split; [exact Hl|];
      first
        [ exact Hs
        | rewrite element_insert; case_decide; [subst; cbn [style with_classList
            with_style with_attributes with_textContent]|exact Hs];
          first [exact Hs | by rewrite lookup_insert_ne | by rewrite lookup_insert_eq] ]
  end.

Section HiddenImage.

Variable parseInt : option string → number.
Variable img : node.
Variable ls : list Listener.

Lemma handlers_hidden h e : preserves (hidden ls img) (handleEvent h e).
Proof. destruct h; unfold hidden; unfold_script; by preserves_body hidden_leaf. Qed.

Lemma handlers_listeners h e : preserves (λ w, listeners w = ls) (handleEvent h e).
Proof. destruct h; unfold_script; preserves_body ltac:(by simpl in * ). Qed.

Lemma img_onError_hides w :
  listeners w = ls → hidden ls img (img_onError img w).2.
Proof.
  intros Hl. unfold img_onError. unfold_script. split; [done|].
  cbn [snd]. unfold mbind, M_bind, modify, get. cbn [snd].
  change (element (with_console ?f ?w) ?n) with (element w n).
  rewrite element_insert, decide_True by done. cbn [style with_style].
  apply lookup_insert_eq.
Qed.

Lemma deliver_error_hides (r : Run) :
  mkListener (OnNode img) "error" (Img_onError img) ∈ ls →
  listeners r.1 = ls →
  hidden ls img (deliver parseInt (ImageError img) r).1.
Proof.
  intros Hin Hl. cbn [deliver]. unfold fire.
  apply (callAll_hands_over (λ w, listeners w = ls) (hidden ls img) _ _
           (mkListener (OnNode img) "error" (Img_onError img))).
  - unfold listeners_on. rewrite Hl.
    apply list_elem_of_In, filter_In. split; [by apply list_elem_of_In|].
    by apply bool_decide_eq_true.
  - intros l _. apply handlers_listeners.
  - intros l _. apply handlers_hidden.
  - intros w. apply img_onError_hides.
  - done.
Qed.

Lemma deliverAll_hidden evs (r : Run) :
  hidden ls img r.1 → hidden ls img (deliverAll parseInt evs r).1.
Proof.
  apply (deliverAll_preserves parseInt (hidden ls img) ls).
  - by intros w [? ?].
  - intros; apply handlers_hidden.
  - intros; unfold hidden; unfold_script; preserves_body hidden_leaf.
  - intros; unfold hidden; unfold_script; preserves_body hidden_leaf.
  - intros; unfold hidden; unfold_script; preserves_body hidden_leaf.
  - intros; unfold hidden; unfold_script; preserves_body hidden_leaf.
  - intros; unfold hidden; unfold_script; preserves_body hidden_leaf.
  - intros; unfold hidden; unfold_script; preserves_body hidden_leaf.
  - by intros ? ? ? [? ?].
  - by intros ? [? ?].
  - by intros ? [? ?].
  - by intros ? ? [? ?].
  - by intros ? ? [? ?].
  - by intros ? ? [? ?].
  - intros; unfold hidden; unfold_script; preserves_body hidden_leaf.
Qed.

End HiddenImage.

(** X14. An image of the document that fails to load is hidden for good: on
    the initialised page, after any events, an error event of the image and
    any further events, the image's [display] is "none". *)
Theorem broken_image_stays_hidden parseInt (w : World) (img : node) evs evs' :
  img ∈ sel_img (document w) →
  style (element
           (deliverAll parseInt (evs ++ ImageError img :: evs')
              (exec DOMContentLoaded w, [])).1 img) !! "display"
  = Some (CssStr "none").
Proof.
  intros Himg.
  rewrite deliverAll_app. change (ImageError img :: evs') with ([ImageError img] ++ evs').
  rewrite deliverAll_app.
  set (r := deliverAll parseInt evs (exec DOMContentLoaded w, [])).
  apply (deliverAll_hidden parseInt img (listeners (exec DOMContentLoaded w)) evs').
  apply (deliver_error_hides parseInt img (listeners (exec DOMContentLoaded w)) r).
  - destruct (DOMContentLoaded_listeners w) as (_ & _ & ->).
    apply elem_of_app. right. unfold own_listeners. rewrite !elem_of_app.
    do 8 right. apply list_elem_of_fmap. by exists img.
  - apply deliverAll_listeners.
Qed.

(** ** The observers, and the fallbacks without them *)

Lemma observe_all_run (imgs : list node) w :
  forEach imgs (λ img, modify (with_lazy_observed (λ s, s ∪ {[img]}))) w =
  (Ok tt, with_lazy_observed (λ s, s ∪ list_to_set imgs) w).
Proof.
  revert w. induction imgs as [|x l IH]; intros w.
  - simpl. unfold mret, M_ret. f_equal. destruct w. unfold with_lazy_observed; simpl.
    f_equal. set_solver.
  - simpl. unfold mbind, M_bind, modify. rewrite IH. f_equal.
    destruct w. unfold with_lazy_observed; simpl. f_equal. set_solver.
Qed.

(** X15. [new LazyLoader()] never throws and changes no element.  With
    IntersectionObserver it starts to observe every [.lazy-img] image and
    fetches nothing yet; without it, it observes nothing and at once starts
    the fetch of every such image that has a non-empty [data-src], in
    document order. *)
Theorem lazy_loader_observes_or_fetches (w : World) :
  let w' := exec LazyLoader.constructor w in
  let imgs := sel_lazy_img (document w) in
  throws LazyLoader.constructor w = false ∧ dom w' = dom w ∧
  if hasIntersectionObserver w
  then lazy_observed w' = lazy_observed w ∪ list_to_set imgs ∧ preloads w' = preloads w
  else lazy_observed w' = lazy_observed w ∧ preloads w' = preloads w ++ fetches w imgs.
Proof.
  cbv zeta. unfold throws, exec, LazyLoader.constructor, LazyLoader.init,
    LazyLoader.loadAllImages.
  unfold mbind, M_bind, get. cbn [ll_images].
  destruct (hasIntersectionObserver w).
  - rewrite observe_all_run. done.
  - destruct (loadAllImages_run (sel_lazy_img (document w)) w) as (w' & Hrun & Hdom & Hpre).
    assert (Hobs : lazy_observed
               (forEach (sel_lazy_img (document w)) LazyLoader.loadImage w).2
             = lazy_observed w).
    { apply (preserves_forEach (λ w', lazy_observed w' = lazy_observed w)); [|done].
      intros img w0 H0. by rewrite loadImage_run. }
    rewrite Hrun in Hobs |- *. done.
Qed.

Lemma flag_all_run (els : list node) w :
  ∃ w', forEach els (λ el, classList_add el "visible") w = (Ok tt, w') ∧
        fade_observed w' = fade_observed w ∧
        ∀ el c, hasClass w' el c ↔ hasClass w el c ∨ (c = "visible" ∧ el ∈ els).
Proof.
  revert w. induction els as [|x l IH]; intros w.
  - exists w. split; [done|]. split; [done|]. intros el c. set_solver.
  - simpl. unfold mbind, M_bind. unfold classList_add at 1, update_element, modify.
    set (w1 := with_dom _ w).
    destruct (IH w1) as (w' & -> & Hobs & Hcls).
    exists w'. split; [done|]. split; [done|].
    intros el c. rewrite Hcls. unfold hasClass. subst w1.
    rewrite element_insert. case_decide; subst; cbn [classList with_classList];
      set_solver.
Qed.

(** X16. [new ScrollAnimations()] never throws.  With IntersectionObserver
    it starts to observe every [.fade-in-scroll] element and changes no
    element; without it, it observes nothing and flags every such element
    "visible" at once, and changes no other class of any element. *)
Theorem scroll_animations_observes_or_reveals (w : World) :
  let w' := exec ScrollAnimations.constructor w in
  let els := sel_fade_in_scroll (document w) in
  throws ScrollAnimations.constructor w = false ∧
  if hasIntersectionObserver w
  then fade_observed w' = fade_observed w ∪ list_to_set els ∧ dom w' = dom w
  else fade_observed w' = fade_observed w ∧
       ∀ el c, hasClass w' el c ↔ hasClass w el c ∨ (c = "visible" ∧ el ∈ els).
Proof.
  cbv zeta. unfold throws, exec, ScrollAnimations.constructor, ScrollAnimations.init.
  unfold mbind, M_bind, get. cbn [sa_elements].
  destruct (hasIntersectionObserver w).
  - assert (Hrun : ∀ (l : list node) w0,
      forEach l (λ el, modify (with_fade_observed (λ s, s ∪ {[el]}))) w0 =
      (Ok tt, with_fade_observed (λ s, s ∪ list_to_set l) w0)).
    { induction l as [|x l IH]; intros w0.
      - simpl. unfold mret, M_ret. f_equal. destruct w0. unfold with_fade_observed; simpl.
        f_equal. set_solver.
      - simpl. unfold mbind, M_bind, modify. rewrite IH. f_equal.
        destruct w0. unfold with_fade_observed; simpl. f_equal. set_solver. }
    rewrite Hrun. done.
  - destruct (flag_all_run (sel_fade_in_scroll (document w)) w) as (w' & -> & Hobs & Hcls).
    done.
Qed.

(** ** A counter at rest *)

(** X17. A counter with no animation step pending is left alone by paints:
    after any number of animation frames, whatever other counters are
    animating, its text is what it was and it still has no step pending. *)
Theorem idle_counter_keeps_its_text parseInt (el : node) (w : World) (n : nat) :
  pending el w = [] →
  textContent (element (Nat.iter n (paint parseInt) w) el) = textContent (element w el) ∧
  pending el (Nat.iter n (paint parseInt) w) = [].
Proof.
  intros Hp. induction n as [|n [IHt IHp]]; [done|].
  set (w' := Nat.iter n (paint parseInt) w) in *.
  change (Nat.iter (S n) (paint parseInt) w) with (paint parseInt w').
  assert (Hpaint : paint parseInt w' =
            (callAll StatsCounter.updateCounter (frames w')
               (with_frames (λ _, []) w', [])).1) by done.
  rewrite Hpaint.
  destruct (callAll_others el (frames w') (with_frames (λ _, []) w', [])) as [Ht Hq].
  { exact IHp. }
  rewrite Ht, Hq. cbn [fst]. split; [by rewrite element_frames|done].
Qed.

(** ** The back-to-top control's click *)

(** Callbacks in order: those before [a0] keep [K0], [a0] takes [K0] to
    [K], those after it keep [K]. *)
Lemma callAll_split {A} (K0 K : World → Prop) (f : A → M unit)
    (l1 : list A) (a0 : A) (l2 : list A) (r : Run) :
  (∀ a, a ∈ l1 → preserves K0 (f a)) →
  (∀ w, K0 w → K (f a0 w).2) →
  (∀ a, a ∈ l2 → preserves K (f a)) →
  K0 r.1 → K (callAll f (l1 ++ a0 :: l2) r).1.
Proof.
  intros H1 H0 H2 H. unfold callAll. rewrite foldl_app. cbn [foldl].
  apply (callAll_preserves K f l2); [done|].
  unfold call at 1.
  pose proof (callAll_preserves K0 f l1 r H1 H) as H'. unfold callAll in H'.
  specialize (H0 _ H').
  by destruct (f a0 (foldl (λ r a, call (f a) r) r l1).1) as [[[]|x] w'].
Qed.

Ltac calls_leaf :=
  cbv beta in *;
  match goal with
  | H : _ ∧ (∃ _, _) |- _ =>
      let Hl := fresh in let l := fresh "later" in let Hc := fresh in
      destruct H as (Hl & l & Hc); split; [exact Hl|];
      first
        [ by exists l
        | eexists (_ :: l); cbn [scrollTo_calls with_scrollTo_calls with_defaultPrevented];
          by rewrite Hc ]
  end.

(** The click listeners of the control on the initialised page: its own,
    preceded at most by listeners of Navigation. *)
Lemma control_click_listeners (d : Document) (b : node) (w : World) :
  byId d !! "backToTop" = Some b →
  listeners w = own_listeners d →
  ∃ l1 l2,
    listeners_on (OnNode b) "click" w =
      l1 ++ mkListener (OnNode b) "click" (Btt_scrollToTop {| button := Some b |}) :: l2 ∧
    ∀ l, l ∈ l1 →
      (∃ nav, l_handler l = Nav_toggleMenu nav) ∨ (∃ nav, l_handler l = Nav_linkClick nav) ∨
      (∃ nav, l_handler l = Nav_handleScroll nav) ∨
      (∃ nav, l_handler l = Nav_documentClick nav).
Proof.
  intros Hb Hl. unfold listeners_on. rewrite Hl. unfold own_listeners. rewrite Hb.
  set (p := λ l : Listener, bool_decide (l_target l = OnNode b ∧ l_type l = "click")).
  rewrite !List.filter_app.
  assert (Hpair : List.filter p
            [mkListener OnWindow "scroll" (Btt_handleScroll {| button := Some b |});
             mkListener (OnNode b) "click" (Btt_scrollToTop {| button := Some b |})]
          = [mkListener (OnNode b) "click" (Btt_scrollToTop {| button := Some b |})]).
  { cbn [List.filter]. subst p. cbv beta. cbn [l_target l_type].
    rewrite bool_decide_false by (by intros [? ?]).
    by rewrite bool_decide_true. }
  rewrite Hpair.
  lazymatch goal with
  | |- context [?A ++ ?B ++ ?C ++ ?D ++ [mkListener (OnNode b) "click" ?h] ++ ?rest] =>
      exists (A ++ B ++ C ++ D), rest
  end.
  split; [by rewrite <- !app_assoc|].
  intros l. rewrite !elem_of_app.
  intros [H|[H|[H|H]]]; apply list_elem_of_In, filter_In in H as [H _];
    apply list_elem_of_In in H.
  - apply list_elem_of_singleton in H as ->. eauto.
  - destruct (byId d !! "menuToggle"); [|by apply elem_of_nil in H].
    apply list_elem_of_singleton in H as ->. eauto.
  - apply list_elem_of_fmap in H as (? & -> & _). eauto.
  - apply list_elem_of_singleton in H as ->. eauto 6.
Qed.

Section TopAsked.

Variable parseInt : option string → number.
Variable ls : list Listener.
Variable before : list number.

Lemma handlers_asked_for_top h e : preserves (asked_for_top ls before) (handleEvent h e).
Proof. destruct h; unfold asked_for_top; unfold_script; by preserves_body calls_leaf. Qed.

Lemma nodes_asked_for_top path' path (r : Run) :
  asked_for_top ls before r.1 →
  asked_for_top ls before
    (foldl (λ r n, fire (OnNode n) "click" (mkEvent path' (Some n)) r) r path).1.
Proof.
  revert r. induction path as [|n p IH]; intros r H; simpl; [done|].
  apply IH. apply (fire_preserves (asked_for_top ls before) ls); [by intros w [? ?]| |done].
  intros; apply handlers_asked_for_top.
Qed.

Lemma click_asks_for_top d b anc (r : Run) :
  byId d !! "backToTop" = Some b →
  ls = own_listeners d →
  listeners r.1 = ls → scrollTo_calls r.1 = before →
  asked_for_top ls before (deliver parseInt (Click (b :: anc)) r).1.
Proof.
  intros Hb Hown Hl Hc. cbn [deliver]. unfold bubble. cbn [foldl].
  do 2 (apply (fire_preserves (asked_for_top ls before) ls);
        [by intros w [? ?]|intros; apply handlers_asked_for_top|]).
  apply nodes_asked_for_top. unfold fire.
  destruct (control_click_listeners d b (with_defaultPrevented false r.1, r.2).1 Hb)
    as (l1 & l2 & -> & Hl1); [by rewrite <- Hown|].
  apply (callAll_split (calls_are ls before) (asked_for_top ls before)).
  - intros l Hin. unfold calls_are.
    destruct (Hl1 l Hin) as [[? ->]|[[? ->]|[[? ->]|[? ->]]]];
      unfold_script; preserves_body ltac:(by simpl in * ).
  - intros w [Hl' Hc']. split; [done|]. exists [].
    cbn [l_handler handleEvent]. unfold BackToTop.scrollToTop, window_scrollTo, modify.
    cbn [snd scrollTo_calls with_scrollTo_calls app]. by rewrite Hc'.
  - intros l _. apply handlers_asked_for_top.
  - split; [exact Hl|exact Hc].
Qed.

End TopAsked.

(** X18. On a page initialised from a state without listeners, a click on
    the back-to-top control asks the window to scroll to the top: whatever
    happened before, the calls of [window.scrollTo] after the click are
    those made before it, then a call with top 0, then any calls made by
    listeners that ran after the control's. *)
Theorem back_to_top_click_scrolls_to_top parseInt (w : World) (b : node) evs anc :
  listeners w = [] →
  byId (document w) !! "backToTop" = Some b →
  let r := deliverAll parseInt evs (exec DOMContentLoaded w, []) in
  ∃ later,
    scrollTo_calls (deliver parseInt (Click (b :: anc)) r).1 =
    later ++ 0%float :: scrollTo_calls r.1.
Proof.
  intros Hnil Hb r.
  apply (click_asks_for_top parseInt (own_listeners (document w))
           (scrollTo_calls r.1) (document w) b anc r); try done.
  by apply initialised_listeners.
Qed.

(** ** A click on the menu toggle, through the whole page *)

Lemma own_click_listener (d : Document) (l : Listener) :
  l ∈ own_listeners d → l_type l = "click" →
  (∃ t, byId d !! "menuToggle" = Some t ∧
        l = mkListener (OnNode t) "click" (Nav_toggleMenu (nav_of d))) ∨
  (∃ link, link ∈ sel_nav_menu_a d ∧
        l = mkListener (OnNode link) "click" (Nav_linkClick (nav_of d))) ∨
  l = mkListener OnDocument "click" (Nav_documentClick (nav_of d)) ∨
  (∃ b, l = mkListener (OnNode b) "click" (Btt_scrollToTop {| button := Some b |})) ∨
  (∃ link, l = mkListener (OnNode link) "click"
                 (Smooth_handleClick {| links := sel_a_href_hash d |})).
Proof.
  intros Hl Hty. apply own_listeners_handler in Hl.
  destruct Hl as [->|[(?&?&->)|[(?&?&->)|[->|[(?&?&[->| ->])|[(?&?&->)|[(?&?&->)|[->|(?&?&->)]]]]]]]];
    simpl in *; try done; eauto 10.
Qed.

Section ToggleClick.

Variable parseInt : option string → number.
Variable d : Document.
Variables t m : node.
Variable anc : list node.
Hypothesis toggle_is : byId d !! "menuToggle" = Some t.
Hypothesis menu_is : byId d !! "navMenu" = Some m.
Hypothesis distinct : t ≠ m.
Hypothesis not_in_link : ∀ n, n ∈ t :: anc → n ∉ sel_nav_menu_a d.
Hypothesis toggle_once : t ∉ anc.

Local Abbreviation open_iff := (menu_open_iff (own_listeners d) m).

Lemma scrollToTop_open_iff A this e :
  preserves (open_iff A) (handleEvent (Btt_scrollToTop this) e).
Proof. unfold menu_open_iff. unfold_script. preserves_body ltac:(by simpl in * ). Qed.

Lemma smooth_open_iff A this e :
  preserves (open_iff A) (handleEvent (Smooth_handleClick this) e).
Proof. unfold menu_open_iff. unfold_script. preserves_body ltac:(by simpl in * ). Qed.

Lemma documentClick_open_iff A e :
  contains t e = true →
  preserves (open_iff A) (handleEvent (Nav_documentClick (nav_of d)) e).
Proof.
  intros Ht w H. cbn [handleEvent].
  rewrite (documentClick_run (nav_of d) t m toggle_is menu_is), Ht.
  destruct (Js.le _ _); [|done]. by destruct (contains m e).
Qed.

Lemma toggleMenu_flips A e w :
  open_iff A w → open_iff (¬ A) (handleEvent (Nav_toggleMenu (nav_of d)) e w).2.
Proof.
  intros [Hl HA]. split.
  - by apply (handleEvent_same_page (Nav_toggleMenu (nav_of d)) e
                (own_listeners d) (document w) w).
  - destruct (toggleMenu_menu (nav_of d) t m toggle_is menu_is distinct w) as (_ & Hm & _).
    cbn [handleEvent]. unfold exec in Hm. rewrite Hm. tauto.
Qed.

(** The click listeners of the toggle: its own, then at most those of
    BackToTop and SmoothScroll. *)
Lemma toggle_click_listeners (w : World) :
  listeners w = own_listeners d →
  ∃ l2,
    listeners_on (OnNode t) "click" w =
      mkListener (OnNode t) "click" (Nav_toggleMenu (nav_of d)) :: l2 ∧
    ∀ l, l ∈ l2 →
      (∃ this, l_handler l = Btt_scrollToTop this) ∨
      (∃ this, l_handler l = Smooth_handleClick this).
Proof.
  intros Hl. unfold listeners_on. rewrite Hl. unfold own_listeners. rewrite toggle_is.
  set (p := λ l : Listener, bool_decide (l_target l = OnNode t ∧ l_type l = "click")).
  rewrite List.filter_app.
  rewrite (List.filter_app p [mkListener (OnNode t) "click" (Nav_toggleMenu (nav_of d))]).
  assert (H1 : List.filter p
            [mkListener OnWindow "scroll" (Nav_handleScroll (nav_of d))] = []).
  { cbn [List.filter]. subst p. cbv beta. cbn [l_target l_type].
    by rewrite bool_decide_false by (by intros [? ?]). }
  assert (H2 : List.filter p
            [mkListener (OnNode t) "click" (Nav_toggleMenu (nav_of d))]
          = [mkListener (OnNode t) "click" (Nav_toggleMenu (nav_of d))]).
  { cbn [List.filter]. subst p. cbv beta. cbn [l_target l_type].
    by rewrite bool_decide_true. }
  rewrite H1, H2.
  lazymatch goal with
  | |- context [[mkListener (OnNode t) "click" ?h] ++ ?rest] => exists rest
  end.
  split; [done|].
  intros l Hin. apply list_elem_of_In, filter_In in Hin as [Hin Hp].
  apply bool_decide_eq_true in Hp as [Htg Hty].
  assert (Hown : l ∈ own_listeners d).
  { unfold own_listeners. rewrite toggle_is. apply elem_of_app. right.
    apply elem_of_app. right. by apply list_elem_of_In. }
  apply list_elem_of_In in Hin.
  rewrite !elem_of_app in Hin.
  destruct Hin as [Hin|Hin].
  { apply list_elem_of_fmap in Hin as (link & -> & Hlink). simpl in Htg.
    injection Htg as ->. destruct (not_in_link t); [by left|done]. }
  destruct (own_click_listener d l Hown Hty)
    as [(t' & Ht' & ->)|[(link & Hlink & ->)|[->|[(b & ->)|(link & ->)]]]].
  - destruct Hin as [Hin|[Hin|[Hin|[Hin|[Hin|Hin]]]]].
    + by apply list_elem_of_singleton in Hin.
    + destruct (byId d !! "backToTop"); [|by apply elem_of_nil in Hin].
      apply elem_of_cons in Hin as [?|Hin]; [done|].
      by apply list_elem_of_singleton in Hin.
    + by apply list_elem_of_fmap in Hin as (? & ? & _).
    + destruct (sel_hero_img d); [|by apply elem_of_nil in Hin].
      by apply list_elem_of_singleton in Hin.
    + by apply list_elem_of_singleton in Hin.
    + by apply list_elem_of_fmap in Hin as (? & ? & _).
  - simpl in Htg. injection Htg as ->. destruct (not_in_link t); [by left|done].
  - done.
  - left. by eexists.
  - right. by eexists.
Qed.

Lemma ancestor_listener_open_iff A n l e :
  n ∈ anc → l ∈ own_listeners d → l_target l = OnNode n → l_type l = "click" →
  preserves (open_iff A) (handleEvent (l_handler l) e).
Proof.
  intros Hn Hl Htg Hty.
  destruct (own_click_listener d l Hl Hty)
    as [(t' & Ht' & ->)|[(link & Hlink & ->)|[->|[(b & ->)|(link & ->)]]]];
    simpl in Htg.
  - rewrite toggle_is in Ht'. injection Ht' as <-. injection Htg as ->. done.
  - injection Htg as ->. destruct (not_in_link n); [by right|done].
  - done.
  - apply scrollToTop_open_iff.
  - apply smooth_open_iff.
Qed.

Lemma ancestors_open_iff A path' (r : Run) :
  open_iff A r.1 →
  open_iff A
    (foldl (λ r n, fire (OnNode n) "click" (mkEvent path' (Some n)) r) r anc).1.
Proof.
  assert (Hsub : ∀ n, n ∈ anc → n ∈ anc) by done. revert Hsub.
  generalize anc at 1 3. intros path. revert r.
  induction path as [|n p IH]; intros r Hsub H; simpl; [done|].
  apply IH; [intros x Hx; apply Hsub; by right|].
  apply fire_preserves_on; [|done].
  intros l Hl Htg Hty. destruct H as [Hls _]. rewrite Hls in Hl.
  apply (ancestor_listener_open_iff A n); [apply Hsub; by left|done..].
Qed.

Lemma click_on_toggle_flips A (r : Run) :
  open_iff A r.1 → open_iff (¬ A) (deliver parseInt (Click (t :: anc)) r).1.
Proof.
  intros [Hls HA]. cbn [deliver]. unfold bubble. cbn [foldl].
  set (r0 := (with_defaultPrevented false r.1, r.2)).
  assert (H0 : open_iff A r0.1) by done. clearbody r0.
  set (e := mkEvent (t :: anc) None).
  set (r1 := fire (OnNode t) "click" _ r0).
  assert (H1 : open_iff (¬ A) r1.1).
  { subst r1. unfold fire.
    destruct (toggle_click_listeners r0.1 (proj1 H0)) as (l2 & -> & Hl2).
    apply (callAll_split (open_iff A) (open_iff (¬ A)) _ []).
    - intros l Hl. by apply elem_of_nil in Hl.
    - intros w. cbn [l_handler]. apply toggleMenu_flips.
    - intros l Hl. destruct (Hl2 l Hl) as [[? ->]|[? ->]];
        [apply scrollToTop_open_iff|apply smooth_open_iff].
    - done. }
  clearbody r1.
  set (r2 := foldl _ r1 anc).
  assert (H2 : open_iff (¬ A) r2.1) by (by apply ancestors_open_iff).
  clearbody r2.
  set (r3 := fire OnDocument "click" e r2).
  assert (H3 : open_iff (¬ A) r3.1).
  { subst r3. apply fire_preserves_on; [|done].
    intros l Hl Htg Hty. rewrite (proj1 H2) in Hl.
    destruct (own_click_listener d l Hl Hty)
      as [(t' & Ht' & ->)|[(link & Hlink & ->)|[->|[(b & ->)|(link & ->)]]]];
      try (by simpl in Htg).
    apply documentClick_open_iff. unfold contains, e. cbn [e_path].
    apply bool_decide_eq_true. by left. }
  clearbody r3.
  apply fire_preserves_on; [|done].
  intros l Hl Htg Hty. rewrite (proj1 H3) in Hl.
  destruct (own_click_listener d l Hl Hty)
    as [(t' & Ht' & ->)|[(link & Hlink & ->)|[->|[(b & ->)|(link & ->)]]]];
    by simpl in Htg.
Qed.

End ToggleClick.


(** ** Reveal notifications *)

Lemma fade_handleIntersection_run (entries : list Entry) w :
  ∃ w', ScrollAnimations.handleIntersection entries w = (Ok tt, w') ∧
        fade_observed w' = fade_observed w ∧
        ∀ el c, hasClass w' el c ↔
                hasClass w el c ∨ (c = "visible" ∧ el ∈ intersecting entries).
Proof.
  unfold ScrollAnimations.handleIntersection, intersecting.
  revert w. induction entries as [|e es IH]; intros w.
  - exists w. split; [done|]. split; [done|]. intros el c. set_solver.
  - cbn [forEach List.filter]. unfold mbind at 1, M_bind at 1.
    destruct (isIntersecting e).
    + unfold classList_add at 1, update_element, modify.
      set (w1 := with_dom _ w).
      destruct (IH w1) as (w' & -> & Hobs & Hcls).
      exists w'. split; [done|]. split; [done|].
      intros el c. rewrite Hcls, fmap_cons. unfold hasClass. subst w1.
      rewrite element_insert. case_decide; subst; cbn [classList with_classList];
        set_solver.
    + unfold mret at 1, M_ret at 1. apply IH.
Qed.

(** X20. A notification of the ScrollAnimations' observer never throws; it
    flags "visible" the target of every intersecting entry and changes no
    other class of any element: no flag is ever removed, entries that are
    not intersecting are skipped, and every element stays observed. *)
Theorem reveal_notification_flags_intersecting (entries : list Entry) (w : World) :
  let w' := exec (ScrollAnimations.handleIntersection entries) w in
  throws (ScrollAnimations.handleIntersection entries) w = false ∧
  fade_observed w' = fade_observed w ∧
  ∀ el c, hasClass w' el c ↔
          hasClass w el c ∨ (c = "visible" ∧ el ∈ intersecting entries).
Proof.
  cbv zeta. unfold throws, exec.
  by destruct (fade_handleIntersection_run entries w) as (w' & -> & Hobs & Hcls).
Qed.

(** ** A click on a menu link, through the whole page *)

Lemma nodes_preserve (P : World → Prop) ls path' path (r : Run) :
  (∀ w, P w → listeners w = ls) →
  (∀ l e, l ∈ ls → preserves P (handleEvent (l_handler l) e)) →
  P r.1 →
  P (foldl (λ r n, fire (OnNode n) "click" (mkEvent path' (Some n)) r) r path).1.
Proof.
  intros Hls Hh. revert r. induction path as [|n p IH]; intros r H; simpl; [done|].
  apply IH. apply (fire_preserves P ls Hls); [|done]. intros; by apply Hh.
Qed.

Lemma nodes_preserve_on (P : World → Prop) path' path (r : Run) :
  (∀ n l e w, n ∈ path → P w → l ∈ listeners w →
     l_target l = OnNode n → l_type l = "click" →
     preserves P (handleEvent (l_handler l) e)) →
  P r.1 →
  P (foldl (λ r n, fire (OnNode n) "click" (mkEvent path' (Some n)) r) r path).1.
Proof.
  revert r. induction path as [|n p IH]; intros r Hh H; simpl; [done|].
  apply IH; [intros n' l e w Hn'; apply Hh; by right|].
  apply fire_preserves_on; [|done].
  intros l Hl Htg Hty. apply (Hh n l _ r.1); [by left|done..].
Qed.

Lemma deliverAll_document parseInt evs (r : Run) :
  document (deliverAll parseInt evs r).1 = document r.1.
Proof.
  apply (deliverAll_preserves parseInt
           (λ w, listeners w = listeners r.1 ∧ document w = document r.1) (listeners r.1));
    try done; try (by intros ? [? ?]); try (by intros ? ? [? ?]);
    try (by intros ? ? ? [? ?]);
    intros; unfold_script; preserves_body ltac:(by simpl in * ).
Qed.

Section LinkClick.

Variable parseInt : option string → number.
Variable d : Document.
Variables t m : node.
Hypothesis toggle_is : byId d !! "menuToggle" = Some t.
Hypothesis menu_is : byId d !! "navMenu" = Some m.
Hypothesis distinct : t ≠ m.

Local Abbreviation is_narrow := (narrow (own_listeners d) d).
Local Abbreviation closed := (menu_closed (own_listeners d) d t m).

Lemma handleEvent_narrow h e : preserves is_narrow (handleEvent h e).
Proof.
  destruct h; unfold narrow; unfold_script; preserves_body ltac:(by simpl in * ).
Qed.

Lemma closeMenu_closed w :
  is_narrow w → closed (Navigation.closeMenu (nav_of d) w).2.
Proof.
  intros Hn. split.
  - revert w Hn. change (preserves is_narrow (Navigation.closeMenu (nav_of d))).
    unfold narrow. unfold_script. preserves_body ltac:(by simpl in * ).
  - destruct (closeMenu_menu (nav_of d) t m toggle_is menu_is distinct w) as (_ & Hm & Hb).
    pose proof (closeMenu_toggle (nav_of d) t m toggle_is menu_is distinct w) as Ht.
    done.
Qed.

Lemma linkClick_closes e w :
  is_narrow w → closed (handleEvent (Nav_linkClick (nav_of d)) e w).2.
Proof.
  intros Hn. cbn [handleEvent]. rewrite (linkClick_run (nav_of d)).
  destruct Hn as (Hl & Hd & Hw). rewrite Hw. by apply closeMenu_closed.
Qed.

Lemma documentClick_closed e :
  preserves closed (handleEvent (Nav_documentClick (nav_of d)) e).
Proof.
  intros w Hc. cbn [handleEvent].
  rewrite (documentClick_run (nav_of d) t m toggle_is menu_is).
  destruct (Js.le _ _); [|done]. destruct (contains m e); [done|].
  destruct (contains t e); [done|]. destruct (bool_decide _); [|done].
  apply closeMenu_closed, Hc.
Qed.

(** Every click listener of the page but the toggle's keeps the menu
    closed. *)
Lemma click_listener_closed l e :
  l ∈ own_listeners d → l_type l = "click" → l_target l ≠ OnNode t →
  preserves closed (handleEvent (l_handler l) e).
Proof.
  intros Hl Hty Htg.
  destruct (own_click_listener d l Hl Hty)
    as [(t' & Ht' & ->)|[(link & Hlink & ->)|[->|[(b & ->)|(link & ->)]]]];
    cbn [l_handler].
  - rewrite toggle_is in Ht'. injection Ht' as <-. by destruct Htg.
  - intros w Hc. apply linkClick_closes, Hc.
  - apply documentClick_closed.
  - unfold menu_closed, narrow. unfold_script. preserves_body ltac:(by simpl in * ).
  - unfold menu_closed, narrow. unfold_script. preserves_body ltac:(by simpl in * ).
Qed.

Lemma click_on_link_closes link anc (r : Run) :
  link ∈ sel_nav_menu_a d → t ∉ link :: anc →
  is_narrow r.1 → closed (deliver parseInt (Click (link :: anc)) r).1.
Proof.
  intros Hlink Hpath Hn. cbn [deliver]. unfold bubble. cbn [foldl].
  set (r0 := (with_defaultPrevented false r.1, r.2)).
  assert (H0 : is_narrow r0.1) by done. clearbody r0.
  set (e := mkEvent (link :: anc) None).
  set (r1 := fire (OnNode link) "click" _ r0).
  assert (Hls : ∀ w, closed w → listeners w = own_listeners d) by (by intros w [[? ?] ?]).
  assert (H1 : closed r1.1).
  { subst r1. unfold fire.
    assert (Hmine : ∀ l, l ∈ listeners_on (OnNode link) "click" r0.1 →
              l ∈ own_listeners d ∧ l_type l = "click" ∧ l_target l ≠ OnNode t).
    { intros l Hl. unfold listeners_on in Hl. rewrite (proj1 H0) in Hl.
      apply list_elem_of_In, filter_In in Hl as [Hl Hb].
      apply bool_decide_eq_true in Hb as [Htg Hty].
      split; [by apply list_elem_of_In|]. split; [done|].
      rewrite Htg. intros [= ->]. apply Hpath. by left. }
    apply (callAll_hands_over is_narrow closed _ _
             (mkListener (OnNode link) "click" (Nav_linkClick (nav_of d)))).
    - unfold listeners_on. rewrite (proj1 H0).
      apply list_elem_of_In, filter_In. split.
      + apply list_elem_of_In. unfold own_listeners. rewrite !elem_of_app.
        do 2 right. left. apply list_elem_of_fmap. by exists link.
      + by apply bool_decide_eq_true.
    - intros l _. apply handleEvent_narrow.
    - intros l Hl. destruct (Hmine l Hl) as (? & ? & ?). by apply click_listener_closed.
    - intros w. cbn [l_handler]. apply linkClick_closes.
    - done. }
  clearbody r1.
  set (r2 := foldl _ r1 anc).
  assert (H2 : closed r2.1).
  { subst r2. apply nodes_preserve_on; [|done].
    intros n l e' w Hanc Hw Hl Htg Hty. rewrite (Hls _ Hw) in Hl.
    apply click_listener_closed; [done..|].
    rewrite Htg. intros [= ->]. apply Hpath. by right. }
  clearbody r2.
  set (r3 := fire OnDocument "click" e r2).
  assert (H3 : closed r3.1).
  { subst r3. apply fire_preserves_on; [|done].
    intros l Hl Htg Hty. rewrite (Hls _ H2) in Hl.
    apply click_listener_closed; [done..|]. by rewrite Htg. }
  clearbody r3.
  apply fire_preserves_on; [|done].
  intros l Hl Htg Hty. rewrite (Hls _ H3) in Hl.
  apply click_listener_closed; [done..|]. by rewrite Htg.
Qed.

End LinkClick.

(** X21. On a page initialised from a state without listeners, with a
    toggle and a menu, in a viewport at most 768 wide at the time of the
    click: a click on a menu link leaves the menu closed, through all the
    listeners that see the click.  Neither the menu nor the toggle is
    "active" afterwards and the body's overflow is restored.  The link is
    assumed not to be inside the toggle. *)
Theorem menu_link_click_closes_menu
    parseInt (w : World) (t m link : node) (anc : list node) evs :
  listeners w = [] →
  byId (document w) !! "menuToggle" = Some t →
  byId (document w) !! "navMenu" = Some m →
  t ≠ m →
  link ∈ sel_nav_menu_a (document w) →
  t ∉ link :: anc →
  let r := deliverAll parseInt evs (exec DOMContentLoaded w, []) in
  Js.le (innerWidth r.1) 768%float = true →
  let r' := deliver parseInt (Click (link :: anc)) r in
  ¬ hasClass r'.1 m "active" ∧ ¬ hasClass r'.1 t "active" ∧
  body_overflow r'.1 = Some (CssStr "").
Proof.
  intros Hnil Ht Hm Hne Hlink Hpath r Hw r'.
  apply (click_on_link_closes parseInt (document w) t m Ht Hm Hne link anc r Hlink Hpath).
  split; [by apply initialised_listeners|]. split; [|done].
  subst r. rewrite deliverAll_document. cbn [fst].
  by destruct (DOMContentLoaded_listeners w) as (_ & -> & _).
Qed.

(** ** A click on an anchor, through the whole page *)

Section AnchorClick.

Variable parseInt : option string → number.
Variable ls : list Listener.
Variable link : node.
Variable h : string.
Hypothesis not_hash : h ≠ "#".

Lemma handlers_href_is l e : preserves (href_is ls link h) (handleEvent l e).
Proof.
  destruct l; unfold href_is; unfold_script;
    preserves_body ltac:(
      cbv beta in *;
      match goal with
      | H : _ ∧ _ |- _ ∧ _ =>
          let Hl := fresh in let Ha := fresh in
          destruct H as [Hl Ha]; split; [exact Hl|];
          first [ exact Ha
                | rewrite element_insert; case_decide; [by subst|exact Ha] ]
      end).
Qed.

Lemma handlers_suppressed l e : preserves (suppressed ls) (handleEvent l e).
Proof.
  destruct l; unfold suppressed; unfold_script;
    preserves_body ltac:(
      cbv beta in *;
      match goal with H : _ ∧ _ |- _ => destruct H; by split end).
Qed.

Lemma smooth_handleClick_suppresses this e w :
  e_currentTarget e = Some link →
  href_is ls link h w → suppressed ls (SmoothScroll.handleClick this e w).2.
Proof.
  intros Hct [Hl Hh]. rewrite (smooth_handleClick_run this e link w Hct), Hh.
  rewrite decide_False by done. cbv zeta.
  destruct (decide (Js.substring1 h = "")); [done|].
  destruct (byId (document w) !! Js.substring1 h); [|done].
  by destruct (byId (document w) !! "navbar").
Qed.

Lemma click_on_anchor_suppresses this anc (r : Run) :
  mkListener (OnNode link) "click" (Smooth_handleClick this) ∈ ls →
  href_is ls link h r.1 →
  suppressed ls (deliver parseInt (Click (link :: anc)) r).1.
Proof.
  intros Hin Hh. cbn [deliver]. unfold bubble. cbn [foldl].
  assert (Hls : ∀ w, suppressed ls w → listeners w = ls) by (by intros w [? ?]).
  do 2 (apply (fire_preserves (suppressed ls) ls Hls);
        [intros; apply handlers_suppressed|]).
  apply (nodes_preserve (suppressed ls) ls); [done|intros; apply handlers_suppressed|].
  unfold fire.
  apply (callAll_hands_over (href_is ls link h) (suppressed ls) _ _
           (mkListener (OnNode link) "click" (Smooth_handleClick this))).
  - unfold listeners_on. cbn [fst listeners with_defaultPrevented].
    rewrite (proj1 Hh).
    apply list_elem_of_In, filter_In. split; [by apply list_elem_of_In|].
    by apply bool_decide_eq_true.
  - intros l _. apply handlers_href_is.
  - intros l _. apply handlers_suppressed.
  - intros w. cbn [l_handler handleEvent]. by apply smooth_handleClick_suppresses.
  - done.
Qed.

End AnchorClick.

(** X22. On the initialised page, a click on an in-page anchor whose href,
    at the time of the click, is not exactly "#" ends with the default
    action suppressed, through all the listeners that see the click and
    whether or not the anchor's own listener throws. *)
Theorem anchor_click_suppresses_default
    parseInt (w : World) (link : node) (h : string) (anc : list node) evs :
  link ∈ sel_a_href_hash (document w) →
  let r := deliverAll parseInt evs (exec DOMContentLoaded w, []) in
  attributes (element r.1 link) !! "href" = Some h → h ≠ "#" →
  defaultPrevented (deliver parseInt (Click (link :: anc)) r).1 = true.
Proof.
  intros Hlink r Hh Hne.
  apply (click_on_anchor_suppresses parseInt (listeners (exec DOMContentLoaded w))
           link h Hne {| links := sel_a_href_hash (document w) |} anc r).
  - destruct (DOMContentLoaded_listeners w) as (_ & _ & ->).
    apply elem_of_app. right. unfold own_listeners. rewrite !elem_of_app.
    do 5 right. left. apply list_elem_of_fmap. by exists link.
  - split; [apply deliverAll_listeners|done].
Qed.

(** ** What initialisation does once and for all *)

Lemma checkReducedMotion_run w :
  checkReducedMotion w =
  (Ok tt,
   if prefersReducedMotion w then
     let root := documentElement (document w) in
     with_dom (insert root
       (with_style (insert "scroll-behavior" (CssStr "auto")) (element w root))) w
   else w).
Proof.
  unfold checkReducedMotion, mbind, M_bind, get. by destruct (prefersReducedMotion w).
Qed.

Lemma preloadCriticalImages_run w :
  preloadCriticalImages w = (Ok tt, with_head_links (λ l, l ++ criticalImages) w).
Proof. done. Qed.

Ltac settled_leaf :=
  cbv beta in *;
  match goal with
  | H : _ ∧ _ ∧ _ |- _ =>
      let Hl := fresh in let Hh := fresh in let Hs := fresh in
      destruct H as (Hl & Hh & Hs);
      first
        [ by repeat split
        | split; [exact Hl|]; split; [exact Hh|];
          let Hn := fresh in
          rewrite element_insert; case_decide as Hn;
          [rewrite Hn;
           cbn [style with_classList with_style with_attributes with_textContent];
           first [exact Hs | by rewrite lookup_insert_ne]
          |exact Hs] ]
  end.

Lemma deliverAll_settled parseInt ls hints root s evs (r : Run) :
  settled ls hints root s r.1 →
  settled ls hints root s (deliverAll parseInt evs r).1.
Proof.
  apply (deliverAll_preserves parseInt (settled ls hints root s) ls).
  - by intros w (? & ?).
  - intros l e _. destruct (l_handler l); unfold settled; unfold_script;
      by preserves_body settled_leaf.
  - intros t. destruct t; unfold settled; unfold_script; by preserves_body settled_leaf.
  - intros; unfold settled; unfold_script; preserves_body settled_leaf.
  - intros; unfold settled; unfold_script; preserves_body settled_leaf.
  - intros; unfold settled; unfold_script; preserves_body settled_leaf.
  - intros; unfold settled; unfold_script; preserves_body settled_leaf.
  - intros; unfold settled; unfold_script; preserves_body settled_leaf.
  - by intros ? ? ? (? & ? & ?).
  - by intros ? (? & ? & ?).
  - by intros ? (? & ? & ?).
  - by intros ? ? (? & ? & ?).
  - by intros ? ? (? & ? & ?).
  - by intros ? ? (? & ? & ?).
  - intros; unfold settled; unfold_script; preserves_body settled_leaf.
Qed.

(** The classes and the functions that follow the first two steps of the
    initialisation add no hint and leave the scroll behaviour alone. *)
Local Abbreviation after_hints :=
  (LazyLoader.constructor ;;
   ScrollAnimations.constructor ;;
   Navigation.constructor ;;
   StatsCounter.constructor ;;
   BackToTop.constructor ;;
   SmoothScroll.constructor ;;
   ParallaxEffect.constructor ;;
   LoadingScreen.constructor ;;
   handleImageErrors ;;
   console_log "🌟 Astron website initialized successfully").

Lemma constructors_settled hints root s :
  preserves (λ w, True ∧ head_links w = hints ∧
                  style (element w root) !! "scroll-behavior" = s)
    after_hints.
Proof.
  unfold_init. unfold_script. unfold addEventListener.
  preserves_body settled_leaf.
Qed.

Lemma DOMContentLoaded_after_hints w :
  exec DOMContentLoaded w =
  exec after_hints
    (with_head_links (λ l, l ++ criticalImages) (checkReducedMotion w).2).
Proof.
  unfold exec, DOMContentLoaded.
  unfold mbind at 1, M_bind at 1. rewrite checkReducedMotion_run.
  unfold mbind at 1, M_bind at 1. by rewrite preloadCriticalImages_run.
Qed.

(** X23. Initialisation adds the preload hint of the hero image to the
    head, once, and sets the root's scroll behaviour to "auto" exactly when
    the user prefers reduced motion; no event ever adds another hint or
    changes the scroll behaviour again. *)
Theorem initialisation_settles_hints_and_motion parseInt (w : World) evs :
  let r := deliverAll parseInt evs (exec DOMContentLoaded w, []) in
  let root := documentElement (document w) in
  head_links r.1 = head_links w ++ criticalImages ∧
  style (element r.1 root) !! "scroll-behavior" =
    if prefersReducedMotion w then Some (CssStr "auto")
    else style (element w root) !! "scroll-behavior".
Proof.
  cbv zeta.
  apply (deliverAll_settled parseInt (listeners (exec DOMContentLoaded w))
           (head_links w ++ criticalImages) (documentElement (document w)) _ evs
           (exec DOMContentLoaded w, [])).
  split; [done|]. cbn [fst].
  rewrite DOMContentLoaded_after_hints.
  apply (constructors_settled (head_links w ++ criticalImages)
           (documentElement (document w))).
  split; [done|]. rewrite checkReducedMotion_run. cbn [snd].
  destruct (prefersReducedMotion w).
  - split; [done|]. cbv zeta.
    change (element (with_head_links ?f ?w0) ?n) with (element w0 n).
    rewrite element_insert, decide_True by done. cbn [style with_style].
    apply lookup_insert_eq.
  - by split.
Qed.

(** ** The further properties at work on the sample page *)

Lemma back_to_top_visible_iff_above_500_witness :
  "visible" ∈ classList
    (element (deliverAll ParseInt.parseInt
                [Scroll 600%float; Click [2; 0]%nat]
                (Sample.mobile, [])).1 10%nat).
Proof.
  assert (Hin : mkListener OnWindow "scroll" (Btt_handleScroll {| button := Some 10%nat |})
                ∈ listeners Sample.mobile).
  { apply list_elem_of_In. vm_compute.
    repeat (first [left; reflexivity | right]). }
  exact (proj2 (back_to_top_visible_iff_above_500 ParseInt.parseInt Sample.mobile
                  {| button := Some 10%nat |} 10%nat [] 600%float [Click [2; 0]%nat]
                  Hin eq_refl eq_refl) eq_refl).
Defined.

Lemma fetched_image_is_shown_witness :
  let r := deliver ParseInt.parseInt (PreloadEnds 0 true) (fetching, []) in
  r.2 = [] ∧
  attributes (element r.1 6%nat) !! "src" = Some "moon.jpg" ∧
  hasClass r.1 6%nat "loaded" ∧
  attributes (element r.1 6%nat) !! "data-src" = None ∧
  preloads r.1 = [] ∧
  LazyLoader.loadImage 6%nat r.1 = (Ok tt, r.1).
Proof.
  exact (fetched_image_is_shown ParseInt.parseInt fetching 0
           (mkPreload 6%nat "moon.jpg") eq_refl).
Defined.

Lemma failed_image_is_marked_loaded_witness :
  let r := deliver ParseInt.parseInt (PreloadEnds 0 false) (fetching, []) in
  r.2 = [] ∧
  hasClass r.1 6%nat "loaded" ∧
  attributes (element r.1 6%nat) = attributes (element fetching 6%nat) ∧
  console r.1 = Log_error "Failed to load image: moon.jpg" :: console fetching ∧
  preloads r.1 = [].
Proof.
  exact (failed_image_is_marked_loaded ParseInt.parseInt fetching 0
           (mkPreload 6%nat "moon.jpg") eq_refl).
Defined.

Lemma only_clicks_move_the_page_witness :
  let r := deliverAll ParseInt.parseInt [Click [4; 3; 0]%nat]
             (exec DOMContentLoaded pristine, []) in
  scrollTo_calls (deliver ParseInt.parseInt (Scroll 600%float) r).1 = scrollTo_calls r.1 ∧
  defaultPrevented (deliver ParseInt.parseInt (Scroll 600%float) r).1
    = defaultPrevented r.1.
Proof.
  exact (only_clicks_move_the_page ParseInt.parseInt pristine [Click [4; 3; 0]%nat]
           (Scroll 600%float) eq_refl eq_refl).
Defined.

Lemma at_most_one_parallax_call_pending_witness :
  (length (pending_later
     (deliverAll ParseInt.parseInt [Scroll 10%float; Scroll 20%float; Load]
        (exec DOMContentLoaded pristine, [])).1) ≤ 1)%nat.
Proof.
  exact (at_most_one_parallax_call_pending ParseInt.parseInt pristine
           [Scroll 10%float; Scroll 20%float; Load] eq_refl).
Defined.

Lemma parallax_follows_last_scroll_witness :
  let r := deliverAll ParseInt.parseInt (Scroll <$> ([100%float; 200%float] ++ [300%float]))
             (exec DOMContentLoaded pristine, []) in
  let r' := deliver ParseInt.parseInt (TimerFires 0) r in
  (timers r.1 = [T_later {| heroImg := Some 11%nat |}] ∧
   style (element r.1 11%nat) !! "transform" = style (element pristine 11%nat) !! "transform") ∧
  (timers r'.1 = [] ∧
   style (element r'.1 11%nat) !! "transform" =
     if Js.lt 300%float (innerHeight pristine) then Some (CssTranslateY (300 * 0.5)%float)
     else style (element pristine 11%nat) !! "transform").
Proof.
  exact (parallax_follows_last_scroll ParseInt.parseInt pristine 11%nat
           [100%float; 200%float] 300%float eq_refl eq_refl eq_refl).
Defined.

Lemma outside_click_closes_menu_witness :
  let opened := exec (Navigation.toggleMenu Sample.nav) Sample.mobile in
  let outside := mkEvent [8; 0]%nat None in
  let inside := mkEvent [4; 3; 0]%nat None in
  (¬ hasClass (exec (Navigation.documentClick Sample.nav outside) opened) 3%nat "active" ∧
   body_overflow (exec (Navigation.documentClick Sample.nav outside) opened)
     = Some (CssStr "")) ∧
  Navigation.documentClick Sample.nav inside opened = (Ok tt, opened).
Proof.
  assert (Hne : 2%nat ≠ 3%nat) by discriminate.
  assert (Hw : Js.le (innerWidth (exec (Navigation.toggleMenu Sample.nav) Sample.mobile))
                 768%float = true) by (vm_compute; reflexivity).
  assert (Hopen : hasClass (exec (Navigation.toggleMenu Sample.nav) Sample.mobile)
                    3%nat "active").
  { unfold hasClass. apply (bool_decide_unpack _). vm_compute. exact I. }
  destruct (outside_click_closes_menu Sample.nav 2%nat 3%nat (mkEvent [8; 0]%nat None)
              (exec (Navigation.toggleMenu Sample.nav) Sample.mobile)
              eq_refl eq_refl Hne) as [Hout _].
  destruct (outside_click_closes_menu Sample.nav 2%nat 3%nat (mkEvent [4; 3; 0]%nat None)
              (exec (Navigation.toggleMenu Sample.nav) Sample.mobile)
              eq_refl eq_refl Hne) as [_ Hin].
  destruct (Hout Hw eq_refl eq_refl Hopen) as (_ & Hclosed & _ & Hflow).
  split; [split; [exact Hclosed|exact Hflow]|].
  apply Hin. right. left. reflexivity.
Defined.

Lemma menu_stays_consistent_witness :
  menu_consistent 2%nat 3%nat
    (deliverAll ParseInt.parseInt
       [Click [2; 0]%nat; Scroll 600%float; Click [4; 3; 0]%nat]
       (exec DOMContentLoaded pristine, [])).1.
Proof.
  assert (Ht : byId (document pristine) !! "menuToggle" = Some 2%nat)
    by (vm_compute; reflexivity).
  assert (Hm : byId (document pristine) !! "navMenu" = Some 3%nat)
    by (vm_compute; reflexivity).
  assert (Hne : 2%nat ≠ 3%nat) by discriminate.
  assert (Hc : menu_consistent 2%nat 3%nat pristine).
  { unfold menu_consistent, hasClass, body_overflow.
    replace (classList (element pristine 2%nat)) with (∅ : gset string)
      by (vm_compute; reflexivity).
    replace (classList (element pristine 3%nat)) with (∅ : gset string)
      by (vm_compute; reflexivity).
    replace (style (element pristine (body (document pristine))) !! "overflow")
      with (@None StyleVal) by (vm_compute; reflexivity).
    split; [reflexivity|]. split; [discriminate|].
    intros H. destruct (not_elem_of_empty (C:=gset string) "active" H). }
  exact (menu_stays_consistent ParseInt.parseInt pristine 2%nat 3%nat
           [Click [2; 0]%nat; Scroll 600%float; Click [4; 3; 0]%nat]
           eq_refl Ht Hm Hne Hc).
Defined.

Lemma counter_without_number_shows_nan_witness :
  let w' := exec (StatsCounter.animateCounter ParseInt.parseInt 7%nat) pristine in
  throws (StatsCounter.animateCounter ParseInt.parseInt 7%nat) pristine = false ∧
  textContent (element w' 7%nat) = TextNum nan ∧
  frames w' = frames pristine.
Proof.
  assert (Hnan : ParseInt.parseInt (attributes (element pristine 7%nat) !! "data-target") = nan)
    by (vm_compute; reflexivity).
  exact (counter_without_number_shows_nan ParseInt.parseInt 7%nat pristine Hnan).
Defined.

Lemma loader_fades_then_leaves_witness :
  let w := Sample.page loader_doc 500%float true in
  let r1 := deliver ParseInt.parseInt Load (exec DOMContentLoaded w, []) in
  let r2 := deliver ParseInt.parseInt (TimerFires 0) r1 in
  let r3 := deliver ParseInt.parseInt (TimerFires 0) r2 in
  hasClass r1.1 0%nat "loaded" ∧ r1.2 = [] ∧
  timers r1.1 = [T_fadeLoader 14%nat] ∧ detached r1.1 = detached w ∧
  timers r2.1 = [T_removeLoader 14%nat] ∧
  style (element r2.1 14%nat) !! "opacity" = Some (CssStr "0") ∧
  detached r2.1 = detached w ∧
  timers r3.1 = [] ∧ detached r3.1 = detached w ∪ {[14%nat]} ∧ r3.2 = [].
Proof.
  exact (loader_fades_then_leaves ParseInt.parseInt
           (Sample.page loader_doc 500%float true) eq_refl eq_refl).
Defined.

Lemma broken_image_stays_hidden_witness :
  style (element
           (deliverAll ParseInt.parseInt
              [Scroll 5%float; ImageError 6%nat; Click [2; 0]%nat]
              (exec DOMContentLoaded pristine, [])).1 6%nat) !! "display"
  = Some (CssStr "none").
Proof.
  assert (Himg : 6%nat ∈ sel_img (document pristine)).
  { change (6%nat ∈ [6; 7; 11]%nat). apply list_elem_of_here. }
  exact (broken_image_stays_hidden ParseInt.parseInt pristine 6%nat
           [Scroll 5%float] [Click [2; 0]%nat] Himg).
Defined.

Lemma idle_counter_keeps_its_text_witness :
  textContent (element (Nat.iter 3 (paint ParseInt.parseInt) Sample.mobile) 9%nat)
    = textContent (element Sample.mobile 9%nat) ∧
  pending 9%nat (Nat.iter 3 (paint ParseInt.parseInt) Sample.mobile) = [].
Proof.
  assert (Hp : pending 9%nat Sample.mobile = []) by (vm_compute; reflexivity).
  exact (idle_counter_keeps_its_text ParseInt.parseInt 9%nat Sample.mobile 3 Hp).
Defined.

Lemma back_to_top_click_scrolls_to_top_witness :
  let r := deliverAll ParseInt.parseInt [Scroll 600%float]
             (exec DOMContentLoaded pristine, []) in
  ∃ later,
    scrollTo_calls (deliver ParseInt.parseInt (Click [10; 0]%nat) r).1 =
    later ++ 0%float :: scrollTo_calls r.1.
Proof.
  assert (Hb : byId (document pristine) !! "backToTop" = Some 10%nat)
    by (vm_compute; reflexivity).
  exact (back_to_top_click_scrolls_to_top ParseInt.parseInt pristine 10%nat
           [Scroll 600%float] [0%nat] eq_refl Hb).
Defined.


Lemma menu_link_click_closes_menu_witness :
  let r := deliverAll ParseInt.parseInt [Click [2; 0]%nat]
             (exec DOMContentLoaded pristine, []) in
  let r' := deliver ParseInt.parseInt (Click [4; 3; 0]%nat) r in
  ¬ hasClass r'.1 3%nat "active" ∧ ¬ hasClass r'.1 2%nat "active" ∧
  body_overflow r'.1 = Some (CssStr "").
Proof.
  assert (Ht : byId (document pristine) !! "menuToggle" = Some 2%nat)
    by (vm_compute; reflexivity).
  assert (Hm : byId (document pristine) !! "navMenu" = Some 3%nat)
    by (vm_compute; reflexivity).
  assert (Hne : 2%nat ≠ 3%nat) by discriminate.
  assert (Hlink : 4%nat ∈ sel_nav_menu_a (document pristine)).
  { change (4%nat ∈ [4; 5]%nat). apply list_elem_of_here. }
  assert (Hpath : 2%nat ∉ [4; 3; 0]%nat).
  { apply (bool_decide_unpack _). vm_compute. exact I. }
  assert (Hw : Js.le (innerWidth
                 (deliverAll ParseInt.parseInt [Click [2; 0]%nat]
                    (exec DOMContentLoaded pristine, [])).1) 768%float = true)
    by (vm_compute; reflexivity).
  exact (menu_link_click_closes_menu ParseInt.parseInt pristine 2%nat 3%nat 4%nat
           [3; 0]%nat [Click [2; 0]%nat] eq_refl Ht Hm Hne Hlink Hpath Hw).
Defined.

Lemma anchor_click_suppresses_default_witness :
  defaultPrevented
    (deliver ParseInt.parseInt (Click [4; 3; 0]%nat)
       (deliverAll ParseInt.parseInt [Scroll 600%float]
          (exec DOMContentLoaded pristine, []))).1 = true.
Proof.
  assert (Hlink : 4%nat ∈ sel_a_href_hash (document pristine)).
  { change (4%nat ∈ [4; 5; 13]%nat). apply list_elem_of_here. }
  assert (Hh : attributes
                 (element (deliverAll ParseInt.parseInt [Scroll 600%float]
                             (exec DOMContentLoaded pristine, [])).1 4%nat) !! "href"
               = Some "#about") by (vm_compute; reflexivity).
  assert (Hne : "#about" ≠ "#") by discriminate.
  exact (anchor_click_suppresses_default ParseInt.parseInt pristine 4%nat "#about"
           [3; 0]%nat [Scroll 600%float] Hlink Hh Hne).
Defined.

(** * Clicks through the whole page *)

(** ** A click after its target *)

Lemma fire_preserves_own (P : World → Prop) ls t type e (r : Run) :
  (∀ w, P w → listeners w = ls) →
  (∀ l, l ∈ ls → l_target l = t → l_type l = type →
        preserves P (handleEvent (l_handler l) e)) →
  P r.1 → P (fire t type e r).1.
Proof.
  intros Hls Hh H. apply fire_preserves_on; [|done].
  intros l Hl. rewrite (Hls _ H) in Hl. by apply Hh.
Qed.

Lemma nodes_preserve_at (P : World → Prop) ls path nodes (r : Run) :
  (∀ w, P w → listeners w = ls) →
  (∀ n l, n ∈ nodes → l ∈ ls → l_target l = OnNode n → l_type l = "click" →
     preserves P (handleEvent (l_handler l) (mkEvent path (Some n)))) →
  P r.1 →
  P (foldl (λ r n, fire (OnNode n) "click" (mkEvent path (Some n)) r) r nodes).1.
Proof.
  intros Hls. revert r. induction nodes as [|n p IH]; intros r Hh H; simpl; [done|].
  apply IH; [intros n' l Hn'; apply Hh; by right|].
  apply (fire_preserves_own P ls _ _ _ _ Hls); [|done].
  intros l Hl Htg Hty. apply Hh; [by left|done..].
Qed.

(** The listeners of the target aside, a click reaches the click listeners
    of the ancestors, of the document and of the window; what each of them
    keeps, the rest of the click keeps. *)
Lemma bubble_after_target (P : World → Prop) ls target anc (r0 : Run) :
  (∀ w, P w → listeners w = ls) →
  (∀ l, l ∈ ls → l_type l = "click" →
     (∀ n, l_target l = OnNode n → n ∈ anc) →
     preserves P (handleEvent (l_handler l)
                    (mkEvent (target :: anc) (currentTarget_of (l_target l))))) →
  P (fire (OnNode target) "click" (mkEvent (target :: anc) (Some target)) r0).1 →
  P (bubble (target :: anc) r0).1.
Proof.
  intros Hls Hh H1. unfold bubble. cbn [foldl].
  apply (fire_preserves_own P ls _ _ _ _ Hls).
  { intros l Hl Htg Hty. specialize (Hh l Hl Hty). rewrite Htg in Hh.
    apply Hh. intros n [=]. }
  apply (fire_preserves_own P ls _ _ _ _ Hls).
  { intros l Hl Htg Hty. specialize (Hh l Hl Hty). rewrite Htg in Hh.
    apply Hh. intros n [=]. }
  apply (nodes_preserve_at P ls); [done| |done].
  intros n l Hn Hl Htg Hty. specialize (Hh l Hl Hty). rewrite Htg in Hh.
  apply Hh. by intros ? [= <-].
Qed.

(** The click listeners of the initialised page. *)
Lemma own_click_cases (d : Document) (l : Listener) :
  l ∈ own_listeners d → l_type l = "click" →
  (∃ t, byId d !! "menuToggle" = Some t ∧
        l = mkListener (OnNode t) "click" (Nav_toggleMenu (nav_of d))) ∨
  (∃ link, link ∈ sel_nav_menu_a d ∧
        l = mkListener (OnNode link) "click" (Nav_linkClick (nav_of d))) ∨
  l = mkListener OnDocument "click" (Nav_documentClick (nav_of d)) ∨
  (∃ b, byId d !! "backToTop" = Some b ∧
        l = mkListener (OnNode b) "click" (Btt_scrollToTop {| button := Some b |})) ∨
  (∃ link, link ∈ sel_a_href_hash d ∧
        l = mkListener (OnNode link) "click"
              (Smooth_handleClick {| links := sel_a_href_hash d |})).
Proof.
  intros Hl Hty. apply own_listeners_handler in Hl.
  destruct Hl as [->|[(?&?&->)|[(?&?&->)|[->|[(?&?&[->| ->])|[(?&?&->)|[(?&?&->)|[->|(?&?&->)]]]]]]]];
    simpl in *; try done; eauto 10.
Qed.

(** ** C8: the mobile menu, click by click *)

Section MenuClicks.

Variable parseInt : option string → number.
Variable d : Document.
Variables t m : node.
Hypothesis toggle_is : byId d !! "menuToggle" = Some t.
Hypothesis menu_is : byId d !! "navMenu" = Some m.
Hypothesis distinct : t ≠ m.

Local Abbreviation known := (menu_known (own_listeners d) d m).
Local Abbreviation in_state := (menu_in_state (own_listeners d) d m).
Local Abbreviation wide := (menu_wide (own_listeners d) d m).

Lemma toggleMenu_sets_state b e w :
  known b w → in_state (negb b) (handleEvent (Nav_toggleMenu (nav_of d)) e w).2.
Proof.
  intros (Hl & Hd & Hb).
  destruct (handleEvent_same_page (Nav_toggleMenu (nav_of d)) e
              (own_listeners d) d w (conj Hl Hd)) as [Hl' Hd'].
  destruct (toggleMenu_menu (nav_of d) t m toggle_is menu_is distinct w)
    as (_ & Hm & Ho).
  cbn [handleEvent] in *. unfold exec in Hm, Ho.
  split; [split; [done|split; [done|]]|].
  - rewrite Hm, Hb. destruct b; simpl; split; done.
  - rewrite Ho. unfold hasClass in Hb.
    destruct b; simpl.
    + rewrite bool_decide_true; [done|]. by apply Hb.
    + rewrite bool_decide_false; [done|]. intros H. by apply Hb in H.
Qed.

Lemma scrollToTop_in_state b this e :
  preserves (in_state b) (handleEvent (Btt_scrollToTop this) e).
Proof.
  unfold menu_in_state, menu_known. unfold_script. preserves_body ltac:(by simpl in * ).
Qed.

Lemma smooth_in_state b this e :
  preserves (in_state b) (handleEvent (Smooth_handleClick this) e).
Proof.
  unfold menu_in_state, menu_known. unfold_script. preserves_body ltac:(by simpl in * ).
Qed.

Lemma documentClick_in_state b e :
  contains t e = true →
  preserves (in_state b) (handleEvent (Nav_documentClick (nav_of d)) e).
Proof.
  intros Ht w H. cbn [handleEvent].
  rewrite (documentClick_run (nav_of d) t m toggle_is menu_is), Ht.
  destruct (Js.le _ _); [|done]. by destruct (contains m e).
Qed.

(** A click on the toggle: its own listener first, then listeners that
    leave the menu alone. *)
Lemma click_on_toggle_sets_state b anc (r : Run) :
  (∀ n, n ∈ t :: anc → n ∉ sel_nav_menu_a d) → t ∉ anc →
  known b r.1 → in_state (negb b) (deliver parseInt (Click (t :: anc)) r).1.
Proof.
  intros Hlinks Honce H. cbn [deliver].
  set (r0 := (with_defaultPrevented false r.1, r.2)).
  assert (H0 : known b r0.1) by done. clearbody r0.
  assert (Hls : ∀ w, in_state (negb b) w → listeners w = own_listeners d)
    by (by intros w [[? ?] ?]).
  apply (bubble_after_target (in_state (negb b)) (own_listeners d)); [done| |].
  - intros l Hl Hty Hanc.
    destruct (own_click_cases d l Hl Hty)
      as [(t' & Ht' & ->)|[(link & Hlink & ->)|[->|[(c & Hc & ->)|(link & Hlink & ->)]]]];
      cbn [l_handler l_target currentTarget_of] in *.
    + rewrite toggle_is in Ht'. injection Ht' as <-.
      destruct Honce. by apply Hanc.
    + destruct (Hlinks link); [right; by apply Hanc|done].
    + apply documentClick_in_state. unfold contains. cbn [e_path].
      apply bool_decide_eq_true. by left.
    + apply scrollToTop_in_state.
    + apply smooth_in_state.
  - unfold fire.
    destruct (toggle_click_listeners d t anc toggle_is Hlinks r0.1 (proj1 H0))
      as (l2 & -> & Hl2).
    apply (callAll_split (known b) (in_state (negb b)) _ []).
    + intros l Hl. by apply elem_of_nil in Hl.
    + intros w. cbn [l_handler]. apply toggleMenu_sets_state.
    + intros l Hl. destruct (Hl2 l Hl) as [[? ->]|[? ->]];
        [apply scrollToTop_in_state|apply smooth_in_state].
    + done.
Qed.

(** In a viewport wider than 768 every click listener but the toggle's
    leaves the menu as it is. *)
Lemma click_listener_wide b o l e :
  l ∈ own_listeners d → l_type l = "click" → l_target l ≠ OnNode t →
  preserves (wide b o) (handleEvent (l_handler l) e).
Proof.
  intros Hl Hty Htg.
  destruct (own_click_cases d l Hl Hty)
    as [(t' & Ht' & ->)|[(link & Hlink & ->)|[->|[(c & Hc & ->)|(link & Hlink & ->)]]]];
    cbn [l_handler].
  - rewrite toggle_is in Ht'. injection Ht' as <-. by destruct Htg.
  - intros w H. cbn [handleEvent]. rewrite (linkClick_run (nav_of d)).
    destruct H as (? & Hw & ?). by rewrite Hw.
  - intros w H. cbn [handleEvent].
    rewrite (documentClick_run (nav_of d) t m toggle_is menu_is).
    destruct H as (? & Hw & ?). by rewrite Hw.
  - unfold menu_wide, menu_known. unfold_script. preserves_body ltac:(by simpl in * ).
  - unfold menu_wide, menu_known. unfold_script. preserves_body ltac:(by simpl in * ).
Qed.

Lemma click_on_link_wide b o link anc (r : Run) :
  t ∉ link :: anc →
  wide b o r.1 → wide b o (deliver parseInt (Click (link :: anc)) r).1.
Proof.
  intros Hpath H. cbn [deliver].
  set (r0 := (with_defaultPrevented false r.1, r.2)).
  assert (H0 : wide b o r0.1) by done. clearbody r0.
  assert (Hls : ∀ w, wide b o w → listeners w = own_listeners d)
    by (by intros w [[? ?] ?]).
  apply (bubble_after_target (wide b o) (own_listeners d)); [done| |].
  - intros l Hl Hty Hanc. apply click_listener_wide; [done..|].
    intros Htg. apply Hpath. right. by apply Hanc.
  - apply (fire_preserves_own (wide b o) (own_listeners d) _ _ _ _ Hls); [|done].
    intros l Hl Htg Hty. apply click_listener_wide; [done..|].
    rewrite Htg. intros [= ->]. apply Hpath. by left.
Qed.

End MenuClicks.



(** ** C9: an in-page anchor, click by click *)

Section AnchorClicks.

Variable parseInt : option string → number.
Variable d : Document.
Variable link : node.
Variable h : string.

Local Abbreviation at_rest := (anchor_at_rest (own_listeners d) d link h).
Local Abbreviation idle := (anchor_idle (own_listeners d) d link h).

(** The listeners of the menu move no page, suppress no default action
    and leave every href as it is. *)
Lemma menu_listener_at_rest calls this l e :
  l = Nav_toggleMenu this ∨ l = Nav_linkClick this ∨ l = Nav_documentClick this →
  preserves (at_rest calls) (handleEvent l e).
Proof.
  intros [->|[->| ->]]; unfold anchor_at_rest; unfold_script;
    preserves_body ltac:(
      cbv beta in *;
      match goal with
      | H : _ ∧ _ |- _ ∧ _ =>
          let Hl := fresh in let Hd := fresh in
          let Ha := fresh in let Hc := fresh in
          destruct H as (Hl & Hd & Ha & Hc);
          split; [exact Hl|split; [exact Hd|split; [|exact Hc]]];
          first [ exact Ha
                | rewrite element_insert; case_decide; [by subst|exact Ha] ]
      end).
Qed.

Lemma menu_listener_idle calls this l e :
  l = Nav_toggleMenu this ∨ l = Nav_linkClick this ∨ l = Nav_documentClick this →
  preserves (idle calls) (handleEvent l e).
Proof.
  intros Hl w [H Hp]. split; [by apply (menu_listener_at_rest calls this)|].
  clear H. revert w Hp. change (preserves (λ w, defaultPrevented w = false) (handleEvent l e)).
  destruct Hl as [->|[->| ->]]; unfold_script; preserves_body ltac:(by simpl in * ).
Qed.

(** The anchor's own listener, when the href is "#" and when it names no
    element. *)
Lemma smooth_hash_idle calls this path :
  h = "#" →
  preserves (idle calls)
    (handleEvent (Smooth_handleClick this) (mkEvent path (Some link))).
Proof.
  intros -> w H. cbn [handleEvent].
  rewrite (smooth_handleClick_run this (mkEvent path (Some link)) link w eq_refl).
  assert (Ha := proj1 (proj2 (proj2 (proj1 H)))). rewrite Ha.
  by rewrite decide_True.
Qed.

Lemma smooth_missing_at_rest calls this path :
  h ≠ "#" → byId d !! Js.substring1 h = None →
  preserves (at_rest calls)
    (handleEvent (Smooth_handleClick this) (mkEvent path (Some link))).
Proof.
  intros Hne Hnone w H. cbn [handleEvent].
  rewrite (smooth_handleClick_run this (mkEvent path (Some link)) link w eq_refl).
  destruct H as (Hl & Hd & Ha & Hc). rewrite Ha.
  rewrite decide_False by done. cbv zeta. rewrite Hd, Hnone.
  by destruct (decide (Js.substring1 h = "")); cbn [snd]; repeat split.
Qed.

(** After the listeners of the anchor itself, a click keeps what the
    menu's listeners keep, when none of the anchor's ancestors is the
    back-to-top control or another in-page anchor. *)
Lemma after_anchor_keeps (P : World → Prop) anc (r0 : Run) :
  (∀ w, P w → listeners w = own_listeners d) →
  (∀ l e, l = Nav_toggleMenu (nav_of d) ∨ l = Nav_linkClick (nav_of d)
          ∨ l = Nav_documentClick (nav_of d) →
          preserves P (handleEvent l e)) →
  (∀ b, byId d !! "backToTop" = Some b → b ∉ anc) →
  (∀ n, n ∈ anc → n ∉ sel_a_href_hash d) →
  P (fire (OnNode link) "click" (mkEvent (link :: anc) (Some link)) r0).1 →
  P (bubble (link :: anc) r0).1.
Proof.
  intros Hls Hnav Hcontrol Hanchors H.
  apply (bubble_after_target P (own_listeners d)); [done| |done].
  intros l Hl Hty Hanc.
  destruct (own_click_cases d l Hl Hty)
    as [(t' & Ht' & ->)|[(n & Hn & ->)|[->|[(c & Hc & ->)|(n & Hn & ->)]]]];
    cbn [l_handler l_target currentTarget_of] in *.
  - apply Hnav. by left.
  - apply Hnav. right. by left.
  - apply Hnav. right. by right.
  - destruct (Hcontrol c Hc). by apply Hanc.
  - destruct (Hanchors n); [by apply Hanc|done].
Qed.

(** A click on the anchor keeps what the menu's listeners and the anchor's
    own keep, when the path holds neither the back-to-top control nor
    another in-page anchor. *)
Lemma click_on_anchor_keeps (P : World → Prop) anc (r : Run) :
  (∀ w, P w → listeners w = own_listeners d) →
  (∀ l e, l = Nav_toggleMenu (nav_of d) ∨ l = Nav_linkClick (nav_of d)
          ∨ l = Nav_documentClick (nav_of d) →
          preserves P (handleEvent l e)) →
  (∀ this, preserves P (handleEvent (Smooth_handleClick this)
                          (mkEvent (link :: anc) (Some link)))) →
  (∀ b, byId d !! "backToTop" = Some b → b ∉ link :: anc) →
  (∀ n, n ∈ anc → n ∉ sel_a_href_hash d) →
  P (with_defaultPrevented false r.1) →
  P (deliver parseInt (Click (link :: anc)) r).1.
Proof.
  intros Hls Hnav Hown Hcontrol Hanchors H. cbn [deliver].
  set (r0 := (with_defaultPrevented false r.1, r.2)).
  assert (H0 : P r0.1) by done. clearbody r0.
  apply after_anchor_keeps; [done..| |done|].
  { intros b Hb Hin. destruct (Hcontrol b Hb). by right. }
  apply (fire_preserves_own P (own_listeners d) _ _ _ _ Hls); [|done].
  intros l Hl Htg Hty.
  destruct (own_click_cases d l Hl Hty)
    as [(t' & Ht' & ->)|[(n & Hn & ->)|[->|[(c & Hc & ->)|(n & Hn & ->)]]]];
    cbn [l_handler l_target] in *.
  - apply Hnav. by left.
  - apply Hnav. right. by left.
  - apply Hnav. right. by right.
  - injection Htg as ->. destruct (Hcontrol link Hc). by left.
  - apply Hown.
Qed.

End AnchorClicks.



(** ** Anchors whose target exists, click by click *)

Lemma filter_fmap_one {A B} `{EqDecision A} (p : B → bool) (f : A → B) (x : A) (l : list A) :
  NoDup l → x ∈ l → (∀ y, y ∈ l → p (f y) = bool_decide (y = x)) →
  List.filter p (f <$> l) = [f x].
Proof.
  intros Hnd Hx Hp.
  assert (Hnone : ∀ l', x ∉ l' → (∀ y, y ∈ l' → p (f y) = bool_decide (y = x)) →
                        List.filter p (f <$> l') = []).
  { induction l' as [|y l' IH]; intros Hn Hp'; [done|].
    cbn [fmap list_fmap List.filter]. rewrite Hp' by (by left).
    rewrite bool_decide_false by (intros ->; apply Hn; by left).
    apply IH; [intros ?; apply Hn; by right|intros; apply Hp'; by right]. }
  induction Hnd as [|y l Hy Hnd IH]; [by apply elem_of_nil in Hx|].
  cbn [fmap list_fmap List.filter]. rewrite Hp by (by left).
  apply elem_of_cons in Hx as [->|Hx].
  - rewrite bool_decide_true by done. f_equal.
    apply Hnone; [done|intros; apply Hp; by right].
  - rewrite bool_decide_false by (intros ->; done).
    apply IH; [done|intros; apply Hp; by right].
Qed.

(** The click listeners of an in-page anchor that is not the back-to-top
    control: its own, once and last, after listeners of the menu. *)
Lemma anchor_click_listeners (d : Document) (link : node) (w : World) :
  NoDup (sel_a_href_hash d) → link ∈ sel_a_href_hash d →
  (∀ b, byId d !! "backToTop" = Some b → b ≠ link) →
  listeners w = own_listeners d →
  ∃ l1,
    listeners_on (OnNode link) "click" w =
      l1 ++ [mkListener (OnNode link) "click"
               (Smooth_handleClick {| links := sel_a_href_hash d |})] ∧
    ∀ l, l ∈ l1 →
      l_handler l = Nav_toggleMenu (nav_of d) ∨ l_handler l = Nav_linkClick (nav_of d).
Proof.
  intros Hnd Hlink Hcontrol Hl. unfold listeners_on. rewrite Hl. unfold own_listeners.
  set (p := λ l : Listener, bool_decide (l_target l = OnNode link ∧ l_type l = "click")).
  rewrite !List.filter_app.
  rewrite (filter_fmap_one p
             (λ a, mkListener (OnNode a) "click"
                     (Smooth_handleClick {| links := sel_a_href_hash d |})) link);
    [|done|done|].
  2:{ intros y _. subst p. cbv beta. cbn [l_target l_type].
      apply bool_decide_ext. split; [by intros [[= ->] _]|by intros ->]. }
  assert (Hbtt : List.filter p
            match byId d !! "backToTop" with
            | Some b =>
                [mkListener OnWindow "scroll" (Btt_handleScroll {| button := Some b |});
                 mkListener (OnNode b) "click" (Btt_scrollToTop {| button := Some b |})]
            | None => []
            end = []).
  { destruct (byId d !! "backToTop") as [b|] eqn:Hb; [|done].
    cbn [List.filter]. subst p. cbv beta. cbn [l_target l_type].
    rewrite bool_decide_false by (by intros [? ?]).
    rewrite bool_decide_false; [done|].
    intros [[= ->] _]. by destruct (Hcontrol link eq_refl). }
  rewrite Hbtt.
  assert (Hhero : List.filter p
            match sel_hero_img d with
            | Some h => [mkListener OnWindow "scroll" (Parallax_debounced {| heroImg := Some h |})]
            | None => []
            end = []).
  { destruct (sel_hero_img d); [|done].
    cbn [List.filter]. subst p. cbv beta. cbn [l_target l_type].
    by rewrite bool_decide_false by (by intros [? ?]). }
  rewrite Hhero.
  assert (Himg : List.filter p
            ((λ img, mkListener (OnNode img) "error" (Img_onError img)) <$> sel_img d) = []).
  { induction (sel_img d) as [|i l IH]; [done|].
    cbn [fmap list_fmap List.filter]. subst p. cbv beta. cbn [l_target l_type].
    rewrite bool_decide_false by (by intros [? ?]). exact IH. }
  rewrite Himg.
  assert (Hload : List.filter p [mkListener OnWindow "load" Loading_onLoad] = []).
  { cbn [List.filter]. subst p. cbv beta. cbn [l_target l_type].
    by rewrite bool_decide_false by (by intros [? ?]). }
  rewrite Hload.
  lazymatch goal with
  | |- context [?A ++ ?B ++ ?C ++ ?D ++ [] ++ [?x] ++ [] ++ [] ++ []] =>
      exists (A ++ B ++ C ++ D)
  end.
  split; [cbn [app]; by rewrite <- !app_assoc|].
  intros l. rewrite !elem_of_app.
  intros [H|[H|[H|H]]]; apply list_elem_of_In, filter_In in H as [H Hp];
    apply list_elem_of_In in H.
  - apply list_elem_of_singleton in H as ->. subst p. cbv beta in Hp.
    apply bool_decide_eq_true in Hp as [? ?]. done.
  - destruct (byId d !! "menuToggle"); [|by apply elem_of_nil in H].
    apply list_elem_of_singleton in H as ->. by left.
  - apply list_elem_of_fmap in H as (? & -> & _). by right.
  - apply list_elem_of_singleton in H as ->. subst p. cbv beta in Hp.
    apply bool_decide_eq_true in Hp as [? ?]. done.
Qed.

Section AnchorScrolls.

Variable parseInt : option string → number.
Variable d : Document.
Variables link t n : node.
Variable h : string.
Variables top height : number.
Hypothesis not_hash : h ≠ "#".
Hypothesis names_id : Js.substring1 h ≠ "".
Hypothesis target_is : byId d !! Js.substring1 h = Some t.
Hypothesis navbar_is : byId d !! "navbar" = Some n.

Local Abbreviation at_rest := (anchor_at_rest (own_listeners d) d link h).
Local Abbreviation ready := (anchor_ready (own_listeners d) d link h t n top height).

(** The listeners of the menu leave the offsets of the target and the
    height of the navbar as they are. *)
Lemma menu_listener_ready calls l e :
  l = Nav_toggleMenu (nav_of d) ∨ l = Nav_linkClick (nav_of d) →
  preserves (ready calls) (handleEvent l e).
Proof.
  intros Hl w [H [Ht Hn]].
  split; [apply (menu_listener_at_rest d link h calls (nav_of d)); tauto|].
  clear H. revert w Ht Hn.
  enough (Hoff : preserves
            (λ w, offsetTop (element w t) = top ∧ offsetHeight (element w n) = height)
            (handleEvent l e)) by (intros w ? ?; by apply Hoff).
  destruct Hl as [->| ->]; unfold_script;
    preserves_body ltac:(
      cbv beta in *;
      match goal with
      | H : _ ∧ _ |- _ ∧ _ =>
          let Ht := fresh in let Hn := fresh in
          destruct H as [Ht Hn];
          first [ by split
                | rewrite !element_insert; split; case_decide;
                  first [ assumption | by subst ] ]
      end).
Qed.

Lemma smooth_scrolls_below_navbar calls this path w :
  ready calls w →
  at_rest ((top - height)%float :: calls)
    (handleEvent (Smooth_handleClick this) (mkEvent path (Some link)) w).2.
Proof.
  intros ((Hl & Hd & Ha & Hc) & Ht & Hn). cbn [handleEvent].
  rewrite (smooth_handleClick_run this (mkEvent path (Some link)) link w eq_refl).
  rewrite Ha. rewrite decide_False by done. cbv zeta.
  rewrite decide_False by done. rewrite Hd, target_is, navbar_is. cbn [snd].
  repeat split; try done. cbn. by rewrite Ht, Hn, Hc.
Qed.

Lemma click_on_anchor_scrolls calls anc (r : Run) :
  NoDup (sel_a_href_hash d) → link ∈ sel_a_href_hash d →
  (∀ b, byId d !! "backToTop" = Some b → b ∉ link :: anc) →
  (∀ n, n ∈ anc → n ∉ sel_a_href_hash d) →
  ready calls r.1 →
  at_rest ((top - height)%float :: calls) (deliver parseInt (Click (link :: anc)) r).1.
Proof.
  intros Hnd Hlink Hcontrol Hanchors H. cbn [deliver].
  set (r0 := (with_defaultPrevented false r.1, r.2)).
  assert (H0 : ready calls r0.1) by done. clearbody r0.
  apply (after_anchor_keeps d link).
  - by intros ? [? ?].
  - intros l e. apply (menu_listener_at_rest d link h _ (nav_of d)).
  - intros b Hb Hin. destruct (Hcontrol b Hb). by right.
  - done.
  - unfold fire.
    destruct (anchor_click_listeners d link r0.1 Hnd Hlink) as (l1 & -> & Hl1).
    { intros b Hb ->. destruct (Hcontrol link Hb). by left. }
    { apply H0. }
    apply (callAll_split (ready calls) (at_rest ((top - height)%float :: calls)) _ l1 _ []).
    + intros l Hin. apply menu_listener_ready. by apply Hl1.
    + intros w. cbn [l_handler]. apply smooth_scrolls_below_navbar.
    + intros l Hin. by apply elem_of_nil in Hin.
    + done.
Qed.

End AnchorScrolls.


(** ** C6: a revealed element that is also the back-to-top control *)

(** C6, as the specification words it, fails on a page whose back-to-top
    control is itself a reveal-on-scroll element: once revealed it carries
    "visible", and the scroll listener of the control removes the flag when
    the page is scrolled to 500 or less. *)
Lemma revealed_control_loses_flag :
  let page := Sample.ready revealed_control_doc 500%float true in
  let shown :=
    deliver ParseInt.parseInt (FadeNotification [mkEntry 10%nat true]) (page, []) in
  let r := deliver ParseInt.parseInt (Scroll 0%float) shown in
  10%nat ∈ sel_fade_in_scroll (document page) ∧
  hasClass shown.1 10%nat "visible" ∧ ¬ hasClass r.1 10%nat "visible" ∧ r.2 = [].
Proof.
  cbv zeta. unfold hasClass.
  split; [by_computation|]. split; [by_computation|]. split; [by_computation|].
  by vm_compute.
Qed.

(** * The clicks on the sample page *)



